(* ===== verification/_CoqProject ===== *)
-Q . S2P
Prelude.v
Python.v
Course.v
Validation.v
Registry.v
Invariant.v
App.v
Observe.v
Store.v
Heap.v
Decimal.v
Router.v
Objects.v
Tasks.v
Coroutines.v
Schedule.v
Server.v
