(* ===== verification/Prelude.v ===== *)
(** * Course registry service (src/main.py): verification development

    ** The program

    [src/main.py] is a FastAPI application of 115 lines.  It keeps one
    module-level list, [courses_db], seeded with six [Course] objects, and
    serves seven routes over it: list all, get by id, filter by rating,
    filter by published date, create, update and delete.  Bodies are
    validated by the pydantic model [CourseRequest], path and query
    parameters by their [Path] and [Query] declarations, before a handler
    runs.  The handlers scan the list linearly; create assigns the id
    "last record's id plus one"; update overwrites every match through
    [courses_db[i] = course_request]; delete pops the first match and
    breaks.  A lookup that finds nothing raises [HTTPException] 404.

    ** The files, in dependency order

    - [Prelude] (this file): the state-and-exception monad [StateErr] in
      which the handlers are written, its equations, the hint databases
      [registry] and [run] and the tactic [run_simpl], [serve_by] (a
      handler run on a sequence of requests) with the simulation between
      two services, and the list and sortedness lemmas the components
      share.
    - [Python]: the built-ins the source calls, with Python's behaviour:
      [getitem], [setitem] and [pop] (negative indices, [IndexError]),
      [append], [len], [range], [add] on an [int] or [None] ([TypeError]),
      and the exceptions [Exn].  Integers are [Z]; a [str] is its list of
      code points.
    - [Course]: the classes [Course] (lines 9-21) and [CourseRequest]
      (lines 24-29) as records, the items [Entry] of the list (a [Course],
      or a [CourseRequest] once [update_course] stored one), the class
      [Attrs] for the attribute reads the handlers make on either, and the
      seed [courses_db] (lines 43-50).
    - [Validation]: each [Field], [Path] and [Query] declaration as the list
      of keyword arguments the source writes, [check_int] and [check_str]
      giving them pydantic's meaning, and [validate] for a body.
    - [Registry]: one definition per function of the source
      ([get_all_courses], [get_course], [get_courses_by_rating],
      [get_courses_by_publish_date], [create_course], [find_courseID],
      [update_course], [delete_course]) with their loops
      ([get_course_loop], [collect_loop], [update_course_loop],
      [delete_course_loop]), then the reference definitions ([overwrite],
      [remove_first], [next_id], [present]) and the proof that each handler
      equals its reference on every registry.
    - [Invariant]: the registry invariant [wf] (every id an integer,
      positive, strictly increasing along the list), its preservation by the
      handlers, and what uniqueness of ids adds to the scans.
    - [App]: the requests that reach a route ([Request]), the responses,
      the [status_code] argument of each decorator as a definition of its
      own ([get_course_status_code], ...), [handle] (validation, the
      route's handler, the status code of the outcome), the transition relation [step] with one rule per outcome,
      [serve] for a sequence of requests and [reachable] for the registries
      the service can be in; then the properties a client observes, and the
      life of an id (reuse after deletion, emptying the registry).
    - [Observe]: items, bodies and responses up to the class of the stored
      object ([Course] or [CourseRequest]) as setoids, with [Proper]
      instances for the reference operations, [handle] and [serve].
    - [Store]: the contract of the registry on a finite map from id to
      record ([astep] on [gmap Z Entry]), the map [abs db] a list
      represents, and the simulation between [handle] on the list and
      [astep] on the map.
    - [Heap]: the records as objects on a heap.  A [State] is a finite map
      from references to objects and the list [refs] of references that is
      [courses_db]; the eight functions are written again over it
      ([heap_get_course], ..., [heap_find_courseID] with the in-place
      assignment [setattr_id], [heap_update_course] storing the reference
      of the request object), with object creation [new] and the
      framework's part ([heap_respond], [heap_route], [heap_handle]).
      [represents s db] says that the references of [s] lead to the items
      of [db]; [refines] relates a computation on the heap to a handler on
      values, with one rule per operation of the list.
    - [Decimal]: the parser of integer parameters as an interface
      ([IntParser], [IntParserLaws]) and the decimal parser [parse_Z] as its
      instance, with the round trip through [pretty].
    - [Router]: the route table [app] (the decorators of [main.py] in file
      order, after the documentation routes [FastAPI()] installs), path
      templates and their matching, the search for a route ([find_route]),
      redirection of the final slash, the parameters of each signature
      (from the path, the query or the body, under the name the function
      gives them: [get_course_call], ...) and the call of a matched route
      ([call]), and [handle_raw], [serve_raw] for raw requests; [render] is
      the client's side.
    - [Objects]: objects as dictionaries of attributes: [Course.__init__]
      (lines 16-21), the keyword call of line 86 on [model_dump], the
      annotations of the two classes and the dictionary a response shows.
    - [Tasks]: the language of coroutines.  A [Task] is a program whose
      steps are single operations on the list ([Len], [GetItem], [SetItem],
      [Pop], [Append], the [Next] of a list iterator, [Load]) or [Await];
      [step] is its small-step semantics, [for_in] and [for_range] are the
      two loops of the source, [evals] is evaluation within a number of
      steps, [wp] a precondition calculus for what a program stores while
      other programs run between its steps, [read_only] the programs that
      store nothing.  The hint database [evals] and
      the tactics [evals_op], [evals_within] and [at_next] carry the
      evaluation proofs.  The class [Sequential] is what a scheduler asks
      of the program that handles a request: it awaits nothing, and run
      alone it ends with the answer and the list of a function.
    - [Coroutines]: the eight functions of [main.py] again, as programs of
      [Tasks] ([async_get_course], ..., with [update_course_body] and
      [delete_course_body] for the rounds of the index loops), and the
      framework's part as a program ([responds], [async_route],
      [endpoint]).
    - [Schedule]: two hosts for the coroutines of several requests.  The
      event loop ([loop_step], [event_loop]) resumes a coroutine that
      awaits and lets it run until it awaits again or ends; [threads]
      switches between any two steps.  The facts about the loop are proved
      for any [Sequential] handler and then stated for [endpoint], the
      instance of [Coroutines].
    - [Server]: the process as an interaction tree ([server]): receive a
      raw request, send the reply of [handle_raw], go on with the list
      left, for ever; [feed] runs it on finitely many requests and
      [always] is the predicate "every reply ever sent satisfies".  With
      several connections a raw request is the coroutine [raw_endpoint]
      (the router, then the handler), a second [Sequential] instance.

    ** How state and effects are modelled

    The only state is [courses_db]; a handler is a [StateErr (list Entry)
    Exn] computation, so a mutation made before an exception is kept, as in
    Python.  The index loops recurse on the list [range (len db)] computed
    when the loop starts and go through [getitem], [setitem] and [pop]:
    that they stay in bounds is proved, not assumed.  No fuel is needed:
    every loop of the source is a [for] over a finite sequence, modelled by
    structural recursion on that sequence, so the model is total as the
    code is.  Items are plain values although Python stores references:
    [Heap] gives the model with references and proves that it answers as
    the model with values, because an object is never changed once it is
    stored ([find_courseID] assigns the id of a course no list holds yet)
    and because no run stores one object at two positions.  The handlers
    are [async def] bodies without [await]: a request
    runs to completion before the next one starts, so a run of the service
    is a sequence of [handle] steps.  That is a theorem of [Schedule], not
    an assumption: there the handlers are the step-by-step programs of
    [Coroutines], the state of a run is the list together with the pool of
    the coroutines of the requests in flight, and the event loop is a
    transition relation on it.  The process that never ends is an
    interaction tree built with the library's [ITree.iter]; properties of
    all its replies are stated with Paco's greatest fixed point.

    ** What the theorems show

    - Equivalence ([Registry]): each handler equals its reference
      definition, outcome and final registry together, on every registry;
      in particular the update and delete loops raise no [IndexError].
    - Invariant ([Invariant], [App]): [wf] holds of the seed and is kept by
      every request, so it holds of every reachable registry; with it the
      ids are pairwise distinct, [find_courseID] returns an id above every
      id present, and no request ends in a server error.  Stored records
      keep the constraints validation enforces.
    - Contract ([App]): [step] is exactly the graph of
      [handle]; a request answered 400 or above changes nothing; GET,
      create, update and delete behave as a client expects (read your
      writes, delete then 404, second delete 404, other ids untouched);
      the filters find a record that an update stored under the rating and
      the date of the request, and under no other.
    - Bounds ([Validation], [App]): which values each declaration
      admits.  The published date of a body is not constrained: the source
      writes [gte] and [lte], which pydantic does not read as constraints.
    - Life of an id ([App]): ids never collide, but the id of a
      deleted last record is handed out again; every registry can be
      emptied by deleting its ids.
    - Observation ([Observe]): registries that agree attribute by attribute
      are answered alike for every sequence of requests.  This is a
      property of the interface [Attrs] through which every handler reads
      a record, kept as a library of [Proper] instances; what pins the
      attributes of a stored request to the fields the client sent is the
      scenario of [App] above.
    - Refinement ([Store]): under [wf], [handle] on the list makes exactly
      the transitions of the contract on the map (forward simulation by
      [abs], and the converse since the contract is deterministic); the
      reachable maps are the maps of the reachable registries; [abs] is
      injective on well-formed registries.
    - References ([Heap]): on every state that represents a registry a
      request is answered as by [handle] and leaves a state that represents
      the registry [handle] leaves, without following a dangling reference;
      no request changes an object that existed before it; from the seed
      this holds along every sequence of requests, and the list never holds
      one object twice (on a list with two records of one id, which no run
      reaches, [update_course] would make two positions share the request
      object).
    - Routing ([Router], [Decimal]): the request of each operation reaches
      its handler with its arguments (no route of the file shadows a later
      one for these requests); served through the router a sequence of
      operations behaves as [serve]; any sequence of raw requests leaves a
      reachable registry.  Of the table of [main.py]: each path of the
      interface is answered 405 under every method but its decorator's,
      [HEAD] included; a word in the place of a course id is answered 422,
      since [/courses/{course_id}] takes [GET /courses/publishDate] when
      the final slash is missing, and [GET /courses/update_course]; a
      final slash too many on get by id, create, update and delete is
      forgiven by one redirection, while [/courses] and [/courses/] are
      two routes.  Of the router on any table (lemmas): its own answers
      (405, redirection, 404) are characterised, and a redirection is
      never followed by a second one.
    - Objects ([Objects]): the call of line 86 raises no [TypeError] and
      yields an object whose attributes are the dump of the request.  The
      records of [Course] are typed, although [__init__] stores whatever
      it is given: values reach a [Course] only from the literals of the
      seed and from a validated [CourseRequest], and the one attribute
      that can hold [None], the id, is an integer in every reachable
      registry by [wf].
    - Coroutines ([Tasks], [Coroutines]): run alone, the program of each
      handler ends on every registry with the outcome and the registry of
      the handler of [Registry], within five steps for each record and a
      constant; [endpoint] has answered after [fuel_for] steps; the delete
      loop stops at the first match, after three steps for each record
      before it.  The handlers contain no [Await].
    - Event loop ([Schedule]): every run of the loop is serial (registry and
      responses are those of [serve] on the requests in the order their
      handlers ran); every run can be completed, so no request starves; a
      run resumes coroutines at most twice the number of requests.
    - Threads ([Schedule]): on a host that switches between list
      operations the invariant [wf] is lost: runs are exhibited in which a
      PUT is answered 500 after writing another record, a GET misses a
      record that is present throughout, a DELETE removes a record nobody
      named, and of two DELETEs of one id the second is answered 500.  What
      survives every interleaving is proved with [wp]: each stored record
      keeps the constraints of validation.  Threads that only read are
      safe: when all requests are GETs the list is never changed, and each
      thread answers as [handle] whatever the interleaving, within
      [fuel_for] steps of its own ([read_only], [threads_reads_safe]).
      One writer among readers is safe as well: its thread answers as
      [handle] and leaves the list [handle] leaves
      ([threads_writer_safe]), though a reader beside it can be answered
      wrongly; the registry is broken only by two writers.
    - Server ([Server]): the process never sends a server error, however
      long it runs; fed finitely many requests it sends the replies of
      [serve_raw] from the seed, in order; with several connections on the
      event loop, the replies of a complete run are those of the
      single-connection tree for some order of arrival.

    ** Bounds and assumptions

    The monadic model has no fuel except in [follow], the client that
    follows redirections; one unit is proved enough for every route table.
    The step-by-step model is run with fuel: [exec fuel] makes [fuel]
    steps, and [fuel_for n = 5 * n + 12] steps are proved enough for any
    request on a registry of [n] records (a round of a loop takes at most
    five steps, validation and the response a constant); more fuel changes
    nothing, since a program that has ended steps to itself.  [run_slice]
    and [event_loop] take the fuel of one slice; the relation [loop_step]
    they compute has none.  [feed] needs [3 * length raws + 1] nodes of
    the tree, three for each request.  [Load], the read of the whole list
    by [get_all_courses] and by the encoder of its response, is one step:
    on the event loop the response is built in the slice of the handler,
    on threads the encoder could see the list change under it, which the
    model does not show.  Paths
    are matched by segments, which is the regular expression of the routing
    library for templates whose parameters fill whole segments, as all
    seven do.  The theorems about integer parameters hold for every parser
    with the two laws of [IntParserLaws] (the decimal text of an integer
    parses to it; text without a digit does not parse).

    ** Not modelled

    Every line of [src/main.py] but the imports (lines 1-4) is modelled;
    what is left out is behaviour of the libraries it calls.  JSON text and
    pydantic's coercion of values of another class to [int] and [str] (a
    body carries typed values, a dictionary is read only when its values
    have the annotated classes): which values pydantic coerces is decided
    by the library's code and not by anything the source or its
    specification says, so a model of it could not be compared with
    either.  Also percent-decoding of paths and
    the parsing of the query string into parameters, mounted applications
    and [root_path], the content of the OpenAPI schema and of the
    documentation pages, the layout of validation error bodies.  Of the
    server: sockets and the parsing of HTTP messages, the lifespan protocol,
    several worker processes (each would own a list).  Of the threaded
    host: the interleaving of the response encoder with other threads, and
    the remedy the specification suggests (a lock around each mutation),
    which the source does not have.

    ** Left open

    Threads are safe with at most one writer; with two writers the runs
    that break the registry are exhibited, not classified: which
    interleavings of two given writes are serial is not decided in
    general.  On the heap the list object itself is not an
    object with an identity: that [get_all_courses] returns [courses_db]
    and not a copy matters only to code that would keep the returned
    reference, and the framework encodes it at once. *)

From stdpp Require Export base tactics option list sorting numbers strings.

#[local] Set Warnings "-clear-no-such-hyp".

(** * A state-and-exception monad

    The handlers of [src/main.py] read and mutate one module-level list and
    may raise.  A computation is a function from the current state to an
    outcome (an exception or a value) and the state left behind: whatever was
    mutated before an exception stays mutated, as in Python. *)

Definition StateErr (S E A : Type) : Type := S → (E + A) * S.

Definition run {S E A} (m : StateErr S E A) (s : S) : (E + A) * S := m s.

#[export] Instance stateerr_ret {S E} : MRet (StateErr S E) :=
  λ A x s, (inr x, s).

#[export] Instance stateerr_bind {S E} : MBind (StateErr S E) :=
  λ A B f m s,
    match m s with
    | (inl e, s') => (inl e, s')
    | (inr x, s') => f x s'
    end.

Definition raise {S E A} (e : E) : StateErr S E A := λ s, (inl e, s).

Definition get {S E} : StateErr S E S := λ s, (inr s, s).

Definition put {S E} (s' : S) : StateErr S E unit := λ _, (inr tt, s').

(** Lift a fallible read of the state, and a fallible update of it that also
    yields a value. *)
Definition reads {S E A} (f : S → E + A) : StateErr S E A :=
  λ s, (f s, s).

Definition updates {S E A} (f : S → E + A * S) : StateErr S E A :=
  λ s, match f s with
       | inl e => (inl e, s)
       | inr (x, s') => (inr x, s')
       end.

(** * Automation

    [registry] collects the resolution hints of the development, [run] the
    equations that run a computation. *)

Create HintDb registry discriminated.
Create Rewrite HintDb run.

(** Runs a computation as far as the equations of the [run] base go: each
    bind whose first part has a known outcome is reduced to its second. *)
Ltac run_simpl :=
  repeat (progress (autorewrite with run; cbv beta iota)).

(** * Running the monad *)

Section run_laws.
Context {S E : Type}.
Implicit Types s : S.

Lemma run_ret {A} (x : A) s : run (mret x : StateErr S E A) s = (inr x, s).
Proof. done. Qed.

Lemma run_bind {A B} (m : StateErr S E A) (f : A → StateErr S E B) s :
  run (m ≫= f) s =
  match run m s with
  | (inl e, s') => (inl e, s')
  | (inr x, s') => run (f x) s'
  end.
Proof. done. Qed.

Lemma run_bind_ok {A B} (m : StateErr S E A) (f : A → StateErr S E B) s x s' :
  run m s = (inr x, s') → run (m ≫= f) s = run (f x) s'.
Proof. rewrite run_bind. by intros ->. Qed.

Lemma run_bind_err {A B} (m : StateErr S E A) (f : A → StateErr S E B) s e s' :
  run m s = (inl e, s') → run (m ≫= f) s = (inl e, s').
Proof. rewrite run_bind. by intros ->. Qed.

Lemma run_raise {A} (e : E) s : run (raise e : StateErr S E A) s = (inl e, s).
Proof. done. Qed.

Lemma run_get s : run (get : StateErr S E S) s = (inr s, s).
Proof. done. Qed.

Lemma run_put s s' : run (put s' : StateErr S E unit) s = (inr tt, s').
Proof. done. Qed.

Lemma run_reads {A} (f : S → E + A) s : run (reads f) s = (f s, s).
Proof. done. Qed.

Lemma run_updates_ok {A} (f : S → E + A * S) s x s' :
  f s = inr (x, s') → run (updates f) s = (inr x, s').
Proof. unfold run, updates. by intros ->. Qed.

Lemma run_updates_err {A} (f : S → E + A * S) s e :
  f s = inl e → run (updates f) s = (inl e, s).
Proof. unfold run, updates. by intros ->. Qed.

(** The monad laws, pointwise on the initial state. *)
Lemma bind_ret_l {A B} (x : A) (f : A → StateErr S E B) s :
  run (mret x ≫= f) s = run (f x) s.
Proof. done. Qed.

Lemma bind_ret_r {A} (m : StateErr S E A) s : run (m ≫= mret) s = run m s.
Proof. rewrite run_bind. by destruct (run m s) as [[e|x] s']. Qed.

Lemma bind_assoc {A B C} (m : StateErr S E A)
    (f : A → StateErr S E B) (g : B → StateErr S E C) s :
  run ((m ≫= f) ≫= g) s = run (m ≫= (λ x, f x ≫= g)) s.
Proof. rewrite !run_bind. by destruct (run m s) as [[e|x] s']. Qed.

End run_laws.

#[export] Hint Rewrite @run_ret @run_bind @run_raise @run_get @run_put
  @run_reads : run.

(** * Lists: facts the components share *)

Section list_facts.
Context {A : Type}.
Implicit Types (l : list A) (x y : A).

Lemma list_insert_middle l1 l2 x y :
  <[length l1 := y]> (l1 ++ x :: l2) = l1 ++ y :: l2.
Proof.
  rewrite <- (Nat.add_0_r (length l1)) at 1. by rewrite insert_app_r.
Qed.

Lemma mapM_None {B} (f : A → option B) l :
  mapM f l = None ↔ Exists (λ x, f x = None) l.
Proof.
  induction l as [|x l IH]; [by rewrite Exists_nil|].
  rewrite Exists_cons, <- IH. cbn.
  destruct (f x); [|naive_solver]. cbn. destruct (mapM f l); naive_solver.
Qed.

Lemma Forall_sublist (P : A → Prop) l1 l2 :
  l1 `sublist_of` l2 → Forall P l2 → Forall P l1.
Proof.
  intros Hsub. rewrite !Forall_forall. intros H x Hx.
  by apply H, (sublist_subseteq _ _ Hsub).
Qed.

Lemma sublist_omap {B} (f : A → option B) l1 l2 :
  l1 `sublist_of` l2 → omap f l1 `sublist_of` omap f l2.
Proof.
  induction 1 as [|x l1 l2 _ IH|x l1 l2 _ IH]; simpl; [done|..];
    destruct (f x); by try constructor.
Qed.

End list_facts.

(** * A service on a state

    A service answers requests one after the other: [serve_by h] runs the
    handler [h] on each request and threads the state through. *)
Fixpoint serve_by {S Req Resp} (h : Req → S → Resp * S) (reqs : list Req)
    (s : S) : list Resp * S :=
  match reqs with
  | [] => ([], s)
  | req :: reqs' =>
      ((h req s).1 :: (serve_by h reqs' (h req s).2).1,
       (serve_by h reqs' (h req s).2).2)
  end.

Section serve_by.
Context {S Req Resp : Type} (h : Req → S → Resp * S).
Implicit Types (reqs : list Req) (s : S).

Lemma length_serve_by reqs s : length (serve_by h reqs s).1 = length reqs.
Proof.
  revert s. induction reqs as [|req reqs IH]; intros s; [done|].
  cbn. by rewrite IH.
Qed.

Lemma serve_by_app reqs1 reqs2 s :
  serve_by h (reqs1 ++ reqs2) s =
  ((serve_by h reqs1 s).1 ++ (serve_by h reqs2 (serve_by h reqs1 s).2).1,
   (serve_by h reqs2 (serve_by h reqs1 s).2).2).
Proof.
  revert s. induction reqs1 as [|req reqs1 IH]; intros s.
  - cbn. by destruct (serve_by h reqs2 s).
  - cbn. by rewrite IH.
Qed.

End serve_by.

(** Two services whose handlers keep a relation between their states keep
    it along every sequence of requests, with related answers. *)
Lemma serve_by_simulation {S T Req Resp Resp'}
    (h : Req → S → Resp * S) (h' : Req → T → Resp' * T)
    (R : S → T → Prop) (Q : Resp → Resp' → Prop) :
  (∀ req s t, R s t → Q (h req s).1 (h' req t).1 ∧ R (h req s).2 (h' req t).2) →
  ∀ reqs s t, R s t →
    Forall2 Q (serve_by h reqs s).1 (serve_by h' reqs t).1 ∧
    R (serve_by h reqs s).2 (serve_by h' reqs t).2.
Proof.
  intros Hstep reqs. induction reqs as [|req reqs IH]; intros s t HR.
  { by split; [constructor|]. }
  destruct (Hstep req s t HR) as [HQ HR'].
  destruct (IH _ _ HR') as [HQs HRs]. by split; [constructor|].
Qed.

(** A property of the numbers below a bound is checked on their list. *)
Lemma Nat_forall_lt (bound : nat) (P : nat → Prop) :
  Forall P (seq 0 bound) → ∀ n, (n < bound)%nat → P n.
Proof.
  intros HP n Hn. apply (proj1 (Forall_forall _ _) HP), elem_of_seq. lia.
Qed.

Lemma sum_list_insert (l : list nat) i x y :
  l !! i = Some x → (sum_list (<[i := y]> l) + x = sum_list l + y)%nat.
Proof.
  revert i. induction l as [|z l IH]; intros [|i] Hi; simplify_eq/=; [lia|].
  specialize (IH i Hi). lia.
Qed.

(** * Sorted lists *)

Section sorted_facts.
Context {A : Type} (R : relation A).
Implicit Types (l : list A) (x y : A).

Lemma StronglySorted_sublist l1 l2 :
  l1 `sublist_of` l2 → StronglySorted R l2 → StronglySorted R l1.
Proof.
  induction 1 as [|x l1 l2 Hsub IH|x l1 l2 Hsub IH];
    rewrite ?StronglySorted_cons; [done|..]; intros [Hx Hl2].
  - split; [by eapply Forall_sublist | by apply IH].
  - by apply IH.
Qed.

Lemma StronglySorted_snoc l x :
  StronglySorted R (l ++ [x]) ↔ StronglySorted R l ∧ Forall (λ y, R y x) l.
Proof.
  rewrite StronglySorted_app. split.
  - intros (Hlt & Hl & _). split; [done|].
    apply Forall_forall. intros y Hy.
    apply Hlt; [done | by apply list_elem_of_singleton].
  - intros [Hl Hlt]. split_and!; [|done|repeat constructor].
    intros y z Hy ->%list_elem_of_singleton.
    by eapply Forall_forall in Hlt.
Qed.

Lemma StronglySorted_irrefl_NoDup `{!Irreflexive R} l :
  StronglySorted R l → NoDup l.
Proof.
  induction 1 as [|x l _ IH Hx]; constructor; [|done].
  intros Hin. eapply Forall_forall in Hx; [|done]. by eapply irreflexivity.
Qed.

(** The last element of a sorted list is above every other. *)
Lemma StronglySorted_last l x y :
  StronglySorted R l → last l = Some y → x ∈ l → x = y ∨ R x y.
Proof.
  intros Hl [l' ->]%last_Some Hx.
  apply StronglySorted_snoc in Hl as [_ Hlt].
  apply elem_of_app in Hx as [Hx|Hx%list_elem_of_singleton]; [|by left].
  right. by eapply Forall_forall in Hlt.
Qed.

End sorted_facts.
