(* ===== verification/Python.v ===== *)
(** * Python values and built-ins used by src/main.py

    The handlers call a handful of built-ins on the module-level list:
    indexing [l[i]] (with Python's negative indices), item assignment
    [l[i] = x], [l.pop(i)], [l.append(x)], [len(l)], [range(n)], and [+] on
    an attribute that may be [None].  This file gives each the behaviour the
    language reference describes, exceptions included, and the lemmas the
    handlers' proofs need about them.  Integers are unbounded ([Z]); a [str]
    is its sequence of code points, so that [len] counts characters the way
    Python does. *)

From S2P Require Import Prelude.

Local Open Scope Z_scope.

(** ** Exceptions *)

(** The exceptions a handler can end with: the two built-in ones the list
    and integer operations can raise, and FastAPI's [HTTPException]. *)
Inductive Exn :=
| IndexError
| TypeError
| HTTPException (status_code : Z) (detail : string).

#[export] Instance Exn_eq_dec : EqDecision Exn.
Proof. solve_decision. Defined.

(** ** Strings *)

Abbreviation str := (list N).

(** The [str] of an ASCII literal. *)
Definition str_of (s : string) : str :=
  Ascii.N_of_ascii <$> String.list_ascii_of_string s.

(** ** Lists *)

Section pylist.
Context {A : Type}.
Implicit Types (l : list A) (i : Z) (x : A).

Definition len l : Z := Z.of_nat (length l).

(** The position a Python index denotes: [i] itself when [0 <= i < len l],
    [len l + i] when [-len l <= i < 0], none otherwise. *)
Definition index_of l i : option nat :=
  if bool_decide (0 ≤ i < len l) then Some (Z.to_nat i)
  else if bool_decide (- len l ≤ i < 0) then Some (Z.to_nat (len l + i))
  else None.

(** [l[i]] *)
Definition getitem l i : Exn + A :=
  match index_of l i ≫= (l !!.) with
  | Some x => inr x
  | None => inl IndexError
  end.

(** [l[i] = x] *)
Definition setitem l i x : Exn + list A :=
  match index_of l i with
  | Some n => inr (<[n := x]> l)
  | None => inl IndexError
  end.

(** [l.pop(i)]: the removed item and the list without it. *)
Definition pop l i : Exn + A * list A :=
  match index_of l i with
  | Some n =>
      match l !! n with
      | Some x => inr (x, delete n l)
      | None => inl IndexError
      end
  | None => inl IndexError
  end.

(** [l.append(x)] *)
Definition append l x : list A := l ++ [x].

End pylist.

(** [range(n)]: the integers [0 .. n-1], empty when [n <= 0]. *)
Definition range (n : Z) : list Z := Z.of_nat <$> seq 0 (Z.to_nat n).

(** [v + k] where [v] is an attribute that holds an [int] or [None]:
    [None + k] raises [TypeError]. *)
Definition add (v : option Z) (k : Z) : Exn + Z :=
  match v with
  | Some n => inr (n + k)
  | None => inl TypeError
  end.

(** ** Facts about the built-ins *)

Section pylist_facts.
Context {A : Type}.
Implicit Types (l : list A) (i : Z) (n : nat) (x : A).

Lemma len_nonneg l : 0 ≤ len l.
Proof. unfold len. lia. Qed.

Lemma len_app l1 l2 : len (l1 ++ l2) = len l1 + len l2.
Proof. unfold len. rewrite length_app. lia. Qed.

Lemma len_nil_iff l : len l = 0 ↔ l = [].
Proof. unfold len. destruct l; simpl; split; (done || lia). Qed.

Lemma index_of_nat l n :
  (n < length l)%nat → index_of l (Z.of_nat n) = Some n.
Proof.
  intros Hn. unfold index_of, len.
  rewrite bool_decide_eq_true_2 by lia. by rewrite Nat2Z.id.
Qed.

Lemma index_of_nat_ge l n :
  (length l ≤ n)%nat → index_of l (Z.of_nat n) = None.
Proof.
  intros Hn. unfold index_of, len.
  by rewrite !bool_decide_eq_false_2 by lia.
Qed.

Lemma index_of_last l :
  l ≠ [] → index_of l (-1) = Some (pred (length l)).
Proof.
  intros Hl. unfold index_of, len.
  assert (0 < length l)%nat by (destruct l; [done | simpl; lia]).
  rewrite bool_decide_eq_false_2 by lia.
  rewrite bool_decide_eq_true_2 by lia. f_equal. lia.
Qed.

Lemma index_of_lt l i n : index_of l i = Some n → (n < length l)%nat.
Proof.
  unfold index_of, len.
  repeat case_bool_decide; intros [= <-]; lia.
Qed.

Lemma getitem_nat l n x :
  l !! n = Some x → getitem l (Z.of_nat n) = inr x.
Proof.
  intros Hx. unfold getitem.
  rewrite index_of_nat by eauto using lookup_lt_Some. simpl. by rewrite Hx.
Qed.

Lemma getitem_nat_ge l n :
  (length l ≤ n)%nat → getitem l (Z.of_nat n) = inl IndexError.
Proof. intros Hn. unfold getitem. by rewrite index_of_nat_ge. Qed.

Lemma getitem_last l x : last l = Some x → getitem l (-1) = inr x.
Proof.
  intros Hx. unfold getitem. rewrite index_of_last by (by intros ->). simpl.
  by rewrite <- last_lookup, Hx.
Qed.

Lemma getitem_nil i : getitem (@nil A) i = inl IndexError.
Proof.
  unfold getitem, index_of, len. simpl.
  by rewrite !bool_decide_eq_false_2 by lia.
Qed.

Lemma setitem_nat l n x :
  (n < length l)%nat → setitem l (Z.of_nat n) x = inr (<[n := x]> l).
Proof. intros Hn. unfold setitem. by rewrite index_of_nat. Qed.

Lemma pop_nat l n x :
  l !! n = Some x → pop l (Z.of_nat n) = inr (x, delete n l).
Proof.
  intros Hx. unfold pop.
  rewrite index_of_nat by eauto using lookup_lt_Some. by rewrite Hx.
Qed.

(** Reading, item assignment and [pop] keep what holds of every item. *)
Lemma getitem_Forall (P : A → Prop) l i x :
  getitem l i = inr x → Forall P l → P x.
Proof.
  unfold getitem. destruct (index_of l i) as [n|]; [simpl|done].
  destruct (l !! n) eqn:Hn; [|done]. intros [= <-] Hl.
  by eapply Forall_lookup_1.
Qed.

Lemma setitem_Forall (P : A → Prop) l i x l' :
  setitem l i x = inr l' → P x → Forall P l → Forall P l'.
Proof.
  unfold setitem. destruct (index_of l i) as [n|]; [|done].
  intros [= <-] Hx Hl. by apply Forall_insert.
Qed.

Lemma pop_Forall (P : A → Prop) l i x l' :
  pop l i = inr (x, l') → Forall P l → Forall P l'.
Proof.
  unfold pop. destruct (index_of l i) as [n|]; [|done].
  destruct (l !! n); [|done]. intros [= <- <-] Hl. by apply Forall_delete.
Qed.

Lemma pop_Forall_item (P : A → Prop) l i x l' :
  pop l i = inr (x, l') → Forall P l → P x.
Proof.
  unfold pop. destruct (index_of l i) as [n|]; [|done].
  destruct (l !! n) eqn:Hn; [|done]. intros [= <- <-] Hl.
  by eapply Forall_lookup_1.
Qed.

Lemma range_len l : range (len l) = Z.of_nat <$> seq 0 (length l).
Proof. unfold range, len. by rewrite Nat2Z.id. Qed.

Lemma range_nonpos (n : Z) : n ≤ 0 → range n = [].
Proof. intros Hn. unfold range. by replace (Z.to_nat n) with 0%nat by lia. Qed.

Lemma length_range (n : Z) : length (range n) = Z.to_nat n.
Proof. unfold range. by rewrite length_fmap, length_seq. Qed.

End pylist_facts.

#[export] Hint Resolve len_nonneg : registry.
