(* ===== verification/Course.v ===== *)
(** * The data of src/main.py: the two classes and the seed registry

    [Course] is the plain class of lines 9-21, [CourseRequest] the pydantic
    model of lines 24-29 (its field constraints are in [Validation]).  The
    module-level list [courses_db] starts with six [Course] objects, and
    [update_course] later stores [CourseRequest] objects in it, so an item of
    the list is either; the handlers read [.id], [.rating] and
    [.published_date] from whichever it is.  That duck typing is the class
    [Attrs]. *)

From S2P Require Import Prelude Python.

Local Open Scope Z_scope.

(** ** class Course

    [__init__] stores its five arguments unchecked: the annotation says
    [id: int], but [create_course] builds a [Course] from the request's
    dump, whose [id] is [None] when the client sent none. *)
Record Course := mkCourse {
  Course_id : option Z;
  Course_title : str;
  Course_instructor : str;
  Course_rating : Z;
  Course_published_date : Z
}.

(** ** class CourseRequest(BaseModel) *)
Record CourseRequest := mkCourseRequest {
  CourseRequest_id : option Z;
  CourseRequest_title : str;
  CourseRequest_instructor : str;
  CourseRequest_rating : Z;
  CourseRequest_published_date : Z
}.

(** ** Items of [courses_db] *)
Inductive Entry :=
| ACourse (c : Course)
| ARequest (r : CourseRequest).

#[export] Instance Course_eq_dec : EqDecision Course.
Proof. solve_decision. Defined.

#[export] Instance CourseRequest_eq_dec : EqDecision CourseRequest.
Proof. solve_decision. Defined.

#[export] Instance Entry_eq_dec : EqDecision Entry.
Proof. solve_decision. Defined.

(** ** Attribute access *)

(** The five attributes every object of the program has, under the names
    the source reads them by. *)
Class Attrs (T : Type) := {
  id : T → option Z;
  title : T → str;
  instructor : T → str;
  rating : T → Z;
  published_date : T → Z
}.

#[export] Instance Course_attrs : Attrs Course := {|
  id := Course_id;
  title := Course_title;
  instructor := Course_instructor;
  rating := Course_rating;
  published_date := Course_published_date
|}.

#[export] Instance CourseRequest_attrs : Attrs CourseRequest := {|
  id := CourseRequest_id;
  title := CourseRequest_title;
  instructor := CourseRequest_instructor;
  rating := CourseRequest_rating;
  published_date := CourseRequest_published_date
|}.

Definition Entry_attr {V} (f : Course → V) (g : CourseRequest → V)
    (e : Entry) : V :=
  match e with
  | ACourse c => f c
  | ARequest r => g r
  end.

#[export] Instance Entry_attrs : Attrs Entry := {|
  id := Entry_attr id id;
  title := Entry_attr title title;
  instructor := Entry_attr instructor instructor;
  rating := Entry_attr rating rating;
  published_date := Entry_attr published_date published_date
|}.

(** The accessors are kept folded by [simpl] and [cbn]: statements speak of
    [id e], and the equations below open an access on a known object. *)
#[global] Arguments id : simpl never.
#[global] Arguments title : simpl never.
#[global] Arguments instructor : simpl never.
#[global] Arguments rating : simpl never.
#[global] Arguments published_date : simpl never.

(** The [Course] that line 86 builds from [course_request.model_dump()]: the
    dump has exactly the five fields, passed to [__init__] by keyword. *)
Definition Course_of_dump (course_request : CourseRequest) : Course :=
  mkCourse (id course_request) (title course_request)
    (instructor course_request) (rating course_request)
    (published_date course_request).

(** [course.id = v] *)
Definition set_id (course : Course) (v : Z) : Course :=
  mkCourse (Some v) (title course) (instructor course) (rating course)
    (published_date course).

(** ** The seed registry (lines 43-50)

    The instructor of the first and third course is spelled with U+0131
    (dotless i), one code point. *)
Definition courses_db : list Entry := [
  ACourse (mkCourse (Some 1) (str_of "Python") [65; 116; 305; 108]%N 5 2029);
  ACourse (mkCourse (Some 2) (str_of "Kotlin") (str_of "Ufuk") 5 2026);
  ACourse (mkCourse (Some 3) (str_of "Jenkins") [65; 116; 305; 108]%N 4 2023);
  ACourse (mkCourse (Some 4) (str_of "Machine Learning") (str_of "Senem") 5 2029);
  ACourse (mkCourse (Some 5) (str_of "Deep Learning") (str_of "Kaya") 3 2015);
  ACourse (mkCourse (Some 6) (str_of "Java") (str_of "Kaan") 2 2039)
].

(** ** Derived views of a registry *)

(** The integer ids of the items, in list order (an item whose id is [None]
    contributes nothing). *)
Definition ids (db : list Entry) : list Z := omap id db.

(** ** Basic facts *)

Lemma id_ACourse c : id (ACourse c) = id c.
Proof. done. Qed.

Lemma id_ARequest r : id (ARequest r) = id r.
Proof. done. Qed.

Lemma id_Course_of_dump r : id (Course_of_dump r) = id r.
Proof. done. Qed.

Lemma id_set_id c v : id (set_id c v) = Some v.
Proof. done. Qed.

Lemma rating_set_id c v : rating (set_id c v) = rating c.
Proof. done. Qed.

Lemma ids_app db1 db2 : ids (db1 ++ db2) = ids db1 ++ ids db2.
Proof. apply omap_app. Qed.

Lemma ids_cons_Some e db k : id e = Some k → ids (e :: db) = k :: ids db.
Proof. unfold ids. cbn [omap list_omap]. by intros ->. Qed.

Lemma ids_seed : ids courses_db = [1; 2; 3; 4; 5; 6].
Proof. reflexivity. Qed.
