(* ===== verification/Validation.v ===== *)
(** * Request validation: the constraints main.py declares

    FastAPI validates a request before the handler runs: the body of
    [create_course] and [update_course] against the [Field(...)] declarations
    of [CourseRequest] (lines 25-29), the path and query parameters against
    their [Path(...)] and [Query(...)] declarations (lines 59, 67, 76, 107).
    A declaration is kept here as the list of keyword arguments the source
    writes, and [check_int] and [check_str] give the keywords the meaning
    pydantic gives them: [gt], [lt], [ge], [le], [min_length] and
    [max_length] constrain the value, [description] and [default] do not, and
    a keyword pydantic does not know (the source writes [gte] and [lte]) is
    kept as schema metadata and constrains nothing. *)

From S2P Require Import Prelude Python Course.

#[local] Set Warnings "-clear-no-such-hyp".


Local Open Scope Z_scope.

(** ** Keyword arguments of Field, Path and Query *)

Module Field.

Inductive Arg :=
| description (text : string)
| default_None
| min_length (n : Z)
| max_length (n : Z)
| gt (n : Z)
| lt (n : Z)
| ge (n : Z)
| le (n : Z)
| extra (key : string) (value : Z).

End Field.

(** What one keyword demands of an integer value, and of a string. *)
Definition int_ok (v : Z) (a : Field.Arg) : bool :=
  match a with
  | Field.gt n => bool_decide (n < v)
  | Field.lt n => bool_decide (v < n)
  | Field.ge n => bool_decide (n ≤ v)
  | Field.le n => bool_decide (v ≤ n)
  | _ => true
  end.

Definition str_ok (s : str) (a : Field.Arg) : bool :=
  match a with
  | Field.min_length n => bool_decide (n ≤ len s)
  | Field.max_length n => bool_decide (len s ≤ n)
  | _ => true
  end.

Definition check_int (args : list Field.Arg) (v : Z) : bool :=
  forallb (int_ok v) args.

Definition check_str (args : list Field.Arg) (s : str) : bool :=
  forallb (str_ok s) args.

(** ** The declarations of the source *)

(** Lines 25-29: the fields of [CourseRequest]. *)
Definition id_field : list Field.Arg :=
  [Field.description "The id of the course is optional"; Field.default_None].
Definition title_field : list Field.Arg :=
  [Field.min_length 3; Field.description "The title of the course"].
Definition instructor_field : list Field.Arg :=
  [Field.min_length 3; Field.max_length 100].
Definition rating_field : list Field.Arg :=
  [Field.gt 0; Field.lt 6].
Definition published_date_field : list Field.Arg :=
  [Field.extra "gte" 1990; Field.extra "lte" 2050].

(** Lines 59 and 107: [course_id: int = Path(gt=0)]. *)
Definition course_id_path : list Field.Arg := [Field.gt 0].
(** Line 67: [course_rating: int = Query(gt=0, lt=6)]. *)
Definition course_rating_query : list Field.Arg := [Field.gt 0; Field.lt 6].
(** Line 76: [publish_date: int = Query(gt=2005, lt=2040)]. *)
Definition publish_date_query : list Field.Arg :=
  [Field.gt 2005; Field.lt 2040].

(** The range the specification states for [published_date] (section 3:
    between 1990 and 2050 inclusive), written with the keywords that
    enforce it. *)
Definition published_date_intended : list Field.Arg :=
  [Field.ge 1990; Field.le 2050].

(** ** Validating a body *)

(** The fields of a body that fail, in declaration order; the body is
    accepted when there is none.  [id] has no constraint. *)
Definition validate_with (date_field : list Field.Arg)
    (body : CourseRequest) : list string :=
  (if check_str title_field (title body) then [] else ["title"]) ++
  (if check_str instructor_field (instructor body) then []
   else ["instructor"]) ++
  (if check_int rating_field (rating body) then [] else ["rating"]) ++
  (if check_int date_field (published_date body) then []
   else ["published_date"]).

Definition validate : CourseRequest → list string :=
  validate_with published_date_field.

(** The validation the specification describes. *)
Definition validate_intended : CourseRequest → list string :=
  validate_with published_date_intended.

(** The constraints a body that passed validation is known to meet, stated
    for any object with the five attributes. *)
Definition valid_fields `{Attrs T} (x : T) : Prop :=
  3 ≤ len (title x) ∧
  3 ≤ len (instructor x) ≤ 100 ∧
  1 ≤ rating x ≤ 5.

#[export] Instance valid_fields_dec `{Attrs T} (x : T) :
  Decision (valid_fields x).
Proof. unfold valid_fields. apply _. Defined.

(** ** What each declaration accepts *)

(** Turns a [check_int] or [check_str] of a literal declaration into the
    arithmetic it stands for. *)
Ltac check_to_arith :=
  unfold check_int, check_str; cbn [forallb int_ok str_ok];
  cbn [andb]; rewrite ?andb_true_r, ?andb_true_iff, ?bool_decide_eq_true.

Lemma check_rating v : check_int rating_field v = true ↔ 1 ≤ v ≤ 5.
Proof. unfold rating_field. check_to_arith. lia. Qed.

Lemma check_course_rating_query v :
  check_int course_rating_query v = true ↔ 1 ≤ v ≤ 5.
Proof. unfold course_rating_query. check_to_arith. lia. Qed.

Lemma check_publish_date_query v :
  check_int publish_date_query v = true ↔ 2006 ≤ v ≤ 2039.
Proof. unfold publish_date_query. check_to_arith. lia. Qed.

Lemma check_course_id_path v : check_int course_id_path v = true ↔ 1 ≤ v.
Proof. unfold course_id_path. check_to_arith. lia. Qed.

Lemma check_title s : check_str title_field s = true ↔ 3 ≤ len s.
Proof. unfold title_field. check_to_arith. lia. Qed.

Lemma check_instructor s :
  check_str instructor_field s = true ↔ 3 ≤ len s ≤ 100.
Proof. unfold instructor_field. check_to_arith. lia. Qed.

Lemma check_published_date_intended v :
  check_int published_date_intended v = true ↔ 1990 ≤ v ≤ 2050.
Proof. unfold published_date_intended. check_to_arith. lia. Qed.

(** The declaration of [published_date] constrains nothing: [gte] and
    [lte] are not constraint keywords, so every integer passes. *)
Lemma check_published_date_any v : check_int published_date_field v = true.
Proof. unfold published_date_field. by check_to_arith. Qed.

(** A field list is empty exactly when each of its checks passed. *)
Lemma validate_with_nil date_field body :
  validate_with date_field body = [] ↔
    check_str title_field (title body) = true ∧
    check_str instructor_field (instructor body) = true ∧
    check_int rating_field (rating body) = true ∧
    check_int date_field (published_date body) = true.
Proof.
  unfold validate_with.
  destruct (check_str title_field _), (check_str instructor_field _),
    (check_int rating_field _), (check_int date_field _); naive_solver.
Qed.

Lemma validate_ok_iff body : validate body = [] ↔ valid_fields body.
Proof.
  unfold validate, valid_fields.
  rewrite validate_with_nil, check_title, check_instructor, check_rating.
  pose proof (check_published_date_any (published_date body)). naive_solver.
Qed.

Lemma validate_intended_ok_iff body :
  validate_intended body = [] ↔
    valid_fields body ∧ 1990 ≤ published_date body ≤ 2050.
Proof.
  unfold validate_intended, valid_fields.
  rewrite validate_with_nil, check_title, check_instructor, check_rating,
    check_published_date_intended. naive_solver.
Qed.

Lemma validate_intended_sound body :
  validate_intended body = [] → validate body = [].
Proof. rewrite validate_intended_ok_iff, validate_ok_iff. naive_solver. Qed.

(** * Properties of the validation *)

Section validation.
Implicit Types (body : CourseRequest).

Lemma elem_of_if_singleton (b : bool) (x y : string) :
  x ∈ (if b then [] else [y]) ↔ b = false ∧ x = y.
Proof.
  destruct b; [rewrite elem_of_nil|rewrite list_elem_of_singleton];
    naive_solver.
Qed.

(** C35: the errors of a body name exactly the fields that break their
    declared constraint: the title when shorter than 3 characters, the
    instructor when not of 3 to 100 characters, the rating when not from 1
    to 5, and never the published date; the body is accepted when no field
    is named. *)
Theorem validate_errors body :
  ("title" ∈ validate body ↔ len (title body) < 3) ∧
  ("instructor" ∈ validate body ↔ ¬ (3 ≤ len (instructor body) ≤ 100)) ∧
  ("rating" ∈ validate body ↔ ¬ (1 ≤ rating body ≤ 5)) ∧
  ("published_date" ∉ validate body) ∧
  (validate body = [] ↔ valid_fields body).
Proof.
  pose proof (check_title (title body)).
  pose proof (check_instructor (instructor body)).
  pose proof (check_rating (rating body)).
  pose proof (check_published_date_any (published_date body)).
  split_and!; [..|apply validate_ok_iff]; unfold validate, validate_with;
    rewrite !elem_of_app, !elem_of_if_singleton, ?not_true_iff_false in *;
    destruct (check_str title_field _), (check_str instructor_field _),
      (check_int rating_field _);
    naive_solver lia.
Qed.

(** The validation of the source differs from the one the
    specification describes in the published date only: the intended
    validation reports what the source's does, and the published date too
    when it lies outside 1990 to 2050, which the source's never reports. *)
Lemma validate_intended_differs body :
  validate_intended body =
  validate body ++
  (if bool_decide (1990 ≤ published_date body ≤ 2050) then []
   else ["published_date"]).
Proof.
  unfold validate_intended, validate, validate_with.
  rewrite check_published_date_any, app_nil_r, <- !app_assoc. do 3 f_equal.
  case_bool_decide as Hd.
  - by rewrite (proj2 (check_published_date_intended _) Hd).
  - destruct (check_int published_date_intended _) eqn:Hc; [|done].
    by apply check_published_date_intended in Hc.
Qed.

(** The boundary values of the specification: ratings 0 and 6 are
    rejected, 1 and 5 accepted; the years 1989 and 2051 are accepted,
    against the range the specification states. *)
Example validate_boundaries :
  let body r d := mkCourseRequest None (str_of "Java") (str_of "Kaan") r d in
  validate (body 0 2025) = ["rating"] ∧ validate (body 6 2025) = ["rating"] ∧
  validate (body 1 2025) = [] ∧ validate (body 5 2025) = [] ∧
  validate (body 5 1989) = [] ∧ validate (body 5 2051) = [] ∧
  validate_intended (body 5 1989) = ["published_date"] ∧
  validate_intended (body 5 1990) = [] ∧
  validate_intended (body 5 2050) = [] ∧
  validate_intended (body 5 2051) = ["published_date"].
Proof. vm_compute. by repeat split. Qed.

End validation.
