(* ===== verification/Registry.v ===== *)
(** * The course registry: the handlers of src/main.py and what they compute

    The first part holds one definition per function of the source, in the
    state-and-exception monad over the module-level list [courses_db].  A
    [for x in courses_db] loop is a recursion over the items; a
    [for i in range(len(courses_db))] loop is a recursion over the integers
    [range] produced when the loop started, and reads and writes the list
    through Python's indexing, so an index out of range is an [IndexError]
    of the model as it is of the program.  [return] inside a loop and
    [break] end the recursion.

    The second part holds the reference definitions, written without
    indices, loops or exceptions raised midway: [overwrite] for the update
    loop, [remove_first] for the delete loop, [filter] for the two
    collecting loops, [list_find] for the lookup loop, [next_id] for the id
    assignment.  The theorems show each handler equal to its reference on
    every registry; the equations give the outcome and the registry left
    behind together, so they also say that the index loops never leave the
    list's bounds and always end. *)

From S2P Require Import Prelude Python Course.

#[local] Set Warnings "-clear-no-such-hyp".

Local Open Scope Z_scope.

(** * The handlers *)

Abbreviation Handler := (StateErr (list Entry) Exn).

(** ** The operations on [courses_db] the handlers use *)

(** [len(courses_db)] *)
Definition db_len : Handler Z := reads (λ db, inr (len db)).

(** [courses_db[i]] *)
Definition db_getitem (i : Z) : Handler Entry := reads (λ db, getitem db i).

(** [courses_db[i] = x] *)
Definition db_setitem (i : Z) (x : Entry) : Handler unit :=
  updates (λ db,
    match setitem db i x with
    | inl e => inl e
    | inr db' => inr (tt, db')
    end).

(** [courses_db.pop(i)] *)
Definition db_pop (i : Z) : Handler Entry := updates (λ db, pop db i).

(** [courses_db.append(x)] *)
Definition db_append (x : Entry) : Handler unit :=
  updates (λ db, inr (tt, append db x)).

(** [raise HTTPException(status_code=status.HTTP_404_NOT_FOUND,
    detail="Course not found")] *)
Definition not_found : Exn := HTTPException 404 "Course not found".

(** ** get_all_courses (lines 53-55) *)
Definition get_all_courses : Handler (list Entry) := get.

(** ** get_course (lines 58-63) *)

(** The loop returns the first course whose id equals [course_id]. *)
Fixpoint get_course_loop (course_id : Z) (courses : list Entry)
    : option Entry :=
  match courses with
  | [] => None
  | course :: rest =>
      if bool_decide (id course = Some course_id) then Some course
      else get_course_loop course_id rest
  end.

Definition get_course (course_id : Z) : Handler Entry :=
  courses ← get;
  match get_course_loop course_id courses with
  | Some course => mret course
  | None => raise not_found
  end.

(** ** get_courses_by_rating and get_courses_by_publish_date (lines 66-81) *)

(** Both loops append to [courses_to_return] the courses that pass a test. *)
Fixpoint collect_loop (test : Entry → bool) (courses : list Entry)
    (courses_to_return : list Entry) : list Entry :=
  match courses with
  | [] => courses_to_return
  | course :: rest =>
      collect_loop test rest
        (if test course then append courses_to_return course
         else courses_to_return)
  end.

Definition get_courses_by_rating (course_rating : Z) : Handler (list Entry) :=
  courses ← get;
  mret (collect_loop (λ course, bool_decide (rating course = course_rating))
          courses []).

Definition get_courses_by_publish_date (publish_date : Z)
    : Handler (list Entry) :=
  courses ← get;
  mret (collect_loop
          (λ course, bool_decide (published_date course = publish_date))
          courses []).

(** ** find_courseID (lines 90-92) *)

(** [course.id = 1 if len(courses_db) == 0 else courses_db[-1].id + 1]; the
    addition raises [TypeError] should the last item's id be [None]. *)
Definition find_courseID (course : Course) : Handler Course :=
  n ← db_len;
  if bool_decide (n = 0) then mret (set_id course 1)
  else
    last_course ← db_getitem (-1);
    v ← reads (λ _, add (id last_course) 1);
    mret (set_id course v).

(** ** create_course (lines 84-87) *)
Definition create_course (course_request : CourseRequest) : Handler unit :=
  let new_course := Course_of_dump course_request in
  course ← find_courseID new_course;
  db_append (ACourse course).

(** ** update_course (lines 95-103) *)

(** The loop body for each [i] of [indices]; it carries [course_updated]
    and does not stop at the first match. *)
Fixpoint update_course_loop (course_request : CourseRequest)
    (indices : list Z) (course_updated : bool) : Handler bool :=
  match indices with
  | [] => mret course_updated
  | i :: rest =>
      course ← db_getitem i;
      if bool_decide (id course = id course_request) then
        db_setitem i (ARequest course_request);;
        update_course_loop course_request rest true
      else update_course_loop course_request rest course_updated
  end.

Definition update_course (course_request : CourseRequest) : Handler unit :=
  n ← db_len;
  update_course_loop course_request (range n) false ≫=
  λ course_updated : bool,
    if course_updated then mret tt else raise not_found.

(** ** delete_course (lines 106-115) *)

(** The loop pops the first match and breaks; its value is
    [course_deleted]. *)
Fixpoint delete_course_loop (course_id : Z) (indices : list Z)
    : Handler bool :=
  match indices with
  | [] => mret false
  | i :: rest =>
      course ← db_getitem i;
      if bool_decide (id course = Some course_id) then
        db_pop i;; (mret true : Handler bool)
      else delete_course_loop course_id rest
  end.

Definition delete_course (course_id : Z) : Handler unit :=
  n ← db_len;
  delete_course_loop course_id (range n) ≫=
  λ course_deleted : bool,
    if course_deleted then mret tt else raise not_found.

(** * Reference definitions *)

(** Some item of the registry has id [k] ([k] may be [None]). *)
Definition present (k : option Z) (db : list Entry) : bool :=
  bool_decide (Exists (λ e, id e = k) db).

(** Every item whose id equals the request's is replaced by the request. *)
Definition overwrite (req : CourseRequest) (db : list Entry) : list Entry :=
  (λ e, if bool_decide (id e = id req) then ARequest req else e) <$> db.

(** The first item whose id is [course_id] is removed. *)
Fixpoint remove_first (course_id : Z) (db : list Entry) : list Entry :=
  match db with
  | [] => []
  | e :: db' =>
      if bool_decide (id e = Some course_id) then db'
      else e :: remove_first course_id db'
  end.

(** The id [find_courseID] assigns: 1 on the empty registry, else the last
    item's id plus one. *)
Definition next_id (db : list Entry) : Exn + Z :=
  match last db with
  | None => inr 1
  | Some e => add (id e) 1
  end.

(** * Theorems *)

(** ** Examples on the seed registry *)

Example get_course_seed_3 :
  fst (run (get_course 3) courses_db) =
  inr (ACourse (mkCourse (Some 3) (str_of "Jenkins") [65; 116; 305; 108]%N
                  4 2023)).
Proof. reflexivity. Qed.

Example delete_then_create_ids :
  ids (snd (run (delete_course 6;; create_course
                   (mkCourseRequest None (str_of "Go") (str_of "Tester")
                      5 2025)) courses_db)) = [1; 2; 3; 4; 5; 6].
Proof. vm_compute. reflexivity. Qed.

Example update_missing_seed :
  run (update_course (mkCourseRequest (Some 9) (str_of "Go")
         (str_of "Tester") 5 2025)) courses_db = (inl not_found, courses_db).
Proof. vm_compute. reflexivity. Qed.

(** ** The operations on [courses_db] at a known position *)

Section db_ops.
Implicit Types (pre suf db : list Entry) (e x : Entry).

Lemma run_db_len db : run db_len db = (inr (len db), db).
Proof. done. Qed.

Lemma run_db_getitem_middle pre e suf :
  run (db_getitem (Z.of_nat (length pre))) (pre ++ e :: suf) =
  (inr e, pre ++ e :: suf).
Proof.
  unfold db_getitem. rewrite run_reads.
  by rewrite (getitem_nat _ _ e) by (by apply list_lookup_middle).
Qed.

Lemma run_db_setitem_middle pre e suf x :
  run (db_setitem (Z.of_nat (length pre)) x) (pre ++ e :: suf) =
  (inr tt, pre ++ x :: suf).
Proof.
  unfold db_setitem. apply run_updates_ok.
  rewrite setitem_nat by (rewrite length_app; simpl; lia).
  by rewrite list_insert_middle.
Qed.

Lemma run_db_pop_middle pre e suf :
  run (db_pop (Z.of_nat (length pre))) (pre ++ e :: suf) =
  (inr e, pre ++ suf).
Proof.
  unfold db_pop. apply run_updates_ok.
  rewrite (pop_nat _ _ e) by (by apply list_lookup_middle).
  by rewrite delete_middle.
Qed.

Lemma run_db_append db x : run (db_append x) db = (inr tt, db ++ [x]).
Proof. done. Qed.

Lemma run_db_getitem_last db e :
  last db = Some e → run (db_getitem (-1)) db = (inr e, db).
Proof.
  intros He. unfold db_getitem. by rewrite run_reads, (getitem_last _ e).
Qed.

End db_ops.

#[export] Hint Rewrite run_db_len run_db_append : run.

(** ** Facts about the reference definitions *)

Section reference_facts.
Implicit Types (db : list Entry) (req : CourseRequest) (k : Z).

Lemma present_nil ko : present ko [] = false.
Proof. unfold present. apply bool_decide_eq_false_2. by inversion 1. Qed.

Lemma present_cons ko e db :
  present ko (e :: db) = bool_decide (id e = ko) || present ko db.
Proof.
  unfold present. rewrite <- bool_decide_or. apply bool_decide_ext.
  apply Exists_cons.
Qed.

Lemma present_true ko db :
  present ko db = true ↔ ∃ e, e ∈ db ∧ id e = ko.
Proof. unfold present. by rewrite bool_decide_eq_true, Exists_exists. Qed.

Lemma present_false ko db :
  present ko db = false ↔ ∀ e, e ∈ db → id e ≠ ko.
Proof.
  unfold present.
  rewrite bool_decide_eq_false, <- Forall_Exists_neg, Forall_forall. done.
Qed.

Lemma present_Some_ids k db : present (Some k) db = true ↔ k ∈ ids db.
Proof.
  rewrite present_true. unfold ids. rewrite list_elem_of_omap. done.
Qed.

Lemma overwrite_length req db : length (overwrite req db) = length db.
Proof. apply length_fmap. Qed.

(** Overwriting keeps every item's id: an item is replaced only by a
    request with the same id. *)
Lemma overwrite_id_fmap req db : id <$> overwrite req db = id <$> db.
Proof.
  unfold overwrite. rewrite <- list_fmap_compose. apply list_fmap_ext.
  intros i e _. simpl. by case_bool_decide.
Qed.

Lemma overwrite_absent req db :
  present (id req) db = false → overwrite req db = db.
Proof.
  rewrite present_false. intros Hno. unfold overwrite.
  rewrite <- (list_fmap_id db) at 2. apply list_fmap_ext.
  intros i e He%list_elem_of_lookup_2. simpl.
  rewrite bool_decide_eq_false_2; [done|]. by apply Hno.
Qed.

Lemma remove_first_absent k db :
  present (Some k) db = false → remove_first k db = db.
Proof.
  induction db as [|e db IH]; [done|].
  rewrite present_cons, orb_false_iff. intros [He Hdb]. cbn [remove_first].
  rewrite He. by rewrite IH.
Qed.

Lemma remove_first_length k db :
  present (Some k) db = true →
  length (remove_first k db) = pred (length db).
Proof.
  induction db as [|e db IH]; [by rewrite present_nil|].
  rewrite present_cons. cbn [remove_first length].
  case_bool_decide; [done|]. cbn [orb length].
  intros Hdb. rewrite IH by done. apply present_true in Hdb as (x & Hx & _).
  destruct db; [by apply elem_of_nil in Hx | done].
Qed.

Lemma remove_first_sublist k db : remove_first k db `sublist_of` db.
Proof.
  induction db as [|e db IH]; [done|]. cbn [remove_first].
  case_bool_decide; [by apply sublist_cons | by apply sublist_skip].
Qed.

End reference_facts.

(** ** The loops *)

Section loops.
Implicit Types (pre suf db : list Entry) (req : CourseRequest) (k : Z).

(** The update loop, started at position [length pre] of [pre ++ suf] with
    [length suf] indices to go: it overwrites the matches of [suf] and
    reports whether it (or an earlier iteration, [b]) found one. *)
Lemma update_course_loop_eq req suf : ∀ pre b,
  run (update_course_loop req (Z.of_nat <$> seq (length pre) (length suf)) b)
      (pre ++ suf) =
  (inr (b || present (id req) suf), pre ++ overwrite req suf).
Proof.
  induction suf as [|e suf IH]; intros pre b.
  { by rewrite present_nil, orb_false_r. }
  cbn [length seq fmap list_fmap update_course_loop].
  rewrite run_bind, run_db_getitem_middle, present_cons.
  unfold overwrite. cbn [fmap list_fmap]. fold (overwrite req suf).
  case_bool_decide as He.
  - rewrite run_bind, run_db_setitem_middle, orb_true_r.
    specialize (IH (pre ++ [ARequest req]) true).
    by rewrite length_app, Nat.add_1_r, <- !app_assoc in IH.
  - specialize (IH (pre ++ [e]) b).
    by rewrite length_app, Nat.add_1_r, <- !app_assoc in IH.
Qed.

(** The delete loop from position [length pre]: it pops the first match of
    [suf] and stops. *)
Lemma delete_course_loop_eq k suf : ∀ pre,
  run (delete_course_loop k (Z.of_nat <$> seq (length pre) (length suf)))
      (pre ++ suf) =
  (inr (present (Some k) suf), pre ++ remove_first k suf).
Proof.
  induction suf as [|e suf IH]; intros pre.
  { by rewrite present_nil. }
  cbn [length seq fmap list_fmap delete_course_loop remove_first].
  rewrite run_bind, run_db_getitem_middle, present_cons.
  case_bool_decide as He.
  - by rewrite run_bind, run_db_pop_middle.
  - specialize (IH (pre ++ [e])).
    by rewrite length_app, Nat.add_1_r, <- !app_assoc in IH.
Qed.

(** The collecting loop appends the items that pass the test to what was
    collected so far, in list order. *)
Lemma collect_loop_eq (P : Entry → Prop) `{!∀ e, Decision (P e)} db : ∀ acc,
  collect_loop (λ e, bool_decide (P e)) db acc = acc ++ filter P db.
Proof.
  induction db as [|e db IH]; intros acc; cbn [collect_loop].
  { by rewrite app_nil_r. }
  rewrite IH, filter_cons. unfold append.
  case_bool_decide; case_decide; try done. by rewrite <- app_assoc.
Qed.

(** The lookup loop finds the first item with the id. *)
Lemma get_course_loop_eq k db :
  get_course_loop k db = snd <$> list_find (λ e, id e = Some k) db.
Proof.
  induction db as [|e db IH]; [done|]. cbn [get_course_loop list_find].
  case_bool_decide; case_decide; try done.
  rewrite IH. by destruct (list_find _ db) as [[i x]|].
Qed.

End loops.

(** ** The handlers *)

Section handlers.
Implicit Types (db : list Entry) (req : CourseRequest) (k : Z).

Lemma run_get_all_courses db : run get_all_courses db = (inr db, db).
Proof. done. Qed.

Lemma run_get_course k db :
  run (get_course k) db =
  (match get_course_loop k db with
   | Some e => inr e
   | None => inl not_found
   end, db).
Proof.
  unfold get_course. rewrite run_bind, run_get.
  by destruct (get_course_loop k db).
Qed.

Lemma run_get_courses_by_rating r db :
  run (get_courses_by_rating r) db = (inr (filter (λ e, rating e = r) db), db).
Proof.
  unfold get_courses_by_rating.
  by rewrite run_bind, run_get, run_ret, (collect_loop_eq (λ e, rating e = r)).
Qed.

Lemma run_get_courses_by_publish_date d db :
  run (get_courses_by_publish_date d) db =
  (inr (filter (λ e, published_date e = d) db), db).
Proof.
  unfold get_courses_by_publish_date.
  by rewrite run_bind, run_get, run_ret,
    (collect_loop_eq (λ e, published_date e = d)).
Qed.

Lemma run_update_course req db :
  run (update_course req) db =
  (if present (id req) db then inr tt else inl not_found, overwrite req db).
Proof.
  unfold update_course. run_simpl. rewrite range_len.
  pose proof (update_course_loop_eq req db [] false) as Hloop.
  cbn [length app orb] in Hloop. rewrite Hloop.
  by destruct (present (id req) db).
Qed.

Lemma run_delete_course k db :
  run (delete_course k) db =
  (if present (Some k) db then inr tt else inl not_found, remove_first k db).
Proof.
  unfold delete_course. run_simpl. rewrite range_len.
  pose proof (delete_course_loop_eq k db []) as Hloop.
  cbn [length app] in Hloop. rewrite Hloop.
  by destruct (present (Some k) db).
Qed.

Lemma run_find_courseID c db :
  run (find_courseID c) db =
  (match next_id db with
   | inr v => inr (set_id c v)
   | inl e => inl e
   end, db).
Proof.
  unfold find_courseID, next_id. run_simpl.
  destruct (last db) as [e|] eqn:Hlast.
  - rewrite bool_decide_eq_false_2.
    2: { rewrite len_nil_iff. by intros ->. }
    rewrite run_bind, (run_db_getitem_last _ e) by done. run_simpl.
    by destruct (add (id e) 1).
  - apply last_None in Hlast as ->. done.
Qed.

Lemma run_create_course req db :
  run (create_course req) db =
  match next_id db with
  | inr v => (inr tt, db ++ [ACourse (set_id (Course_of_dump req) v)])
  | inl e => (inl e, db)
  end.
Proof.
  unfold create_course. rewrite run_bind, run_find_courseID.
  destruct (next_id db); [done|]. by run_simpl.
Qed.

End handlers.

(** * The handlers are their reference definitions *)

Section equivalence.
Implicit Types (db : list Entry) (req : CourseRequest) (k : Z).

(** C3: on every registry [update_course] ends without an index error,
    leaves the registry in which every record with the request's id is
    replaced by the request, and raises 404 exactly when no record had that
    id, in which case the registry is unchanged; the length never
    changes. *)
Theorem update_course_correct req db :
  run (update_course req) db =
    (if present (id req) db then inr tt else inl not_found,
     overwrite req db) ∧
  length (overwrite req db) = length db ∧
  (present (id req) db = false → overwrite req db = db).
Proof.
  split_and!;
    [apply run_update_course|apply overwrite_length|apply overwrite_absent].
Qed.

(** C4: on every registry [delete_course] ends without an index error,
    leaves the registry without the first record that has the id, and
    raises 404 exactly when no record had it, in which case the registry is
    unchanged; otherwise the length drops by one. *)
Theorem delete_course_correct k db :
  run (delete_course k) db =
    (if present (Some k) db then inr tt else inl not_found,
     remove_first k db) ∧
  (present (Some k) db = true →
   length (remove_first k db) = pred (length db)) ∧
  (present (Some k) db = false → remove_first k db = db).
Proof.
  split_and!;
    [apply run_delete_course|apply remove_first_length
    |apply remove_first_absent].
Qed.

(** [create_course] appends one [Course] with the request's fields and
    the id 1 on the empty registry, the last record's id plus one
    otherwise; when the last record's id is [None] it raises [TypeError]
    and appends nothing. *)
Lemma create_course_correct req db :
  run (create_course req) db =
  match last db with
  | None => (inr tt, [ACourse (set_id (Course_of_dump req) 1)])
  | Some e =>
      match id e with
      | Some n => (inr tt, db ++ [ACourse (set_id (Course_of_dump req) (n + 1))])
      | None => (inl TypeError, db)
      end
  end.
Proof.
  rewrite run_create_course. unfold next_id.
  destruct (last db) as [e|] eqn:Hlast.
  - by destruct (id e).
  - by apply last_None in Hlast as ->.
Qed.

(** C39: [get_course] returns a record exactly when it is the first of the
    registry whose id is the one asked for, and raises 404 exactly when no
    record has that id; it never changes the registry. *)
Theorem get_course_first_match k db :
  (∀ e, run (get_course k) db = (inr e, db) ↔
     ∃ i, db !! i = Some e ∧ id e = Some k ∧
          ∀ j e', db !! j = Some e' → (j < i)%nat → id e' ≠ Some k) ∧
  (run (get_course k) db = (inl not_found, db) ↔
     ∀ e, e ∈ db → id e ≠ Some k).
Proof.
  rewrite run_get_course, get_course_loop_eq. split.
  - intros e. destruct (list_find _ db) as [[i x]|] eqn:Hfind; simpl.
    + apply list_find_Some in Hfind as (Hi & Hx & Hfirst). split.
      * intros [= <-]. eauto.
      * intros (i' & Hi' & He & Hfirst'). do 2 f_equal.
        destruct (Nat.lt_trichotomy i i') as [?|[->|?]];
          [by destruct (Hfirst' i x)|congruence|by destruct (Hfirst i' e)].
    + split; [done|]. intros (i & Hi & He & _).
      eapply list_find_None, Forall_forall in Hfind;
        [|by eapply list_elem_of_lookup_2]. done.
  - destruct (list_find _ db) as [[i x]|] eqn:Hfind; simpl.
    + apply list_find_Some in Hfind as (Hi & Hx & _). split; [done|].
      intros Hno. destruct (Hno x); [by eapply list_elem_of_lookup_2|done].
    + apply list_find_None in Hfind. rewrite Forall_forall in Hfind.
      naive_solver.
Qed.

(** The two filter handlers return the records whose rating, or whose
    published date, equals the query, in registry order, and leave the
    registry unchanged. *)
Lemma filters_correct r d db :
  run (get_courses_by_rating r) db =
    (inr (filter (λ e, rating e = r) db), db) ∧
  run (get_courses_by_publish_date d) db =
    (inr (filter (λ e, published_date e = d) db), db).
Proof.
  split; [apply run_get_courses_by_rating
         |apply run_get_courses_by_publish_date].
Qed.

(** The index loops do read through Python's indexing: run over a range
    longer than the registry the update loop ends in [IndexError]. *)
Example update_loop_stale_range :
  (run (update_course_loop
          (mkCourseRequest (Some 9) (str_of "Rust") (str_of "Tester") 5 2025)
          (range 7) false) courses_db).1 = inl IndexError.
Proof. vm_compute. reflexivity. Qed.

End equivalence.
