(* ===== verification/Invariant.v ===== *)
(** * The registry invariant

    [wf] states what the data model promises of the registry: every item has
    an integer id, the ids are positive, and they strictly increase along the
    list, hence are pairwise distinct.  It holds of the seed and every
    handler keeps it, whatever the request.  Under it the id assignment of
    [find_courseID] cannot fail and yields an id above every id present, the
    first match of a scan is the only one, and the update loop overwrites a
    single item. *)

From S2P Require Import Prelude Python Course Validation Registry.

#[local] Set Warnings "-clear-no-such-hyp".

Local Open Scope Z_scope.

(** ** The invariant *)

Definition wf (db : list Entry) : Prop :=
  Forall (λ e, is_Some (id e)) db ∧
  Forall (λ k, 0 < k) (ids db) ∧
  StronglySorted Z.lt (ids db).

#[export] Instance wf_dec db : Decision (wf db).
Proof. unfold wf. apply _. Defined.

(** Every item meets the constraints validation enforces. *)
Definition fields_ok (db : list Entry) : Prop := Forall valid_fields db.

#[export] Instance fields_ok_dec db : Decision (fields_ok db).
Proof. unfold fields_ok. apply _. Defined.

(** ** Ids of a well-formed registry *)

Section wf_facts.
Implicit Types (db : list Entry) (e : Entry) (req : CourseRequest) (k : Z).

Lemma wf_nil : wf [].
Proof. unfold wf, ids. simpl. split_and!; constructor. Qed.

Lemma wf_sublist db1 db2 : db1 `sublist_of` db2 → wf db2 → wf db1.
Proof.
  intros Hsub (Hsome & Hpos & Hsorted). split_and!.
  - by eapply Forall_sublist.
  - eapply Forall_sublist; [by apply sublist_omap | done].
  - eapply StronglySorted_sublist; [by apply sublist_omap | done].
Qed.

Lemma wf_NoDup db : wf db → NoDup (ids db).
Proof.
  intros (_ & _ & Hsorted). by apply (StronglySorted_irrefl_NoDup Z.lt).
Qed.

(** In a well-formed registry the ids are the [id] attributes themselves. *)
Lemma wf_id_fmap db : wf db → id <$> db = Some <$> ids db.
Proof.
  intros (Hsome & _). unfold ids.
  induction Hsome as [|e db [k Hk] _ IH].
  { done. }
  cbn [omap list_omap]. rewrite Hk, !fmap_cons. by f_equal.
Qed.

Lemma ids_snoc db e k : id e = Some k → ids (db ++ [e]) = ids db ++ [k].
Proof. intros Hk. by rewrite ids_app, (ids_cons_Some _ _ k). Qed.

Lemma last_ids db e k :
  wf db → last db = Some e → id e = Some k → last (ids db) = Some k.
Proof.
  intros _ [db' ->]%last_Some Hk. by rewrite (ids_snoc _ _ k), last_snoc.
Qed.

(** Appending an item whose id is above every id present keeps [wf]. *)
Lemma wf_snoc db e k :
  wf db → id e = Some k → 0 < k → Forall (λ j, j < k) (ids db) →
  wf (db ++ [e]).
Proof.
  intros (Hsome & Hpos & Hsorted) Hk Hk0 Hlt. unfold wf.
  rewrite (ids_snoc _ _ k), !Forall_app, !Forall_singleton by done.
  split_and!; [done|by eexists|done|done|by apply StronglySorted_snoc].
Qed.

(** An item found in a well-formed registry is the only one with its id:
    two positions holding the same id are the same position. *)
Lemma wf_lookup_inj db i j e1 e2 :
  wf db → db !! i = Some e1 → db !! j = Some e2 → id e1 = id e2 → i = j.
Proof.
  intros Hwf H1 H2 Hid. pose proof (wf_id_fmap _ Hwf) as Hfmap.
  apply (NoDup_lookup (id <$> db) i j (id e1)).
  - rewrite Hfmap. apply (NoDup_fmap_2 _), wf_NoDup, Hwf.
  - by rewrite list_lookup_fmap, H1.
  - by rewrite list_lookup_fmap, H2, Hid.
Qed.

End wf_facts.

(** ** The invariant depends on the id column only *)

Section id_column.
Implicit Types (db : list Entry) (req : CourseRequest) (k : Z).

Lemma ids_id_fmap db : ids db = omap (λ o, o) (id <$> db).
Proof.
  unfold ids. induction db as [|e db IH]; [done|].
  rewrite fmap_cons. cbn [omap list_omap]. by rewrite IH.
Qed.

Lemma wf_same_ids db1 db2 : id <$> db1 = id <$> db2 → wf db1 → wf db2.
Proof.
  intros Heq (Hsome & Hpos & Hsorted). unfold wf.
  rewrite (ids_id_fmap db2), <- Heq, <- ids_id_fmap. split_and!; [|done..].
  apply (Forall_fmap (A:=Entry) id is_Some). rewrite <- Heq.
  by apply Forall_fmap.
Qed.

Lemma ids_overwrite req db : ids (overwrite req db) = ids db.
Proof. by rewrite !ids_id_fmap, overwrite_id_fmap. Qed.

(** Under [wf] the tail of the registry holds no id of the head's. *)
Lemma wf_cons_inv e db :
  wf (e :: db) →
  ∃ k, id e = Some k ∧ 0 < k ∧ Forall (λ j, k < j) (ids db) ∧ wf db.
Proof.
  intros Hwf. pose proof Hwf as (Hsome & Hpos & Hsorted).
  apply Forall_cons in Hsome as [[k Hk] Hsome]. exists k.
  rewrite (ids_cons_Some _ _ k) in Hpos, Hsorted by done.
  apply Forall_cons in Hpos as [Hk0 Hpos].
  apply StronglySorted_inv in Hsorted as [Hsorted Hlt].
  split_and!; try done.
Qed.

Lemma wf_head_absent e db k :
  wf (e :: db) → id e = Some k → present (Some k) db = false.
Proof.
  intros (k' & Hk' & _ & Hlt & _)%wf_cons_inv Hk. simplify_eq.
  apply not_true_iff_false. rewrite present_Some_ids. intros Hin.
  eapply Forall_forall in Hlt; [|done]. lia.
Qed.

End id_column.

(** ** Id assignment *)

Section assignment.
Implicit Types (db : list Entry) (req : CourseRequest) (k v : Z).

(** Under [wf], [find_courseID] computes an id: positive and above every id
    of the registry. *)
Lemma next_id_wf db :
  wf db → ∃ v, next_id db = inr v ∧ 0 < v ∧ Forall (λ j, j < v) (ids db).
Proof.
  intros Hwf. unfold next_id. destruct (last db) as [e|] eqn:Hlast.
  2: { apply last_None in Hlast as ->. exists 1. by split_and!. }
  pose proof Hwf as (Hsome & Hpos & Hsorted).
  pose proof Hlast as [db' ->]%last_Some.
  apply Forall_app in Hsome as [_ [k Hk]%Forall_inv].
  rewrite (ids_snoc _ _ k) in Hpos, Hsorted by done.
  apply Forall_app in Hpos as [_ Hk0%Forall_inv].
  apply StronglySorted_snoc in Hsorted as [_ Hlt].
  exists (k + 1). rewrite Hk, (ids_snoc _ _ k) by done.
  split_and!; [done|lia|].
  apply Forall_app. split; [|apply Forall_singleton; lia].
  eapply Forall_impl; [done|]. simpl. lia.
Qed.

Lemma next_id_seed : next_id courses_db = inr 7.
Proof. reflexivity. Qed.

End assignment.

(** ** The handlers keep the invariant *)

Section preservation.
Implicit Types (db : list Entry) (req : CourseRequest) (k : Z).

Lemma wf_seed : wf courses_db.
Proof. apply (bool_decide_unpack _). by vm_compute. Qed.

Lemma wf_overwrite req db : wf db → wf (overwrite req db).
Proof. apply wf_same_ids. by rewrite overwrite_id_fmap. Qed.

Lemma wf_remove_first k db : wf db → wf (remove_first k db).
Proof. apply wf_sublist, remove_first_sublist. Qed.

Lemma create_course_wf req db :
  wf db → wf (run (create_course req) db).2.
Proof.
  intros Hwf. rewrite run_create_course.
  destruct (next_id_wf db Hwf) as (v & -> & Hv0 & Hlt).
  by apply (wf_snoc _ _ v).
Qed.

Lemma update_course_wf req db :
  wf db → wf (run (update_course req) db).2.
Proof. rewrite run_update_course. apply wf_overwrite. Qed.

Lemma delete_course_wf k db :
  wf db → wf (run (delete_course k) db).2.
Proof. rewrite run_delete_course. apply wf_remove_first. Qed.

End preservation.

#[export] Hint Resolve wf_nil wf_seed wf_overwrite wf_remove_first
  : registry.

(** ** What uniqueness gives the scans *)

Section unique.
Implicit Types (db : list Entry) (e : Entry) (req : CourseRequest) (k : Z).

(** The first match of the delete loop is the only one: removing it removes
    every item with the id. *)
Lemma remove_first_filter k db :
  wf db → remove_first k db = filter (λ e, id e ≠ Some k) db.
Proof.
  induction db as [|e db IH]; [done|]. intros Hwf.
  pose proof Hwf as (_ & _ & _ & _ & Hdb)%wf_cons_inv.
  cbn [remove_first]. rewrite filter_cons.
  case_bool_decide as He; case_decide; try done; [|by rewrite IH].
  rewrite <- IH by done. symmetry. apply remove_first_absent.
  by eapply wf_head_absent.
Qed.

Lemma get_course_loop_None k db :
  get_course_loop k db = None ↔ present (Some k) db = false.
Proof.
  rewrite get_course_loop_eq, fmap_None, list_find_None, present_false.
  by rewrite Forall_forall.
Qed.

Lemma get_course_loop_Some k db e :
  get_course_loop k db = Some e → e ∈ db ∧ id e = Some k.
Proof.
  rewrite get_course_loop_eq.
  intros ([i x] & (Hi & Hx & _)%list_find_Some & ->)%fmap_Some.
  split; [by eapply list_elem_of_lookup_2 | done].
Qed.

(** [get_course] returns exactly the record that carries the id. *)
Lemma get_course_loop_unique k db e :
  wf db → e ∈ db → id e = Some k → get_course_loop k db = Some e.
Proof.
  intros Hwf [i Hi]%list_elem_of_lookup Hk.
  destruct (get_course_loop k db) as [e'|] eqn:Hget.
  - rewrite get_course_loop_eq in Hget.
    apply fmap_Some in Hget as ([j x] & (Hj & Hx & _)%list_find_Some & ->).
    assert (j = i) as -> by (eapply wf_lookup_inj; eauto; congruence).
    simpl. congruence.
  - rewrite get_course_loop_None, present_false in Hget.
    destruct (Hget e); [by eapply list_elem_of_lookup_2 | done].
Qed.

Lemma present_remove_first k db :
  wf db → present (Some k) (remove_first k db) = false.
Proof.
  intros Hwf. rewrite remove_first_filter by done. apply present_false.
  by intros e [He _]%list_elem_of_filter.
Qed.

(** Removing one id leaves the lookups of the others as they were. *)
Lemma get_course_loop_remove_first_ne k k' db :
  k ≠ k' → get_course_loop k' (remove_first k db) = get_course_loop k' db.
Proof.
  intros Hne. induction db as [|e db IH]; [done|].
  cbn [remove_first get_course_loop].
  case_bool_decide as He.
  - rewrite bool_decide_eq_false_2; [done|]. rewrite He. congruence.
  - cbn [get_course_loop]. by rewrite IH.
Qed.

(** The update loop overwrites the one position that holds the id. *)
Lemma overwrite_single req db i e :
  wf db → db !! i = Some e → id e = id req →
  overwrite req db = <[i := ARequest req]> db.
Proof.
  intros Hwf Hi He. apply list_eq. intros j. unfold overwrite.
  rewrite list_lookup_fmap. destruct (decide (i = j)) as [<-|Hne].
  - rewrite list_lookup_insert_eq by eauto using lookup_lt_Some.
    rewrite Hi. simpl. rewrite bool_decide_eq_true_2 by done. done.
  - rewrite list_lookup_insert_ne by done.
    destruct (db !! j) as [e'|] eqn:Hj; [|done]. simpl.
    rewrite bool_decide_eq_false_2; [done|]. intros He'.
    apply Hne. eapply wf_lookup_inj; eauto. congruence.
Qed.

(** After an update the id looks up the request, and the other ids what
    they did before. *)
Lemma get_course_loop_overwrite req db k :
  id req = Some k → present (Some k) db = true →
  get_course_loop k (overwrite req db) = Some (ARequest req).
Proof.
  intros Hk. induction db as [|e db IH]; [by rewrite present_nil|].
  rewrite present_cons. unfold overwrite. rewrite fmap_cons.
  fold (overwrite req db). rewrite Hk. cbn [get_course_loop].
  case_bool_decide as He; cbn [orb].
  - intros _. by rewrite bool_decide_eq_true_2.
  - intros Hdb. rewrite bool_decide_eq_false_2 by done. by apply IH.
Qed.

Lemma get_course_loop_overwrite_ne req db k :
  id req ≠ Some k →
  get_course_loop k (overwrite req db) = get_course_loop k db.
Proof.
  intros Hne. induction db as [|e db IH]; [done|].
  unfold overwrite. rewrite fmap_cons. fold (overwrite req db).
  cbn [get_course_loop]. rewrite IH.
  destruct (decide (id e = id req)) as [He|He].
  - rewrite (bool_decide_eq_true_2 _ He), id_ARequest.
    rewrite !bool_decide_eq_false_2; [done|congruence|done].
  - by rewrite (bool_decide_eq_false_2 _ He).
Qed.

End unique.

(** ** The last record and the next id *)

Section last_record.
Implicit Types (db : list Entry) (e : Entry) (k v : Z).

Lemma wf_snoc_inv db e k :
  wf (db ++ [e]) → id e = Some k →
  wf db ∧ 0 < k ∧ Forall (λ j, j < k) (ids db).
Proof.
  intros Hwf Hk. split; [by eapply wf_sublist, Hwf; apply sublist_inserts_r|].
  destruct Hwf as (_ & Hpos & Hsorted).
  rewrite (ids_snoc _ _ k) in Hpos, Hsorted by done.
  apply Forall_app in Hpos as [_ Hk0%Forall_inv].
  by apply StronglySorted_snoc in Hsorted as [_ Hlt].
Qed.

Lemma remove_first_app k db1 db2 :
  present (Some k) db1 = false →
  remove_first k (db1 ++ db2) = db1 ++ remove_first k db2.
Proof.
  induction db1 as [|e db1 IH]; [done|].
  rewrite present_cons, orb_false_iff. intros [He Hdb1].
  rewrite <- !app_comm_cons. cbn [remove_first]. by rewrite He, IH.
Qed.

(** Deleting the last record of a well-formed registry leaves the records
    before it. *)
Lemma remove_first_last db e k :
  wf (db ++ [e]) → id e = Some k → remove_first k (db ++ [e]) = db.
Proof.
  intros Hwf Hk. destruct (wf_snoc_inv _ _ _ Hwf Hk) as (_ & _ & Hlt).
  rewrite remove_first_app.
  - cbn [remove_first]. by rewrite bool_decide_eq_true_2, app_nil_r.
  - apply not_true_iff_false. rewrite present_Some_ids. intros Hin.
    eapply Forall_forall in Hlt; [|done]. lia.
Qed.

(** The id [find_courseID] assigns is 1 or the successor of the last id. *)
Lemma next_id_last db v :
  next_id db = inr v → (db = [] ∧ v = 1) ∨ last (ids db) = Some (v - 1).
Proof.
  unfold next_id. destruct (last db) as [e|] eqn:Hlast.
  - apply last_Some in Hlast as [db' ->].
    destruct (id e) as [k|] eqn:He; [|done].
    intros [= <-]. right. rewrite (ids_snoc _ _ k), last_snoc by done.
    f_equal. lia.
  - apply last_None in Hlast as ->. intros [= <-]. by left.
Qed.

End last_record.

(** ** Lookups in an extended registry *)

Section lookup.
Implicit Types (db : list Entry) (e : Entry) (k : Z).

Lemma get_course_loop_app k db1 db2 :
  get_course_loop k (db1 ++ db2) =
  match get_course_loop k db1 with
  | Some e => Some e
  | None => get_course_loop k db2
  end.
Proof.
  induction db1 as [|e db1 IH]; [done|].
  rewrite <- app_comm_cons. cbn [get_course_loop]. by case_bool_decide.
Qed.

Lemma get_course_loop_is_Some k db :
  is_Some (get_course_loop k db) ↔ k ∈ ids db.
Proof.
  rewrite <- not_eq_None_Some, get_course_loop_None, not_false_iff_true.
  apply present_Some_ids.
Qed.

Lemma wf_ids_pos db k : wf db → k ∈ ids db → 0 < k.
Proof. intros (_ & Hpos & _) Hk. by eapply Forall_forall in Hpos. Qed.

Lemma ids_lookup db k :
  k ∈ ids db → ∃ i e, db !! i = Some e ∧ id e = Some k.
Proof.
  unfold ids. intros (e & [i Hi]%list_elem_of_lookup & He)%list_elem_of_omap.
  eauto.
Qed.

(** A fresh id appended at the end is found there. *)
Lemma get_course_loop_snoc_fresh db e k :
  k ∉ ids db → id e = Some k → get_course_loop k (db ++ [e]) = Some e.
Proof.
  intros Hk He. rewrite get_course_loop_app.
  rewrite <- get_course_loop_is_Some, <- eq_None_not_Some in Hk. rewrite Hk.
  cbn [get_course_loop]. by rewrite bool_decide_eq_true_2.
Qed.

(** An id already present is found where it was. *)
Lemma get_course_loop_snoc_old db e k :
  k ∈ ids db → get_course_loop k (db ++ [e]) = get_course_loop k db.
Proof.
  intros [e' He']%get_course_loop_is_Some.
  by rewrite get_course_loop_app, He'.
Qed.

End lookup.

(** * Properties of the registry *)

Section registry.
Implicit Types (db : list Entry) (req : CourseRequest) (k : Z).

(** C19: the three mutating handlers keep the registry well formed, whatever
    the request: run on a well-formed registry, [create_course],
    [update_course] and [delete_course] each leave a well-formed one. *)
Theorem handlers_preserve_wf req k db :
  wf db →
  wf (run (create_course req) db).2 ∧
  wf (run (update_course req) db).2 ∧
  wf (run (delete_course k) db).2.
Proof.
  intros Hwf. split_and!;
    [by apply create_course_wf|by apply update_course_wf
    |by apply delete_course_wf].
Qed.

Lemma handlers_preserve_wf_witness :
  let req := mkCourseRequest (Some 2) (str_of "Rust") (str_of "Tester") 5 2025 in
  wf (run (create_course req) courses_db).2 ∧
  wf (run (update_course req) courses_db).2 ∧
  wf (run (delete_course 4) courses_db).2.
Proof. apply handlers_preserve_wf, wf_seed. Defined.

(** In a well-formed registry no two records share an id: the ids, read
    along the list, hold no value twice. *)
Lemma ids_unique db : wf db → NoDup (id <$> db).
Proof.
  intros Hwf. rewrite (wf_id_fmap _ Hwf).
  by apply (NoDup_fmap_2 _), wf_NoDup.
Qed.

(** C2: on a well-formed registry [find_courseID] does not fail and
    assigns an id that is positive and above every id present, hence held
    by no record: 1 on the empty registry, otherwise one more than the
    greatest id. *)
Theorem find_courseID_fresh (c : Course) db :
  wf db →
  ∃ v, run (find_courseID c) db = (inr (set_id c v), db) ∧
    0 < v ∧ (∀ j, j ∈ ids db → j < v) ∧
    (db = [] ∧ v = 1 ∨ v - 1 ∈ ids db).
Proof.
  intros Hwf. destruct (next_id_wf db Hwf) as (v & Hv & Hv0 & Hlt).
  exists v. rewrite run_find_courseID, Hv.
  split_and!; [done..|by apply Forall_forall|].
  unfold next_id in Hv. destruct (last db) as [e|] eqn:Hlast.
  - right. destruct (id e) as [n|] eqn:Hn; simplify_eq/=.
    replace (n + 1 - 1) with n by lia.
    apply last_Some in Hlast as [db' ->]. rewrite (ids_snoc _ _ n) by done.
    apply elem_of_app. right. by apply list_elem_of_singleton.
  - left. apply last_None in Hlast. by simplify_eq.
Qed.

Lemma find_courseID_fresh_witness :
  ∃ v, run (find_courseID (mkCourse None (str_of "Rust") (str_of "Tester")
                             5 2025)) courses_db =
       (inr (set_id (mkCourse None (str_of "Rust") (str_of "Tester") 5 2025)
               v), courses_db) ∧
    0 < v ∧ (∀ j, j ∈ ids courses_db → j < v) ∧
    (courses_db = [] ∧ v = 1 ∨ v - 1 ∈ ids courses_db).
Proof. apply find_courseID_fresh, wf_seed. Defined.

(** On a well-formed registry [delete_course], which stops at the
    first match, leaves no record with the id behind: the registry it
    leaves is the one filtered of that id. *)
Lemma delete_course_removes_id k db :
  wf db →
  (run (delete_course k) db).2 = filter (λ e, id e ≠ Some k) db.
Proof. intros Hwf. by rewrite run_delete_course, <- remove_first_filter. Qed.

Lemma delete_course_removes_id_witness :
  (run (delete_course 2) courses_db).2 =
  filter (λ e, id e ≠ Some 2) courses_db.
Proof. apply delete_course_removes_id, wf_seed. Defined.

(** Without the invariant the first match is not the only one: on a
    registry holding an id twice a deleted id is still found. *)
Example delete_needs_unique_ids :
  let db := [ACourse (mkCourse (Some 1) (str_of "Java") (str_of "Kaan") 2 2039);
             ACourse (mkCourse (Some 1) (str_of "Rust") (str_of "Kaan") 2 2039)]
  in is_Some (get_course_loop 1 (run (delete_course 1) db).2).
Proof. vm_compute. by eexists. Qed.

(** The assignment looks at the last record only: on a registry whose ids
    do not increase it hands out an id already taken. *)
Example create_collides_when_unsorted :
  let db := [ACourse (mkCourse (Some 4) (str_of "Java") (str_of "Kaan") 2 2039);
             ACourse (mkCourse (Some 3) (str_of "Rust") (str_of "Kaan") 2 2039)]
  in ids (run (create_course
            (mkCourseRequest None (str_of "Ruby") (str_of "Kaan") 2 2039))
          db).2 = [4; 3; 4].
Proof. vm_compute. reflexivity. Qed.

End registry.
