(* ===== verification/App.v ===== *)
(** * The application: requests, responses and the service as a machine

    A request that reached one of the seven routes of [src/main.py] is a
    [Request]; [handle] validates its parameters or body as FastAPI does
    before calling the handler, runs the handler, and turns the outcome into
    a status code and a body: the status its decorator declares on success
    (one constant per decorator, [create_course_status_code] and the like), the
    [HTTPException]'s own, 422 on a validation failure, 500 on any other
    exception.  The handlers are [async def] without an [await], so each
    request runs to completion before the next starts, and the service is
    the state machine whose state is [courses_db] and whose steps are the
    requests: [reachable] are the registries it can be in. *)

From S2P Require Import Prelude Python Course Validation.
From S2P Require Import Registry Invariant.

#[local] Set Warnings "-clear-no-such-hyp".

Local Open Scope Z_scope.

(** ** Requests and responses *)

(** A request that reached a route: one constructor for each of the seven
    decorated functions, with the arguments the framework calls it with. *)
Inductive Request :=
| GET_courses
| GET_course (course_id : Z)
| GET_courses_by_rating (course_rating : Z)
| GET_courses_by_publish_date (publish_date : Z)
| POST_create_course (course_request : CourseRequest)
| PUT_update_course (course_request : CourseRequest)
| DELETE_course (course_id : Z).

(** What the response carries: the handler's return value as JSON, the
    detail of an [HTTPException], the fields that failed validation, nothing
    (status 204), or the server's error page. *)
Inductive Body :=
| JNull
| JCourse (course : Entry)
| JCourses (courses : list Entry)
| JDetail (detail : string)
| JValidation (fields : list string)
| JEmpty
| JServerError.

Record Response := mkResponse {
  status_code : Z;
  body : Body
}.

#[export] Instance Request_eq_dec : EqDecision Request.
Proof. solve_decision. Defined.

#[export] Instance Body_eq_dec : EqDecision Body.
Proof. solve_decision. Defined.

#[export] Instance Response_eq_dec : EqDecision Response.
Proof. solve_decision. Defined.

(** The answer to a request for an id no record holds. *)
Definition not_found_response : Response :=
  mkResponse 404 (JDetail "Course not found").

(** ** Dispatch *)

(** The response to a handler's outcome. *)
Definition response_of {A} (status : Z) (to_body : A → Body)
    (outcome : Exn + A) : Response :=
  match outcome with
  | inr x => mkResponse status (to_body x)
  | inl (HTTPException code detail) => mkResponse code (JDetail detail)
  | inl _ => mkResponse 500 JServerError
  end.

Definition respond {A} (status : Z) (to_body : A → Body) (h : Handler A)
    (db : list Entry) : Response * list Entry :=
  let '(outcome, db') := run h db in (response_of status to_body outcome, db').

(** The parameters or fields of a request that fail validation. *)
Definition request_errors (req : Request) : list string :=
  match req with
  | GET_courses => []
  | GET_course course_id | DELETE_course course_id =>
      if check_int course_id_path course_id then [] else ["course_id"]
  | GET_courses_by_rating course_rating =>
      if check_int course_rating_query course_rating then []
      else ["course_rating"]
  | GET_courses_by_publish_date publish_date =>
      if check_int publish_date_query publish_date then []
      else ["publish_date"]
  | POST_create_course course_request | PUT_update_course course_request =>
      validate course_request
  end.

(** The [status_code] argument of each decorator: [HTTP_200_OK] on lines
    53, 58, 66 and 75, [HTTP_201_CREATED] on line 84, [HTTP_204_NO_CONTENT]
    on lines 95 and 106. *)
Definition get_all_courses_status_code : Z := 200.
Definition get_course_status_code : Z := 200.
Definition get_courses_by_rating_status_code : Z := 200.
Definition get_courses_by_publish_date_status_code : Z := 200.
Definition create_course_status_code : Z := 201.
Definition update_course_status_code : Z := 204.
Definition delete_course_status_code : Z := 204.

(** The function of the route a request reached is called, and what it
    returns is answered with the status code of its decorator. *)
Definition route (req : Request) : list Entry → Response * list Entry :=
  match req with
  | GET_courses =>
      respond get_all_courses_status_code JCourses get_all_courses
  | GET_course course_id =>
      respond get_course_status_code JCourse (get_course course_id)
  | GET_courses_by_rating course_rating =>
      respond get_courses_by_rating_status_code JCourses
        (get_courses_by_rating course_rating)
  | GET_courses_by_publish_date publish_date =>
      respond get_courses_by_publish_date_status_code JCourses
        (get_courses_by_publish_date publish_date)
  | POST_create_course course_request =>
      respond create_course_status_code (λ _, JNull)
        (create_course course_request)
  | PUT_update_course course_request =>
      respond update_course_status_code (λ _, JEmpty)
        (update_course course_request)
  | DELETE_course course_id =>
      respond delete_course_status_code (λ _, JEmpty)
        (delete_course course_id)
  end.

Definition handle (req : Request) (db : list Entry)
    : Response * list Entry :=
  match request_errors req with
  | [] => route req db
  | fields => (mkResponse 422 (JValidation fields), db)
  end.

(** ** The service as a state machine *)

(** The registry after a sequence of requests, with the responses given. *)
Fixpoint serve (reqs : list Request) (db : list Entry)
    : list Response * list Entry :=
  match reqs with
  | [] => ([], db)
  | req :: reqs' =>
      let '(resp, db') := handle req db in
      let '(resps, db'') := serve reqs' db' in
      (resp :: resps, db'')
  end.

(** The requests whose function only reads the list: the four GET
    routes. *)
Definition is_read (req : Request) : bool :=
  match req with
  | GET_courses | GET_course _ | GET_courses_by_rating _
  | GET_courses_by_publish_date _ => true
  | _ => false
  end.

(** The id a mutating request addresses. *)
Definition target (req : Request) : option Z :=
  match req with
  | PUT_update_course body => id body
  | DELETE_course k => Some k
  | _ => None
  end.

(** ** The routes in closed form *)

(** What each route answers and leaves behind, in terms of the reference
    definitions. *)
Definition route_spec (req : Request) (db : list Entry)
    : Response * list Entry :=
  match req with
  | GET_courses => (mkResponse 200 (JCourses db), db)
  | GET_course k =>
      (match get_course_loop k db with
       | Some e => mkResponse 200 (JCourse e)
       | None => not_found_response
       end, db)
  | GET_courses_by_rating r =>
      (mkResponse 200 (JCourses (filter (λ e, rating e = r) db)), db)
  | GET_courses_by_publish_date d =>
      (mkResponse 200 (JCourses (filter (λ e, published_date e = d) db)), db)
  | POST_create_course body =>
      match next_id db with
      | inr v =>
          (mkResponse 201 JNull,
           db ++ [ACourse (set_id (Course_of_dump body) v)])
      | inl _ => (mkResponse 500 JServerError, db)
      end
  | PUT_update_course body =>
      (if present (id body) db then mkResponse 204 JEmpty
       else not_found_response, overwrite body db)
  | DELETE_course k =>
      (if present (Some k) db then mkResponse 204 JEmpty
       else not_found_response, remove_first k db)
  end.

(** ** The service's transitions

    [step db req resp db'] is the contract of the service, one rule per
    outcome of a route: the request [req] received in registry [db] is
    answered [resp] and leaves [db'].  The premises are the conditions under
    which the route takes that outcome. *)
Inductive step (db : list Entry) : Request → Response → list Entry → Prop :=
| step_invalid req :
    request_errors req ≠ [] →
    step db req (mkResponse 422 (JValidation (request_errors req))) db
| step_get_all :
    step db GET_courses (mkResponse 200 (JCourses db)) db
| step_get k e :
    0 < k → get_course_loop k db = Some e →
    step db (GET_course k) (mkResponse 200 (JCourse e)) db
| step_get_missing k :
    0 < k → present (Some k) db = false →
    step db (GET_course k) not_found_response db
| step_by_rating r :
    1 ≤ r ≤ 5 →
    step db (GET_courses_by_rating r)
      (mkResponse 200 (JCourses (filter (λ e, rating e = r) db))) db
| step_by_publish_date d :
    2006 ≤ d ≤ 2039 →
    step db (GET_courses_by_publish_date d)
      (mkResponse 200 (JCourses (filter (λ e, published_date e = d) db))) db
| step_create body v :
    validate body = [] → next_id db = inr v →
    step db (POST_create_course body) (mkResponse 201 JNull)
      (db ++ [ACourse (set_id (Course_of_dump body) v)])
| step_create_error body :
    validate body = [] → next_id db = inl TypeError →
    step db (POST_create_course body) (mkResponse 500 JServerError) db
| step_update body :
    validate body = [] → present (id body) db = true →
    step db (PUT_update_course body) (mkResponse 204 JEmpty)
      (overwrite body db)
| step_update_missing body :
    validate body = [] → present (id body) db = false →
    step db (PUT_update_course body) not_found_response db
| step_delete k :
    0 < k → present (Some k) db = true →
    step db (DELETE_course k) (mkResponse 204 JEmpty) (remove_first k db)
| step_delete_missing k :
    0 < k → present (Some k) db = false →
    step db (DELETE_course k) not_found_response db.

(** The registries the service can be in: the seed, and what any request
    leaves behind. *)
Inductive reachable : list Entry → Prop :=
| reachable_seed : reachable courses_db
| reachable_step db req resp db' :
    reachable db → step db req resp db' → reachable db'.

(** * Theorems *)

(** ** The routes compute their closed form *)


Section routes.
Implicit Types (db : list Entry) (req : Request) (k : Z).

Lemma next_id_error db e : next_id db = inl e → e = TypeError.
Proof.
  unfold next_id, add. by repeat case_match; intros; simplify_eq.
Qed.

Lemma route_eq req db : route req db = route_spec req db.
Proof.
  destruct req as [|k|r|d|body|body|k]; unfold route, route_spec, respond.
  - done.
  - rewrite run_get_course. by destruct (get_course_loop k db).
  - by rewrite run_get_courses_by_rating.
  - by rewrite run_get_courses_by_publish_date.
  - rewrite run_create_course.
    destruct (next_id db) as [e|v] eqn:Hnext; [|done].
    by apply next_id_error in Hnext as ->.
  - rewrite run_update_course. by destruct (present (id body) db).
  - rewrite run_delete_course. by destruct (present (Some k) db).
Qed.

Lemma handle_valid req db :
  request_errors req = [] → handle req db = route_spec req db.
Proof. unfold handle. intros ->. apply route_eq. Qed.

Lemma handle_invalid req db :
  request_errors req ≠ [] →
  handle req db = (mkResponse 422 (JValidation (request_errors req)), db).
Proof. unfold handle. by destruct (request_errors req). Qed.

(** Either the request failed validation, and nothing happened, or it was
    routed. *)
Lemma handle_cases req db :
  (request_errors req ≠ [] ∧
   handle req db = (mkResponse 422 (JValidation (request_errors req)), db)) ∨
  (request_errors req = [] ∧ handle req db = route_spec req db).
Proof.
  destruct (decide (request_errors req = [])); [right|left];
    eauto using handle_valid, handle_invalid.
Qed.

(** A request is answered 422 exactly when validation names a parameter or
    field. *)
Lemma status_422_iff req db :
  status_code (handle req db).1 = 422 ↔ request_errors req ≠ [].
Proof.
  destruct (handle_cases req db) as [[Herr ->]|[Hok ->]]; [done|].
  split; [|done]. destruct req as [|k|r|d|body|body|k]; simpl; try done.
  - by destruct (get_course_loop k db).
  - by destruct (next_id db).
  - by destruct (present (id body) db).
  - by destruct (present (Some k) db).
Qed.

(** ** The parameters each route admits *)

Lemma if_nil_iff (b : bool) (field : string) :
  (if b then [] else [field]) = [] ↔ b = true.
Proof. by destruct b. Qed.

Lemma request_errors_GET_course k :
  request_errors (GET_course k) = [] ↔ 0 < k.
Proof. cbn [request_errors]. rewrite if_nil_iff, check_course_id_path. lia. Qed.

Lemma request_errors_DELETE_course k :
  request_errors (DELETE_course k) = [] ↔ 0 < k.
Proof. cbn [request_errors]. rewrite if_nil_iff, check_course_id_path. lia. Qed.

Lemma request_errors_by_rating r :
  request_errors (GET_courses_by_rating r) = [] ↔ 1 ≤ r ≤ 5.
Proof. cbn [request_errors]. by rewrite if_nil_iff, check_course_rating_query. Qed.

Lemma request_errors_by_publish_date d :
  request_errors (GET_courses_by_publish_date d) = [] ↔ 2006 ≤ d ≤ 2039.
Proof. cbn [request_errors]. by rewrite if_nil_iff, check_publish_date_query. Qed.

(** ** [handle] and the transition relation *)

Lemma handle_step req db : step db req (handle req db).1 (handle req db).2.
Proof.
  destruct (handle_cases req db) as [[Herr ->]|[Hok ->]]; [by constructor|].
  destruct req as [|k|r|d|body|body|k]; simpl.
  - constructor.
  - apply request_errors_GET_course in Hok.
    destruct (get_course_loop k db) as [e|] eqn:Hget; [by constructor|].
    by apply step_get_missing, get_course_loop_None.
  - by apply step_by_rating, request_errors_by_rating.
  - by apply step_by_publish_date, request_errors_by_publish_date.
  - destruct (next_id db) as [e|v] eqn:Hnext; [|by constructor].
    pose proof (next_id_error _ _ Hnext) as ->. by apply step_create_error.
  - destruct (present (id body) db) eqn:Hp; [by constructor|].
    rewrite overwrite_absent by done. by constructor.
  - apply request_errors_DELETE_course in Hok.
    destruct (present (Some k) db) eqn:Hp; [by constructor|].
    rewrite remove_first_absent by done. by constructor.
Qed.

Lemma step_handle db req resp db' :
  step db req resp db' → handle req db = (resp, db').
Proof.
  destruct 1 as [req Herr|
    |k e Hk Hget|k Hk Hp|r Hr|d Hd|body v Hb Hv|body Hb Hv
    |body Hb Hp|body Hb Hp|k Hk Hp|k Hk Hp]; [by apply handle_invalid|..].
  2, 3: apply request_errors_GET_course in Hk.
  4: apply request_errors_by_rating in Hr.
  5: apply request_errors_by_publish_date in Hd.
  10, 11: apply request_errors_DELETE_course in Hk.
  all: rewrite handle_valid by done; simpl; rewrite ?Hget, ?Hv, ?Hp; try done.
  - by rewrite (proj2 (get_course_loop_None k db) Hp).
  - by rewrite overwrite_absent.
  - by rewrite remove_first_absent.
Qed.

Lemma route_spec_wf req db : wf db → wf (route_spec req db).2.
Proof.
  intros Hwf. destruct req as [|k|r|d|body|body|k]; simpl; try done.
  - destruct (next_id_wf db Hwf) as (v & -> & Hv0 & Hlt). simpl.
    by apply (wf_snoc _ _ v).
  - by apply wf_overwrite.
  - by apply wf_remove_first.
Qed.

(** A valid POST on a well-formed registry is answered 201 and appends. *)
Lemma create_next_id body db :
  wf db → validate body = [] →
  ∃ v, handle (POST_create_course body) db =
       (mkResponse 201 JNull, db ++ [ACourse (set_id (Course_of_dump body) v)]).
Proof.
  intros Hwf Hbody. destruct (next_id_wf db Hwf) as (v & Hv & _).
  exists v. rewrite handle_valid by done. simpl. by rewrite Hv.
Qed.

Lemma handle_status_wf req db :
  wf db → status_code (handle req db).1 ∈ [200; 201; 204; 404; 422].
Proof.
  intros Hwf. destruct (handle_cases req db) as [[_ ->]|[_ ->]].
  { simpl. repeat constructor. }
  destruct req as [|k|r|d|body|body|k]; simpl;
    [|destruct (get_course_loop k db)| |
     |destruct (next_id_wf db Hwf) as (v & -> & _)
     |destruct (present (id body) db)
     |destruct (present (Some k) db)];
    simpl; repeat constructor.
Qed.

Lemma handle_wf req db : wf db → wf (handle req db).2.
Proof.
  intros Hwf. destruct (handle_cases req db) as [[_ ->]|[_ ->]]; [done|].
  by apply route_spec_wf.
Qed.

End routes.

(** ** Field constraints of stored records *)

Section fields.
Implicit Types (db : list Entry) (req : Request).

Lemma fields_ok_seed : fields_ok courses_db.
Proof. apply (bool_decide_unpack _). by vm_compute. Qed.

Lemma valid_fields_created body v :
  valid_fields body → valid_fields (ACourse (set_id (Course_of_dump body) v)).
Proof. done. Qed.

Lemma valid_fields_stored body : valid_fields body → valid_fields (ARequest body).
Proof. done. Qed.

Lemma fields_ok_overwrite body db :
  valid_fields body → fields_ok db → fields_ok (overwrite body db).
Proof.
  intros Hbody Hdb. apply Forall_fmap. eapply Forall_impl; [done|].
  intros e He. simpl. by case_bool_decide.
Qed.

Lemma handle_fields_ok req db : fields_ok db → fields_ok (handle req db).2.
Proof.
  intros Hdb. destruct (handle_cases req db) as [[_ ->]|[Hok ->]]; [done|].
  destruct req as [|k|r|d|body|body|k]; simpl in *; try done.
  - apply validate_ok_iff in Hok. destruct (next_id db); [done|]. simpl.
    apply Forall_app. split; [done|]. by apply Forall_singleton.
  - apply validate_ok_iff in Hok. by apply fields_ok_overwrite.
  - eapply Forall_sublist; [apply remove_first_sublist | done].
Qed.

End fields.

#[export] Hint Resolve handle_wf handle_fields_ok fields_ok_seed
  : registry.

(** ** Sequences of requests *)

Section serve.
Implicit Types (db : list Entry) (req : Request) (reqs : list Request).

Lemma serve_cons req reqs db :
  serve (req :: reqs) db =
  ((handle req db).1 :: (serve reqs (handle req db).2).1,
   (serve reqs (handle req db).2).2).
Proof.
  cbn [serve]. destruct (handle req db) as [resp db']. cbn [fst snd].
  by destruct (serve reqs db') as [resps db''].
Qed.

Lemma length_serve reqs db : length (serve reqs db).1 = length reqs.
Proof.
  revert db. induction reqs as [|req reqs IH]; intros db; [done|].
  rewrite serve_cons. cbn. by rewrite IH.
Qed.

Lemma serve_app reqs1 reqs2 db :
  serve (reqs1 ++ reqs2) db =
  ((serve reqs1 db).1 ++ (serve reqs2 (serve reqs1 db).2).1,
   (serve reqs2 (serve reqs1 db).2).2).
Proof.
  revert db. induction reqs1 as [|req reqs1 IH]; intros db.
  - cbn. by destruct (serve reqs2 db).
  - rewrite <- app_comm_cons, !serve_cons, IH. done.
Qed.

Lemma serve_snoc reqs req db :
  (serve (reqs ++ [req]) db).2 = (handle req (serve reqs db).2).2.
Proof.
  revert db. induction reqs as [|r reqs IH]; intros db.
  - rewrite app_nil_l, serve_cons. done.
  - rewrite <- app_comm_cons, !serve_cons. cbn [snd]. apply IH.
Qed.

Lemma serve_serve_by reqs db : serve reqs db = serve_by handle reqs db.
Proof.
  revert db. induction reqs as [|req reqs IH]; intros db; [done|].
  by rewrite serve_cons, IH.
Qed.

(** The service keeps, from any registry, what each request keeps. *)
Lemma serve_invariant (P : list Entry → Prop) reqs db :
  (∀ req db, P db → P (handle req db).2) → P db → P (serve reqs db).2.
Proof.
  intros Hstep. revert db. induction reqs as [|req reqs IH]; intros db Hdb;
    [done|].
  rewrite serve_cons. cbn [snd]. by apply IH, Hstep.
Qed.

Lemma reachable_serve reqs : reachable (serve reqs courses_db).2.
Proof.
  induction reqs as [|req reqs IH] using rev_ind; [constructor|].
  rewrite serve_snoc. eapply reachable_step; [done|]. apply handle_step.
Qed.

Lemma reachable_inv db :
  reachable db → ∃ reqs, (serve reqs courses_db).2 = db.
Proof.
  induction 1 as [|db req resp db' _ [reqs <-] Hstep%step_handle].
  - by exists [].
  - exists (reqs ++ [req]). by rewrite serve_snoc, Hstep.
Qed.

(** An invariant of the seed that every request keeps holds of every
    reachable registry. *)
Lemma reachable_invariant (P : list Entry → Prop) :
  P courses_db → (∀ req db, P db → P (handle req db).2) →
  ∀ db, reachable db → P db.
Proof.
  intros Hseed Hstep db.
  induction 1 as [|db req resp db' _ IH Hdb'%step_handle]; [done|].
  specialize (Hstep req db IH). by rewrite Hdb' in Hstep.
Qed.

Lemma reachable_is_wf db : reachable db → wf db.
Proof. apply reachable_invariant; auto with registry. Qed.

Lemma reachable_is_fields_ok db : reachable db → fields_ok db.
Proof. apply reachable_invariant; auto with registry. Qed.

End serve.

(** * Properties of the service *)

Section service.
Implicit Types (db : list Entry) (req : Request) (k : Z).



(** C10: [handle], built from the index loops and exceptions of the source,
    implements the service's contract: the transitions of [step] from a
    registry are exactly what [handle] computes there, so every request has
    one outcome and one only. *)
Theorem step_iff_handle db req resp db' :
  step db req resp db' ↔ handle req db = (resp, db').
Proof.
  split; [apply step_handle|].
  intros Heq. pose proof (handle_step req db) as Hstep. by rewrite Heq in Hstep.
Qed.

(** C9: on a well-formed registry no request ends in a server error: the
    status is the route's success status, 404 or 422.  In particular the
    addition in [find_courseID] never meets [None] and no index leaves the
    list. *)
Theorem no_server_error req db :
  wf db → status_code (handle req db).1 ∈ [200; 201; 204; 404; 422].
Proof. apply handle_status_wf. Qed.

Lemma no_server_error_witness :
  status_code (handle (POST_create_course
      (mkCourseRequest None (str_of "Rust") (str_of "Tester") 5 2025))
    courses_db).1 ∈ [200; 201; 204; 404; 422].
Proof. apply no_server_error, wf_seed. Defined.

(** C33: a request answered with a client or server error (status 400 or
    above) leaves the registry exactly as it was, on any registry. *)
Theorem error_leaves_registry req db :
  400 ≤ status_code (handle req db).1 → (handle req db).2 = db.
Proof.
  destruct (handle_cases req db) as [[_ ->]|[_ ->]]; [done|].
  destruct req as [|k|r|d|body|body|k]; simpl; try done.
  - destruct (next_id db); [done|]. simpl. lia.
  - destruct (present (id body) db) eqn:Hp; simpl; [lia|].
    intros _. by apply overwrite_absent.
  - destruct (present (Some k) db) eqn:Hp; simpl; [lia|].
    intros _. by apply remove_first_absent.
Qed.

Lemma error_leaves_registry_witness :
  (handle (DELETE_course 9) courses_db).2 = courses_db.
Proof. apply error_leaves_registry. by vm_compute. Defined.

(** The four GET routes never change the registry. *)
Lemma read_leaves_registry req db :
  is_read req = true → (handle req db).2 = db.
Proof.
  intros Hread. destruct (handle_cases req db) as [[_ ->]|[_ ->]]; [done|].
  by destruct req.
Qed.

Lemma read_leaves_registry_witness :
  (handle (GET_courses_by_rating 5) courses_db).2 = courses_db.
Proof. by apply read_leaves_registry. Defined.

(** The reachable registries are exactly the ones some finite sequence
    of requests leaves behind when served from the seed. *)
Lemma reachable_iff_serve db :
  reachable db ↔ ∃ reqs, (serve reqs courses_db).2 = db.
Proof.
  split; [apply reachable_inv|]. intros [reqs <-]. apply reachable_serve.
Qed.

End service.

(** * Scenarios: what a client observes *)

Section scenarios.
Implicit Types (db : list Entry) (req : Request) (k : Z).

Lemma handle_GET_course k db :
  0 < k →
  handle (GET_course k) db =
  (match get_course_loop k db with
   | Some e => mkResponse 200 (JCourse e)
   | None => not_found_response
   end, db).
Proof. intros Hk%request_errors_GET_course. by rewrite handle_valid. Qed.

Lemma handle_DELETE_course k db :
  0 < k →
  handle (DELETE_course k) db =
  (if present (Some k) db then mkResponse 204 JEmpty
   else not_found_response, remove_first k db).
Proof. intros Hk%request_errors_DELETE_course. by rewrite handle_valid. Qed.

(** GET of an id held by a record of a well-formed registry returns
    exactly that record, with status 200. *)
Lemma get_course_found k e db :
  wf db → e ∈ db → id e = Some k →
  handle (GET_course k) db = (mkResponse 200 (JCourse e), db).
Proof.
  intros Hwf He Hk. rewrite handle_GET_course.
  - by rewrite (get_course_loop_unique k db e).
  - eapply wf_ids_pos; [done|]. apply list_elem_of_omap. eauto.
Qed.

(** GET of a positive id that no record holds answers 404 with the detail
    "Course not found". *)
Lemma get_course_missing k db :
  0 < k → k ∉ ids db →
  handle (GET_course k) db = (not_found_response, db).
Proof.
  intros Hk Hno. rewrite handle_GET_course by done.
  rewrite <- get_course_loop_is_Some, <- eq_None_not_Some in Hno.
  by rewrite Hno.
Qed.

(** C8: on a well-formed registry a valid POST answers 201, appends one
    record carrying the body's fields and a new id that is the last
    record's id plus one, positive and held by no other record; a GET of
    that id then returns the new record. *)
Theorem create_then_get body db :
  wf db → validate body = [] →
  ∃ v, next_id db = inr v ∧ (v ∉ ids db) ∧
    (let new := ACourse (set_id (Course_of_dump body) v) in
     handle (POST_create_course body) db =
       (mkResponse 201 JNull, db ++ [new]) ∧
     handle (GET_course v) (db ++ [new]) =
       (mkResponse 200 (JCourse new), db ++ [new])).
Proof.
  intros Hwf Hbody. destruct (next_id_wf db Hwf) as (v & Hv & Hv0 & Hlt).
  exists v. assert (v ∉ ids db) as Hfresh.
  { intros Hin. eapply Forall_forall in Hlt; [|done]. lia. }
  do 2 (split; [done|]). intros new. split.
  - rewrite handle_valid by done. simpl. by rewrite Hv.
  - rewrite handle_GET_course by done.
    by rewrite (get_course_loop_snoc_fresh _ _ v).
Qed.

Lemma create_then_get_witness :
  ∃ v, next_id courses_db = inr v ∧ (v ∉ ids courses_db) ∧
    (let new := ACourse (set_id (Course_of_dump
       (mkCourseRequest None (str_of "Rust") (str_of "Tester") 5 2025)) v) in
     handle (POST_create_course
       (mkCourseRequest None (str_of "Rust") (str_of "Tester") 5 2025))
       courses_db = (mkResponse 201 JNull, courses_db ++ [new]) ∧
     handle (GET_course v) (courses_db ++ [new]) =
       (mkResponse 200 (JCourse new), courses_db ++ [new])).
Proof. apply create_then_get; [apply wf_seed | reflexivity]. Defined.

(** C5: on a well-formed registry DELETE of a present id answers 204 and
    removes exactly one record; afterwards a GET of the id answers 404, and
    a second DELETE answers 404 and changes nothing. *)
Theorem delete_then_get k db :
  wf db → k ∈ ids db →
  (let db' := remove_first k db in
   handle (DELETE_course k) db = (mkResponse 204 JEmpty, db') ∧
   length db' = pred (length db) ∧
   handle (GET_course k) db' = (not_found_response, db') ∧
   handle (DELETE_course k) db' = (not_found_response, db')).
Proof.
  intros Hwf Hk db'. subst db'. pose proof (wf_ids_pos _ _ Hwf Hk) as Hk0.
  pose proof (proj2 (present_Some_ids k db) Hk) as Hp.
  pose proof (present_remove_first k db Hwf) as Hgone.
  rewrite !handle_DELETE_course, handle_GET_course by done.
  rewrite Hp, Hgone, (proj2 (get_course_loop_None k _) Hgone).
  split_and!; [done|by apply remove_first_length|done|].
  by rewrite remove_first_absent.
Qed.

Lemma delete_then_get_witness :
  (let db' := remove_first 3 courses_db in
   handle (DELETE_course 3) courses_db = (mkResponse 204 JEmpty, db') ∧
   length db' = pred (length courses_db) ∧
   handle (GET_course 3) db' = (not_found_response, db') ∧
   handle (DELETE_course 3) db' = (not_found_response, db')).
Proof.
  apply delete_then_get; [apply wf_seed|]. by apply (bool_decide_unpack _).
Defined.

(** C6: on a well-formed registry a valid PUT whose id is present answers
    204 and replaces the record at the one position holding that id by the
    request, leaving every other position as it was; a GET of the id then
    returns the request's values. *)
Theorem update_then_get body k db :
  wf db → validate body = [] → id body = Some k → k ∈ ids db →
  ∃ i e, db !! i = Some e ∧ id e = Some k ∧
    (let db' := <[i := ARequest body]> db in
     handle (PUT_update_course body) db = (mkResponse 204 JEmpty, db') ∧
     handle (GET_course k) db' =
       (mkResponse 200 (JCourse (ARequest body)), db')).
Proof.
  intros Hwf Hbody Hid Hk. destruct (ids_lookup _ _ Hk) as (i & e & Hi & He).
  exists i, e. do 2 (split; [done|]). intros db'. unfold db'.
  rewrite <- (overwrite_single body db i e) by congruence. split.
  - rewrite handle_valid by done. simpl.
    by rewrite Hid, (proj2 (present_Some_ids k db) Hk).
  - rewrite handle_GET_course by eauto using wf_ids_pos.
    rewrite get_course_loop_overwrite; [done..|].
    by apply present_Some_ids.
Qed.

Lemma update_then_get_witness :
  let body := mkCourseRequest (Some 2) (str_of "Kotlin 2") (str_of "Ufuk")
                4 2027 in
  ∃ i e, courses_db !! i = Some e ∧ id e = Some 2 ∧
    (let db' := <[i := ARequest body]> courses_db in
     handle (PUT_update_course body) courses_db =
       (mkResponse 204 JEmpty, db') ∧
     handle (GET_course 2) db' =
       (mkResponse 200 (JCourse (ARequest body)), db')).
Proof.
  apply update_then_get; [apply wf_seed|reflexivity|reflexivity|].
  by apply (bool_decide_unpack _).
Defined.

(** The request object an update stored is in the registry. *)
Lemma update_stores_request body k db :
  wf db → id body = Some k → k ∈ ids db →
  request_errors (PUT_update_course body) = [] →
  (handle (PUT_update_course body) db).2 = overwrite body db ∧
  ARequest body ∈ overwrite body db.
Proof.
  intros Hwf Hid Hk Hbody. rewrite handle_valid by done. split; [done|].
  destruct (ids_lookup _ _ Hk) as (i & e & Hi & He).
  rewrite (overwrite_single body db i e) by congruence.
  apply list_elem_of_lookup. exists i.
  by rewrite list_lookup_insert_eq by eauto using lookup_lt_Some.
Qed.

(** C7: functional - the filters read the attributes of a stored request
    object as the client sent them.  After a valid PUT with a present id,
    the rating filter returns the stored request exactly for the rating
    of the body and the date filter exactly for its published date: the
    reads [course.rating] and [course.published_date] of lines 70 and 79
    find, on the [CourseRequest] object that line 100 stored, the fields
    of those names. *)
Theorem update_then_filter k t n r d r' d' db :
  let body := mkCourseRequest (Some k) t n r d in
  wf db → validate body = [] → k ∈ ids db →
  1 ≤ r' ≤ 5 → 2006 ≤ d' ≤ 2039 →
  let db' := (handle (PUT_update_course body) db).2 in
  ∃ by_rating by_date,
    handle (GET_courses_by_rating r') db' =
      (mkResponse 200 (JCourses by_rating), db') ∧
    handle (GET_courses_by_publish_date d') db' =
      (mkResponse 200 (JCourses by_date), db') ∧
    (ARequest body ∈ by_rating ↔ r' = r) ∧
    (ARequest body ∈ by_date ↔ d' = d).
Proof.
  intros body Hwf Hbody Hk Hr Hd db'.
  destruct (update_stores_request body k db) as [Hdb' Hin]; [done..|].
  fold db' in Hdb'. rewrite <- Hdb' in Hin. clearbody db'.
  eexists _, _.
  rewrite !handle_valid
    by (by apply request_errors_by_rating || by apply request_errors_by_publish_date).
  cbn [route_spec]. split_and!; [done..| |];
    rewrite list_elem_of_filter; cbn; naive_solver.
Qed.

Lemma update_then_filter_witness :
  let body := mkCourseRequest (Some 2) (str_of "Kotlin 2") (str_of "Ufuk")
                4 2027 in
  let db' := (handle (PUT_update_course body) courses_db).2 in
  ∃ by_rating by_date,
    handle (GET_courses_by_rating 4) db' =
      (mkResponse 200 (JCourses by_rating), db') ∧
    handle (GET_courses_by_publish_date 2026) db' =
      (mkResponse 200 (JCourses by_date), db') ∧
    (ARequest body ∈ by_rating ↔ 4 = 4) ∧
    (ARequest body ∈ by_date ↔ 2026 = 2027).
Proof.
  apply (update_then_filter 2 (str_of "Kotlin 2") (str_of "Ufuk") 4 2027
           4 2026 courses_db); [apply wf_seed|reflexivity| |lia|lia].
  by apply (bool_decide_unpack _).
Defined.

(** C34: a valid PUT whose id no record holds answers 404 and leaves the
    registry unchanged; on a well-formed registry that includes every PUT
    that carries no id at all. *)
Theorem update_missing body db :
  validate body = [] →
  present (id body) db = false ∨ (wf db ∧ id body = None) →
  handle (PUT_update_course body) db = (not_found_response, db).
Proof.
  intros Hbody Habsent. rewrite handle_valid by done. simpl.
  assert (present (id body) db = false) as Hp.
  { destruct Habsent as [?|[(Hsome & _) Hnone]]; [done|].
    rewrite Hnone. apply present_false. intros e He Hid.
    eapply Forall_forall in Hsome; [|done]. rewrite Hid in Hsome.
    by destruct Hsome. }
  by rewrite Hp, overwrite_absent.
Qed.

Lemma update_missing_witness :
  handle (PUT_update_course
    (mkCourseRequest None (str_of "Rust") (str_of "Tester") 5 2025))
    courses_db = (not_found_response, courses_db).
Proof.
  apply update_missing; [reflexivity|]. right. split; [apply wf_seed|done].
Defined.

End scenarios.

(** * The life of an id *)

Section lifecycle.
Implicit Types (db : list Entry) (e : Entry) (k v : Z).

(** C20: An id is handed out again once the record that held it is gone.
    After the last record of a well-formed registry, of id [k], is deleted,
    a created record receives an id that is at most [k], one that the
    service has handed out before; it is [k] again when the record before
    held [k - 1], as in the seed.  A client that kept the id [k] then reads
    another course under it. *)
Theorem id_reused_after_delete db e k body :
  wf (db ++ [e]) → id e = Some k → validate body = [] →
  ∃ v, 0 < v ≤ k ∧ (last (ids db) = Some (k - 1) → v = k) ∧
    serve [DELETE_course k; POST_create_course body] (db ++ [e]) =
    ([mkResponse 204 JEmpty; mkResponse 201 JNull],
     db ++ [ACourse (set_id (Course_of_dump body) v)]).
Proof.
  intros Hwf Hk Hbody.
  destruct (wf_snoc_inv _ _ _ Hwf Hk) as (Hdb & Hk0 & Hlt).
  destruct (next_id_wf db Hdb) as (v & Hv & Hv0 & _). exists v.
  assert (present (Some k) (db ++ [e]) = true) as Hp.
  { apply present_Some_ids. rewrite (ids_snoc _ _ k) by done.
    apply elem_of_app. right. by apply list_elem_of_singleton. }
  assert (v ≤ k) as Hvk.
  { destruct (next_id_last _ _ Hv) as [[_ ->]|Hlast]; [lia|].
    apply last_Some_elem_of in Hlast. eapply Forall_forall in Hlt; [|done].
    lia. }
  split; [lia|]. split.
  - intros Hlast. destruct (next_id_last _ _ Hv) as [[-> _]|Hlast'];
      [by cbn in Hlast|].
    rewrite Hlast in Hlast'. simplify_eq. lia.
  - rewrite !serve_cons, handle_DELETE_course, Hp by done. cbn [fst snd serve].
    rewrite (remove_first_last _ _ k), handle_valid by done.
    cbn [route_spec]. by rewrite Hv.
Qed.

Lemma id_reused_after_delete_witness :
  let body := mkCourseRequest None (str_of "Rust") (str_of "Ferris") 5 2015 in
  let db := take 5 courses_db in
  let e := ACourse (mkCourse (Some 6) (str_of "Java") (str_of "Kaan") 2 2039) in
  wf (db ++ [e]) ∧
  ∃ v, 0 < v ≤ 6 ∧ (last (ids db) = Some (6 - 1) → v = 6) ∧
    serve [DELETE_course 6; POST_create_course body] (db ++ [e]) =
    ([mkResponse 204 JEmpty; mkResponse 201 JNull],
     db ++ [ACourse (set_id (Course_of_dump body) v)]).
Proof.
  intros body db e. split; [apply wf_seed|].
  exact (id_reused_after_delete db e 6 body wf_seed eq_refl eq_refl).
Defined.

(** Every record can be removed: deleting the ids of a well-formed
    registry one after the other is answered 204 each time and leaves the
    empty registry, where [create_course] starts again at id 1. *)
Lemma registry_can_be_emptied db :
  wf db →
  serve (DELETE_course <$> ids db) db =
  (replicate (length db) (mkResponse 204 JEmpty), []).
Proof.
  induction db as [|e db IH]; [done|].
  intros (k & Hk & Hk0 & _ & Hdb)%wf_cons_inv.
  rewrite (ids_cons_Some _ _ k), fmap_cons, serve_cons by done.
  rewrite handle_DELETE_course, present_cons, Hk by done.
  cbn [remove_first fst snd length replicate orb].
  rewrite Hk, !bool_decide_eq_true_2 by done. cbn [orb fst snd].
  by rewrite IH.
Qed.

End lifecycle.

(** * Filters, bounds and the published date *)

Section filters.
Implicit Types (db : list Entry) (req : Request) (k r d : Z).

(** C40: for a rating from 1 to 5 the rating filter answers 200 with the
    records whose rating equals the query, in registry order (the empty
    list when there is none), and changes nothing. *)
Theorem by_rating_spec r db :
  1 ≤ r ≤ 5 →
  ∃ l, handle (GET_courses_by_rating r) db = (mkResponse 200 (JCourses l), db) ∧
    l `sublist_of` db ∧ ∀ e, e ∈ l ↔ e ∈ db ∧ rating e = r.
Proof.
  intros Hr. exists (filter (λ e, rating e = r) db). split_and!.
  - rewrite handle_valid; [done|]. cbn [request_errors].
    by rewrite (proj2 (check_course_rating_query r) Hr).
  - apply sublist_filter.
  - intros e. rewrite list_elem_of_filter. tauto.
Qed.

Lemma by_rating_spec_witness :
  ∃ l, handle (GET_courses_by_rating 5) courses_db =
         (mkResponse 200 (JCourses l), courses_db) ∧
    l `sublist_of` courses_db ∧ ∀ e, e ∈ l ↔ e ∈ courses_db ∧ rating e = 5.
Proof. apply by_rating_spec. lia. Defined.

(** The scenario of the specification: on the seed the rating-5 filter
    returns the records with ids 1, 2 and 4, in that order. *)
Example by_rating_seed :
  match (handle (GET_courses_by_rating 5) courses_db).1 with
  | mkResponse 200 (JCourses l) => ids l = [1; 2; 4]
  | _ => False
  end.
Proof. vm_compute. reflexivity. Qed.

(** C36: the date filter admits exactly the years 2006 to 2039, the rating
    filter the ratings 1 to 5, and the two routes with a path id the
    positive ids; any other value, and no admitted one, is answered 422. *)
Theorem parameter_bounds k r d db :
  (status_code (handle (GET_courses_by_publish_date d) db).1 = 422 ↔
     ¬ (2006 ≤ d ≤ 2039)) ∧
  (status_code (handle (GET_courses_by_rating r) db).1 = 422 ↔
     ¬ (1 ≤ r ≤ 5)) ∧
  (status_code (handle (GET_course k) db).1 = 422 ↔ ¬ (0 < k)) ∧
  (status_code (handle (DELETE_course k) db).1 = 422 ↔ ¬ (0 < k)).
Proof.
  split_and!; rewrite status_422_iff;
    [rewrite request_errors_by_publish_date|rewrite request_errors_by_rating
    |rewrite request_errors_GET_course|rewrite request_errors_DELETE_course];
    done.
Qed.

(** C37: the published date of a body is not checked: whatever integer it
    is, a body whose other fields are valid is accepted, answered 201 on a
    well-formed registry, and stored with that date. *)
Theorem published_date_unchecked body db :
  wf db → valid_fields body →
  (handle (POST_create_course body) db).1 = mkResponse 201 JNull ∧
  ∃ e, last (handle (POST_create_course body) db).2 = Some e ∧
       published_date e = published_date body.
Proof.
  intros Hwf Hbody%validate_ok_iff.
  destruct (create_next_id body db Hwf Hbody) as (v & ->). simpl.
  split; [done|]. eexists. by rewrite last_snoc.
Qed.

Lemma published_date_unchecked_witness :
  let body := mkCourseRequest None (str_of "Cobol") (str_of "Tester") 5 1889 in
  validate_intended body = ["published_date"] ∧
  (handle (POST_create_course body) courses_db).1 = mkResponse 201 JNull ∧
  ∃ e, last (handle (POST_create_course body) courses_db).2 = Some e ∧
       published_date e = 1889.
Proof.
  split; [reflexivity|].
  apply published_date_unchecked; [apply wf_seed|].
  by apply (bool_decide_unpack _).
Defined.

(** The creation example of the specification (title "Go") is not
    accepted: the title has two characters, below the declared minimum of
    three, so the request is answered 422 and nothing is created. *)
Lemma spec_example_rejected db :
  handle (POST_create_course
    (mkCourseRequest None (str_of "Go") (str_of "Tester") 5 2025)) db =
  (mkResponse 422 (JValidation ["title"]), db).
Proof. by rewrite handle_invalid. Qed.

(** A request leaves the lookup of every id it does not address as it
    was: on a well-formed registry, for an id present before, GET returns
    the same record after any request whose target is another id. *)
Lemma lookup_frame req k db :
  wf db → k ∈ ids db → target req ≠ Some k →
  get_course_loop k (handle req db).2 = get_course_loop k db.
Proof.
  intros Hwf Hk Hne. destruct (handle_cases req db) as [[_ ->]|[_ ->]]; [done|].
  destruct req as [|k'|r|d|body|body|k']; simpl in *; try done.
  - destruct (next_id db); [done|]. by apply get_course_loop_snoc_old.
  - by apply get_course_loop_overwrite_ne.
  - apply get_course_loop_remove_first_ne. congruence.
Qed.

Lemma lookup_frame_witness :
  get_course_loop 2 (handle (DELETE_course 1) courses_db).2 =
  get_course_loop 2 courses_db.
Proof.
  apply lookup_frame; [apply wf_seed| |done]. by apply (bool_decide_unpack _).
Defined.

End filters.
