(* ===== verification/Observe.v ===== *)
(** * What a client can observe: the class of a stored record is not

    [update_course] stores the request object itself, so after an update
    [courses_db] mixes [Course] and [CourseRequest] objects.  A response
    shows a record through its five attributes only, whichever class it has.
    This file makes that precise: two items are equivalent when their
    attributes agree, registries and responses are equivalent pointwise, and
    every operation of the registry, [handle] and [serve] included, maps
    equivalent registries to equivalent results.  Hence the service behaves
    as if every stored record were a [Course]. *)

From S2P Require Import Prelude Python Course Validation.
From S2P Require Import Registry Invariant App.

#[local] Set Warnings "-clear-no-such-hyp".

Local Open Scope Z_scope.

(** ** Equivalence of items, bodies and responses *)

(** The attributes of an object, as a response shows them. *)
Definition attrs_of `{Attrs T} (x : T) : option Z * str * str * Z * Z :=
  (id x, title x, instructor x, rating x, published_date x).

(** The [Course] with the attributes of an item. *)
Definition as_course (e : Entry) : Entry :=
  ACourse (mkCourse (id e) (title e) (instructor e) (rating e)
             (published_date e)).

#[export] Instance Entry_equiv : Equiv Entry :=
  λ e1 e2, attrs_of e1 = attrs_of e2.

#[export] Instance Body_equiv : Equiv Body :=
  λ b1 b2,
    match b1, b2 with
    | JCourse e1, JCourse e2 => e1 ≡ e2
    | JCourses l1, JCourses l2 => l1 ≡ l2
    | _, _ => b1 = b2
    end.

#[export] Instance Response_equiv : Equiv Response :=
  λ r1 r2, status_code r1 = status_code r2 ∧ body r1 ≡ body r2.

(** The registry with every item turned into a [Course]. *)
Definition normalise (db : list Entry) : list Entry := as_course <$> db.

(** The service that turns every stored item into a [Course] before it
    handles a request: what [serve] would be if [update_course] stored a
    [Course] built from the request, as [create_course] does. *)
Fixpoint serve_courses (reqs : list Request) (db : list Entry)
    : list Response * list Entry :=
  match reqs with
  | [] => ([], normalise db)
  | req :: reqs' =>
      let '(resp, db') := handle req (normalise db) in
      let '(resps, db'') := serve_courses reqs' db' in
      (resp :: resps, db'')
  end.

(** * Theorems *)

(** Unfolds the equivalence of two bodies to that of their contents. *)
Ltac unfold_body :=
  repeat match goal with
    | H : @equiv Body _ _ _ |- _ => red in H; cbn [Body_equiv] in H
    | |- @equiv Body _ _ _ => red; cbn [Body_equiv]
    end.

(** ** The equivalences are equivalences *)

#[export] Instance Entry_equivalence : Equivalence (≡@{Entry}).
Proof.
  unfold equiv, Entry_equiv. split; [by intros ?|by intros ??|].
  intros ???. apply eq_trans.
Qed.

#[export] Instance Body_equivalence : Equivalence (≡@{Body}).
Proof.
  split.
  - intros []; unfold_body; done.
  - intros [] [] H; unfold_body; by simplify_eq.
  - intros [] [] [] H1 H2; unfold_body; simplify_eq; try done; by etrans.
Qed.

#[export] Instance Response_equivalence : Equivalence (≡@{Response}).
Proof.
  unfold equiv, Response_equiv. split.
  - by intros ?.
  - by intros ?? [-> ->].
  - by intros ??? [-> ->] [-> ->].
Qed.

(** ** The attribute reads respect the equivalence *)

Section attrs_proper.

Lemma Entry_equiv_attrs (e1 e2 : Entry) :
  e1 ≡ e2 ↔
  id e1 = id e2 ∧ title e1 = title e2 ∧ instructor e1 = instructor e2 ∧
  rating e1 = rating e2 ∧ published_date e1 = published_date e2.
Proof.
  unfold equiv, Entry_equiv, attrs_of. split; [by intros [= -> -> -> -> ->]|].
  by intros (-> & -> & -> & -> & ->).
Qed.

#[export] Instance id_proper : Proper ((≡@{Entry}) ==> (=)) id.
Proof. by intros ?? (? & _)%Entry_equiv_attrs. Qed.

#[export] Instance rating_proper : Proper ((≡@{Entry}) ==> (=)) rating.
Proof. by intros ?? (_ & _ & _ & ? & _)%Entry_equiv_attrs. Qed.

#[export] Instance published_date_proper :
  Proper ((≡@{Entry}) ==> (=)) published_date.
Proof. by intros ?? (_ & _ & _ & _ & ?)%Entry_equiv_attrs. Qed.

Lemma as_course_equiv e : as_course e ≡ e.
Proof. done. Qed.

Lemma ARequest_equiv body v :
  id body = Some v →
  ARequest body ≡ ACourse (set_id (Course_of_dump body) v).
Proof. intros Hid. apply Entry_equiv_attrs. by rewrite id_ARequest, Hid. Qed.

End attrs_proper.

(** ** The operations of the registry respect the equivalence *)

Section registry_proper.

Implicit Types (k : Z) (db : list Entry) (body : CourseRequest).

Lemma normalise_equiv db : normalise db ≡ db.
Proof.
  unfold normalise. induction db as [|e db IH]; csimpl; [done|].
  by constructor.
Qed.

#[export] Instance get_course_loop_proper k :
  Proper ((≡) ==> (≡)) (get_course_loop k).
Proof.
  intros db1 db2 Hdb. induction Hdb as [|e1 e2 db1 db2 He _ IH]; [done|].
  cbn [get_course_loop]. rewrite (id_proper _ _ He).
  case_bool_decide; [by constructor|done].
Qed.

#[export] Instance present_proper ok : Proper ((≡) ==> (=)) (present ok).
Proof.
  intros db1 db2 Hdb. unfold present. apply bool_decide_ext.
  induction Hdb as [|e1 e2 db1 db2 He _ IH]; [by rewrite !Exists_nil|].
  by rewrite !Exists_cons, (id_proper _ _ He), IH.
Qed.

#[export] Instance overwrite_proper body :
  Proper ((≡) ==> (≡)) (overwrite body).
Proof.
  intros db1 db2 Hdb. unfold overwrite.
  induction Hdb as [|e1 e2 db1 db2 He _ IH]; csimpl; [done|].
  constructor; [|done]. rewrite (id_proper _ _ He). by case_bool_decide.
Qed.

#[export] Instance remove_first_proper k :
  Proper ((≡) ==> (≡)) (remove_first k).
Proof.
  intros db1 db2 Hdb. induction Hdb as [|e1 e2 db1 db2 He Hdb IH]; [done|].
  cbn [remove_first]. rewrite (id_proper _ _ He).
  case_bool_decide; [done|by constructor].
Qed.

#[export] Instance next_id_proper : Proper ((≡) ==> (=)) next_id.
Proof.
  intros db1 db2 Hdb. unfold next_id.
  destruct (last_proper _ _ Hdb) as [e1 e2 He|]; [|done].
  by rewrite (id_proper _ _ He).
Qed.

#[export] Instance by_rating_proper (r : Z) :
  Proper ((≡@{list Entry}) ==> (≡@{list Entry}))
    (filter (λ e : Entry, rating e = r)).
Proof. apply list_filter_proper. by intros e1 e2 ->. Qed.

#[export] Instance by_publish_date_proper (d : Z) :
  Proper ((≡@{list Entry}) ==> (≡@{list Entry}))
    (filter (λ e : Entry, published_date e = d)).
Proof. apply list_filter_proper. by intros e1 e2 ->. Qed.

End registry_proper.

(** ** The service respects the equivalence *)

Section service_proper.

Lemma Response_equiv_same status b1 b2 :
  b1 ≡ b2 → mkResponse status b1 ≡ mkResponse status b2.
Proof. by split. Qed.

#[export] Instance route_spec_proper req :
  Proper ((≡) ==> (≡)) (route_spec req).
Proof.
  intros db1 db2 Hdb.
  destruct req as [|k|r|d|body|body|k]; cbn [route_spec].
  - by split; [apply Response_equiv_same|].
  - split; [|done]. cbn [fst].
    by destruct (get_course_loop_proper k _ _ Hdb);
      [apply Response_equiv_same|].
  - split; [|done]. by apply Response_equiv_same, by_rating_proper.
  - split; [|done]. by apply Response_equiv_same, by_publish_date_proper.
  - rewrite (next_id_proper _ _ Hdb). destruct (next_id db2); [done|].
    split; [done|]. by apply app_proper.
  - rewrite (present_proper _ _ _ Hdb). split; [done|].
    by apply overwrite_proper.
  - rewrite (present_proper _ _ _ Hdb). split; [done|].
    by apply remove_first_proper.
Qed.

#[export] Instance handle_proper req : Proper ((≡) ==> (≡)) (handle req).
Proof.
  intros db1 db2 Hdb. unfold handle.
  destruct (request_errors req); [|done].
  rewrite !route_eq. by apply route_spec_proper.
Qed.

#[export] Instance serve_proper reqs : Proper ((≡) ==> (≡)) (serve reqs).
Proof.
  induction reqs as [|req reqs IH]; intros db1 db2 Hdb; [done|].
  rewrite !serve_cons. destruct (handle_proper req _ _ Hdb) as [Hresp Hdb'].
  destruct (IH _ _ Hdb') as [Hresps Hdb'']. by split; [constructor|].
Qed.

End service_proper.

(** ** What a client observes *)

Section observations.

Lemma serve_courses_cons req reqs db :
  serve_courses (req :: reqs) db =
  ((handle req (normalise db)).1 ::
     (serve_courses reqs (handle req (normalise db)).2).1,
   (serve_courses reqs (handle req (normalise db)).2).2).
Proof.
  cbn [serve_courses]. destruct (handle req (normalise db)) as [resp db'].
  cbn [fst snd]. by destruct (serve_courses reqs db') as [resps db''].
Qed.

Lemma serve_courses_equiv reqs db1 db2 :
  db1 ≡ db2 → serve reqs db1 ≡ serve_courses reqs db2.
Proof.
  revert db1 db2. induction reqs as [|req reqs IH]; intros db1 db2 Hdb.
  - split; [done|]. cbn [serve serve_courses snd].
    by rewrite normalise_equiv.
  - rewrite serve_cons, serve_courses_cons.
    assert (handle req db1 ≡ handle req (normalise db2)) as [Hresp Hdb'].
    { apply handle_proper. by rewrite normalise_equiv. }
    destruct (IH _ _ Hdb') as [Hresps Hdb'']. by split; [constructor|].
Qed.

Lemma normalise_eq_equiv db1 db2 :
  normalise db1 = normalise db2 → db1 ≡ db2.
Proof.
  intros Heq. by rewrite <- (normalise_equiv db1), Heq, normalise_equiv.
Qed.

Lemma equiv_normalise_eq db1 db2 :
  db1 ≡ db2 → normalise db1 = normalise db2.
Proof.
  unfold normalise. induction 1 as [|e1 e2 db1 db2 He _ IH]; [done|].
  apply Entry_equiv_attrs in He as (Hi & Ht & Hn & Hr & Hd). csimpl.
  unfold as_course at 1 3. by rewrite Hi, Ht, Hn, Hr, Hd, IH.
Qed.

(** Two registries that are the same once every item is read as a
    [Course], that is, whose items agree on every attribute whatever the
    class of each ([Course] or the [CourseRequest] an update stored), are
    indistinguishable: any sequence of requests is answered with the same
    status codes and with bodies that agree on every attribute, and leaves
    registries that again agree on every attribute. *)
Lemma class_unobservable reqs db1 db2 :
  normalise db1 = normalise db2 → serve reqs db1 ≡ serve reqs db2.
Proof. intros Hdb%normalise_eq_equiv. by apply serve_proper. Qed.

Lemma class_unobservable_witness :
  let body := mkCourseRequest (Some 1) (str_of "Rust") (str_of "Ferris")
                5 2015 in
  let reqs := [GET_course 1; PUT_update_course body; GET_courses;
               POST_create_course body; DELETE_course 1] in
  normalise [ARequest body] = normalise [ACourse (Course_of_dump body)] ∧
  serve reqs [ARequest body] ≡ serve reqs [ACourse (Course_of_dump body)].
Proof.
  intros body reqs. split; [reflexivity|].
  exact (class_unobservable reqs [ARequest body]
           [ACourse (Course_of_dump body)] eq_refl).
Defined.

(** The service answers every sequence of requests, from every
    registry, as the service that stores [Course] objects only does: that
    [update_course] stores the request object itself changes no status code
    and no attribute of any record in a response or in the registry. *)
Lemma serve_as_courses reqs db : serve reqs db ≡ serve_courses reqs db.
Proof. by apply serve_courses_equiv. Qed.

End observations.
