(* ===== verification/Store.v ===== *)
(** * The registry as a finite map, and the service as a machine on it

    The specification speaks of a registry of records with unique ids that
    one looks up, replaces and removes by id.  This file states that contract
    on a finite map from id to record ([gmap Z Entry]): a transition relation
    [astep] with no server error and no list positions in it.  The list
    [courses_db] of the source represents the map [abs db]; under the
    invariant [wf] every transition of the service on the list is a
    transition of the machine on the map, and conversely, so the linear scans
    of [main.py] implement the map operations. *)

From stdpp Require Import gmap.
From S2P Require Import Prelude Python Course Validation.
From S2P Require Import Registry Invariant App.

#[local] Set Warnings "-clear-no-such-hyp".

Local Open Scope Z_scope.

(** ** The map a registry represents *)

(** Each item is bound at its id; where two items share an id the first one
    is bound, as the scan of [get_course] finds the first. *)
Fixpoint abs (db : list Entry) : gmap Z Entry :=
  match db with
  | [] => ∅
  | e :: db' =>
      match id e with
      | Some k => <[k := e]> (abs db')
      | None => abs db'
      end
  end.

(** ** The abstract machine *)

(** Every cell of the map holds a record that carries the cell's id, a
    positive integer. *)
Definition store_ok (m : gmap Z Entry) : Prop :=
  ∀ k e, m !! k = Some e → id e = Some k ∧ 0 < k.

(** The order of two records by id. *)
Definition id_lt (e1 e2 : Entry) : Prop :=
  ∃ k1 k2, id e1 = Some k1 ∧ id e2 = Some k2 ∧ k1 < k2.

(** [l] lists the records of [m] by increasing id. *)
Definition lists (m : gmap Z Entry) (l : list Entry) : Prop :=
  StronglySorted id_lt l ∧ ∀ e, e ∈ l ↔ ∃ k, m !! k = Some e.

(** The id a new record receives: 1 in the empty map, else one more than the
    greatest id bound. *)
Definition fresh (m : gmap Z Entry) (v : Z) : Prop :=
  (m = ∅ ∧ v = 1) ∨
  (is_Some (m !! (v - 1)) ∧ ∀ k, is_Some (m !! k) → k < v).

(** The records of a map with a given rating, or published date. *)
Definition with_rating (r : Z) (m : gmap Z Entry) : gmap Z Entry :=
  filter (λ kv, rating kv.2 = r) m.

Definition with_published_date (d : Z) (m : gmap Z Entry) : gmap Z Entry :=
  filter (λ kv, published_date kv.2 = d) m.

(** The contract of the service on the map: one rule per outcome. *)
Inductive astep (m : gmap Z Entry)
    : Request → Response → gmap Z Entry → Prop :=
| astep_invalid req :
    request_errors req ≠ [] →
    astep m req (mkResponse 422 (JValidation (request_errors req))) m
| astep_get_all l :
    lists m l → astep m GET_courses (mkResponse 200 (JCourses l)) m
| astep_get k e :
    0 < k → m !! k = Some e →
    astep m (GET_course k) (mkResponse 200 (JCourse e)) m
| astep_get_missing k :
    0 < k → m !! k = None → astep m (GET_course k) not_found_response m
| astep_by_rating r l :
    1 ≤ r ≤ 5 → lists (with_rating r m) l →
    astep m (GET_courses_by_rating r) (mkResponse 200 (JCourses l)) m
| astep_by_publish_date d l :
    2006 ≤ d ≤ 2039 → lists (with_published_date d m) l →
    astep m (GET_courses_by_publish_date d) (mkResponse 200 (JCourses l)) m
| astep_create body v :
    validate body = [] → fresh m v →
    astep m (POST_create_course body) (mkResponse 201 JNull)
      (<[v := ACourse (set_id (Course_of_dump body) v)]> m)
| astep_update body k :
    validate body = [] → id body = Some k → is_Some (m !! k) →
    astep m (PUT_update_course body) (mkResponse 204 JEmpty)
      (<[k := ARequest body]> m)
| astep_update_missing body :
    validate body = [] → (∀ k, id body = Some k → m !! k = None) →
    astep m (PUT_update_course body) not_found_response m
| astep_delete k :
    0 < k → is_Some (m !! k) →
    astep m (DELETE_course k) (mkResponse 204 JEmpty) (delete k m)
| astep_delete_missing k :
    0 < k → m !! k = None →
    astep m (DELETE_course k) not_found_response m.

(** The maps the machine can be in, from the map of the seed. *)
Inductive areachable : gmap Z Entry → Prop :=
| areachable_seed : areachable (abs courses_db)
| areachable_step m req resp m' :
    areachable m → astep m req resp m' → areachable m'.

(** * Theorems *)

(** ** The map of a registry *)

Section abstraction.
Implicit Types (db : list Entry) (e : Entry) (k v : Z) (m : gmap Z Entry).

Lemma abs_cons_Some e db k :
  id e = Some k → abs (e :: db) = <[k := e]> (abs db).
Proof. intros Hk. cbn [abs]. by rewrite Hk. Qed.

(** Looking an id up in the map is the scan of [get_course]. *)
Lemma abs_lookup db k : abs db !! k = get_course_loop k db.
Proof.
  induction db as [|e db IH]; [done|]. cbn [abs get_course_loop].
  destruct (id e) as [k'|] eqn:He.
  - case_bool_decide; simplify_eq.
    + by rewrite lookup_insert_eq.
    + rewrite lookup_insert_ne by congruence. done.
  - by rewrite bool_decide_eq_false_2.
Qed.

Lemma abs_is_Some db k : is_Some (abs db !! k) ↔ k ∈ ids db.
Proof. rewrite abs_lookup. apply get_course_loop_is_Some. Qed.

Lemma abs_None db k : abs db !! k = None ↔ present (Some k) db = false.
Proof. rewrite abs_lookup. apply get_course_loop_None. Qed.

Lemma abs_store_ok db : wf db → store_ok (abs db).
Proof.
  intros Hwf k e. rewrite abs_lookup. intros He.
  pose proof (get_course_loop_Some _ _ _ He) as [_ Hid]. split; [done|].
  apply (wf_ids_pos db); [done|]. apply get_course_loop_is_Some. by eexists.
Qed.

End abstraction.

(** ** The list operations are the map operations *)

Section operations.
Implicit Types (db : list Entry) (e : Entry) (k v : Z) (m : gmap Z Entry).
Implicit Types (body : CourseRequest).

(** Appending a record with an id not yet present binds that id. *)
Lemma abs_snoc db e v :
  v ∉ ids db → id e = Some v → abs (db ++ [e]) = <[v := e]> (abs db).
Proof.
  intros Hv He. apply map_eq. intros k. rewrite abs_lookup.
  destruct (decide (k = v)) as [->|Hk].
  - by rewrite lookup_insert_eq, get_course_loop_snoc_fresh.
  - rewrite lookup_insert_ne, abs_lookup, get_course_loop_app by done.
    destruct (get_course_loop k db); [done|]. cbn [get_course_loop].
    rewrite bool_decide_eq_false_2; [done|]. rewrite He. congruence.
Qed.

(** Overwriting the records of a present id rebinds that id. *)
Lemma abs_overwrite body db k :
  id body = Some k → k ∈ ids db →
  abs (overwrite body db) = <[k := ARequest body]> (abs db).
Proof.
  intros Hid Hk. apply map_eq. intros k'. rewrite abs_lookup.
  destruct (decide (k' = k)) as [->|Hk'].
  - rewrite lookup_insert_eq. apply get_course_loop_overwrite; [done|].
    by apply present_Some_ids.
  - rewrite lookup_insert_ne, abs_lookup by done.
    apply get_course_loop_overwrite_ne. rewrite Hid. congruence.
Qed.

(** Removing the first record of an id unbinds it: under [wf] there is no
    second record of that id to take its place. *)
Lemma abs_remove_first db k :
  wf db → abs (remove_first k db) = delete k (abs db).
Proof.
  intros Hwf. apply map_eq. intros k'. destruct (decide (k' = k)) as [->|Hk'].
  - rewrite lookup_delete_eq. by apply abs_None, present_remove_first.
  - rewrite lookup_delete_ne, !abs_lookup by done.
    by apply get_course_loop_remove_first_ne.
Qed.

(** The id [find_courseID] assigns is the one the map asks for. *)
Lemma abs_fresh db v : wf db → next_id db = inr v → fresh (abs db) v.
Proof.
  intros Hwf Hv. destruct (next_id_wf db Hwf) as (v' & Hv' & _ & Hlt).
  rewrite Hv in Hv'. simplify_eq.
  destruct (next_id_last _ _ Hv) as [[-> ->]|Hlast]; [by left|right]. split.
  - by apply abs_is_Some, last_Some_elem_of.
  - intros k Hk%abs_is_Some. by eapply Forall_forall in Hlt.
Qed.

End operations.

(** ** Listings *)

Section listings.
Implicit Types (db l : list Entry) (e : Entry) (k : Z) (m : gmap Z Entry).

#[local] Instance id_lt_irreflexive : Irreflexive id_lt.
Proof. intros e (k1 & k2 & H1 & H2 & Hlt). simplify_eq. lia. Qed.

Lemma id_lt_asym e1 e2 : id_lt e1 e2 → id_lt e2 e1 → e1 = e2.
Proof.
  intros (k1 & k2 & H1 & H2 & Hlt) (k2' & k1' & H2' & H1' & Hlt').
  simplify_eq. lia.
Qed.

(** A well-formed registry is ordered by id. *)
Lemma wf_sorted db : wf db → StronglySorted id_lt db.
Proof.
  induction db as [|e db IH]; [constructor|].
  intros Hwf. pose proof Hwf as (k & Hk & _ & Hlt & Hdb)%wf_cons_inv.
  constructor; [by apply IH|]. apply Forall_forall. intros e' He'.
  destruct Hdb as (Hsome & _).
  eapply Forall_forall in Hsome as [k' Hk']; [|done].
  exists k, k'. split_and!; [done..|].
  eapply Forall_forall in Hlt; [done|].
  apply list_elem_of_omap. by exists e'.
Qed.

(** Under [wf] the registry is the listing of its map. *)
Lemma abs_lists db : wf db → lists (abs db) db.
Proof.
  intros Hwf. split; [by apply wf_sorted|]. intros e. split.
  - intros He. destruct Hwf as (Hsome & Hrest).
    pose proof Hsome as Hsome'.
    eapply Forall_forall in Hsome' as [k Hk]; [|done]. exists k.
    rewrite abs_lookup. by apply get_course_loop_unique.
  - intros [k Hk]. rewrite abs_lookup in Hk.
    by apply get_course_loop_Some in Hk as [? _].
Qed.

(** Filtering a listing lists the filtered map. *)
Lemma lists_filter (P : Entry → Prop) `{!∀ e, Decision (P e)} m l :
  lists m l → lists (filter (λ kv, P kv.2) m) (filter P l).
Proof.
  intros [Hsorted Hin]. split.
  - eapply StronglySorted_sublist; [apply sublist_filter|done].
  - intros e. rewrite list_elem_of_filter, Hin. split.
    + intros [HP [k Hk]]. exists k. by apply map_lookup_filter_Some.
    + intros [k [Hk HP]%map_lookup_filter_Some]. eauto.
Qed.

(** A map has one listing. *)
Lemma lists_unique m l1 l2 : lists m l1 → lists m l2 → l1 = l2.
Proof.
  intros [Hs1 Hin1] [Hs2 Hin2].
  apply (StronglySorted_unique_strong id_lt); [|done..|].
  - eauto using id_lt_asym.
  - apply NoDup_Permutation;
      [by apply (StronglySorted_irrefl_NoDup id_lt)..|].
    intros e. by rewrite Hin1, Hin2.
Qed.

Lemma fresh_unique m v1 v2 : fresh m v1 → fresh m v2 → v1 = v2.
Proof.
  intros [[-> ->]|[H1 Hlt1]] [[Hm ->]|[H2 Hlt2]]; [done|..].
  - by rewrite lookup_empty in H2; destruct H2.
  - subst m. by rewrite lookup_empty in H1; destruct H1.
  - apply Hlt2 in H1. apply Hlt1 in H2. lia.
Qed.

End listings.

(** ** The abstract machine *)

(** Identifies the two listings, or the two fresh ids, of one map. *)
Ltac unique_outcome :=
  repeat match goal with
    | H1 : lists ?m ?l1, H2 : lists ?m ?l2 |- _ =>
        pose proof (lists_unique m l1 l2 H1 H2); clear H2; subst
    | H1 : fresh ?m ?v1, H2 : fresh ?m ?v2 |- _ =>
        pose proof (fresh_unique m v1 v2 H1 H2); clear H2; subst
    end.

Section machine.
Implicit Types (db : list Entry) (k v : Z) (m : gmap Z Entry).
Implicit Types (req : Request) (resp : Response).

(** A request that fails validation has the one outcome 422. *)
Lemma astep_inv_invalid m req resp m' :
  astep m req resp m' → request_errors req ≠ [] →
  resp = mkResponse 422 (JValidation (request_errors req)) ∧ m' = m.
Proof.
  intros Hstep Hne. destruct Hstep; [done|exfalso; apply Hne..];
    first [ done | by apply request_errors_GET_course
          | by apply request_errors_DELETE_course
          | by apply request_errors_by_rating
          | by apply request_errors_by_publish_date ].
Qed.

Lemma is_Some_None_False {A} (o : option A) : is_Some o → o = None → False.
Proof. by intros [x ->]. Qed.

(** The contract leaves no choice: a request has one outcome. *)
Lemma astep_deterministic m req resp1 m1 resp2 m2 :
  astep m req resp1 m1 → astep m req resp2 m2 → resp1 = resp2 ∧ m1 = m2.
Proof.
  intros H1 H2. destruct (decide (request_errors req = [])) as [Hok|Hne].
  2: { apply astep_inv_invalid in H1 as [-> ->], H2 as [-> ->]; done. }
  destruct H1; [done|inversion H2; simplify_eq; try done..];
    first [ by unique_outcome | exfalso; eauto using is_Some_None_False ].
Qed.

(** The machine keeps its maps well formed. *)
Lemma astep_store_ok m req resp m' :
  store_ok m → astep m req resp m' → store_ok m'.
Proof.
  intros Hm Hstep. destruct Hstep
    as [| | | | | |body v _ Hv|body k _ Hk [e0 He0]| |k _ _|];
    try done; intros k' e.
  - destruct (decide (k' = v)) as [->|Hk'].
    + rewrite lookup_insert_eq. intros [= <-]. split; [done|].
      destruct Hv as [[_ ->]|[[e He] _]]; [done|]. apply Hm in He. lia.
    + rewrite lookup_insert_ne by done. apply Hm.
  - destruct (decide (k' = k)) as [->|Hk'].
    + rewrite lookup_insert_eq. intros [= <-]. split; [done|].
      by apply Hm in He0 as [_ ?].
    + rewrite lookup_insert_ne by done. apply Hm.
  - intros [_ He]%lookup_delete_Some. by apply Hm.
Qed.

End machine.

(** ** The service on the list implements the machine on the map *)

Section refinement.
Implicit Types (db : list Entry) (k v : Z) (m : gmap Z Entry).
Implicit Types (req : Request) (resp : Response).

Lemma present_wf ko db :
  wf db → present ko db = true → ∃ k, ko = Some k ∧ k ∈ ids db.
Proof.
  intros (Hsome & _) (e & He & <-)%present_true.
  eapply Forall_forall in Hsome as [k Hk]; [|done]. exists k.
  split; [done|]. apply list_elem_of_omap. eauto.
Qed.

Lemma absent_abs ko db :
  present ko db = false → ∀ k, ko = Some k → abs db !! k = None.
Proof. intros Hp k ->. by apply abs_None. Qed.

(** Each transition of the service is a transition of the machine. *)
Lemma step_astep db req resp db' :
  wf db → step db req resp db' → astep (abs db) req resp (abs db').
Proof.
  intros Hwf Hstep.
  destruct Hstep as [|
    |k e Hk Hget|k Hk Hp|r Hr|d Hd|body v Hb Hv|body Hb Hv
    |body Hb Hp|body Hb Hp|k Hk Hp|k Hk Hp].
  - by constructor.
  - by constructor; apply abs_lists.
  - constructor; [done|]. by rewrite abs_lookup.
  - constructor; [done|]. by apply abs_None.
  - constructor; [done|]. by apply lists_filter, abs_lists.
  - constructor; [done|]. by apply lists_filter, abs_lists.
  - destruct (next_id_wf db Hwf) as (v' & Hv' & _ & Hlt).
    rewrite Hv in Hv'. simplify_eq.
    rewrite (abs_snoc _ _ v'); [by constructor; [|apply abs_fresh]| |done].
    intros Hin. eapply Forall_forall in Hlt; [|done]. lia.
  - destruct (next_id_wf db Hwf) as (v' & Hv' & _). congruence.
  - destruct (present_wf _ _ Hwf Hp) as (k & Hid & Hin).
    rewrite (abs_overwrite _ _ k) by done.
    constructor; [done..|]. by apply abs_is_Some.
  - constructor; [done|]. by apply absent_abs.
  - rewrite abs_remove_first by done. constructor; [done|].
    by apply abs_is_Some, present_Some_ids.
  - constructor; [done|]. by apply abs_None.
Qed.

(** Each transition of the machine is the one the service makes. *)
Lemma astep_handle db req resp m' :
  wf db → astep (abs db) req resp m' →
  (handle req db).1 = resp ∧ abs (handle req db).2 = m'.
Proof.
  intros Hwf Ha.
  pose proof (step_astep _ _ _ _ Hwf (handle_step req db)) as Ha'.
  by destruct (astep_deterministic _ _ _ _ _ _ Ha' Ha).
Qed.

Lemma reachable_areachable db : reachable db → areachable (abs db).
Proof.
  induction 1 as [|db req resp db' Hdb IH Hstep]; [constructor|].
  eapply areachable_step; [done|].
  eapply step_astep; [by apply reachable_is_wf|done].
Qed.

Lemma areachable_reachable m :
  areachable m → ∃ db, reachable db ∧ abs db = m.
Proof.
  induction 1 as [|m req resp m' _ (db & Hdb & <-) Hstep].
  { exists courses_db. split; [constructor|done]. }
  apply astep_handle in Hstep as [<- <-]; [|by apply reachable_is_wf].
  exists (handle req db).2. split; [|done].
  eapply reachable_step; [done|apply handle_step].
Qed.

End refinement.

(** ** Refinement *)

Section refinement_theorems.
Implicit Types (db : list Entry) (m : gmap Z Entry).
Implicit Types (req : Request) (resp : Response).

(** C11: On a well-formed registry, what [handle] answers and leaves behind
    is a transition of the machine on the finite map the registry
    represents: the scans, item assignments, [pop] and [append] of the
    handlers implement lookup, rebinding, unbinding and binding of a fresh
    id, listings come in id order, and no server error occurs. *)
Theorem handle_refines_store req db :
  wf db → astep (abs db) req (handle req db).1 (abs (handle req db).2).
Proof. intros Hwf. apply step_astep; [done|apply handle_step]. Qed.

Lemma handle_refines_store_witness :
  let req := PUT_update_course
               (mkCourseRequest (Some 2) (str_of "Kotlin 2") (str_of "Ufuk")
                  4 2027) in
  wf courses_db ∧
  astep (abs courses_db) req (handle req courses_db).1
    (abs (handle req courses_db).2).
Proof.
  intros req. split; [apply wf_seed|].
  exact (handle_refines_store req courses_db wf_seed).
Defined.

(** C12: Conversely, on a well-formed registry every transition the machine
    on the map allows is the one [handle] makes: the response is the one the
    contract names and the registry left behind represents the map the
    contract names.  With the previous theorem the list and the map are
    bisimilar. *)
Theorem store_step_implemented req db resp m' :
  wf db → astep (abs db) req resp m' →
  (handle req db).1 = resp ∧ abs (handle req db).2 = m'.
Proof. apply astep_handle. Qed.

Lemma store_step_implemented_witness :
  wf courses_db ∧
  astep (abs courses_db) (DELETE_course 3) (mkResponse 204 JEmpty)
    (delete 3 (abs courses_db)) ∧
  (handle (DELETE_course 3) courses_db).1 = mkResponse 204 JEmpty ∧
  abs (handle (DELETE_course 3) courses_db).2 = delete 3 (abs courses_db).
Proof.
  assert (astep (abs courses_db) (DELETE_course 3) (mkResponse 204 JEmpty)
            (delete 3 (abs courses_db))) as Ha.
  { apply astep_delete; [lia|]. rewrite abs_lookup. by eexists. }
  split; [apply wf_seed|]. split; [exact Ha|].
  exact (store_step_implemented _ _ _ _ wf_seed Ha).
Defined.

(** The maps the machine reaches from the map of the seed are exactly
    the maps of the registries the service reaches from [courses_db]. *)
Lemma areachable_iff_reachable m :
  areachable m ↔ ∃ db, reachable db ∧ abs db = m.
Proof.
  split; [apply areachable_reachable|].
  intros (db & Hdb & <-). by apply reachable_areachable.
Qed.

(** A well-formed registry is determined by the map it represents: two
    well-formed registries with the same map are the same list, so the map
    loses nothing, the order of the list being the order of the ids. *)
Lemma abs_injective db1 db2 :
  wf db1 → wf db2 → abs db1 = abs db2 → db1 = db2.
Proof.
  intros H1%abs_lists H2%abs_lists Heq. rewrite Heq in H1.
  by eapply lists_unique.
Qed.

Lemma abs_injective_witness :
  let body := mkCourseRequest None (str_of "Rust") (str_of "Ferris") 5 2015 in
  let db := (serve [POST_create_course body; DELETE_course 7] courses_db).2 in
  wf courses_db ∧ wf db ∧ abs courses_db = abs db ∧ courses_db = db.
Proof.
  intros body db.
  assert (wf db) as Hwf by (apply (bool_decide_unpack _); by vm_compute).
  assert (abs courses_db = abs db) as Habs by (by vm_compute).
  split; [apply wf_seed|]. do 2 (split; [done|]).
  exact (abs_injective _ _ wf_seed Hwf Habs).
Defined.

End refinement_theorems.
