(* ===== verification/Heap.v ===== *)
(** * Objects on a heap: references, identity and aliasing

    In Python the items of [courses_db] are references.  [get_all_courses]
    returns the list object itself, [get_course] a reference to a stored
    object, [update_course] stores the request object it was given
    ([courses_db[i] = course_request]), at every matching position, and
    [find_courseID] assigns the [id] attribute of the object it is passed.
    [Registry] models all this with values; that is sound only if no object
    is changed while another reference to it exists.

    This file makes the references explicit.  A [State] is a heap of
    objects and the list of references [courses_db]; the handlers are
    written again, line by line, over it ([heap_get_course], ...), with
    object creation ([new]), attribute reads ([getattr]) and the one
    attribute assignment of the program ([setattr_id]).  The theorems show
    that the value model loses nothing: every request is answered as in
    [App] and leaves a state that represents the registry of [App], and no
    request changes an object that existed before it. *)

From stdpp Require Import gmap.
From S2P Require Import Prelude Python Course Validation.
From S2P Require Import Registry Invariant App.

#[local] Set Warnings "-clear-no-such-hyp".

Local Open Scope Z_scope.

(** ** The state *)

(** A reference to an object. *)
Definition loc := positive.

Record State := mkState {
  heap : gmap loc Entry;
  refs : list loc
}.

(** What ends a computation early: a Python exception, or a reference the
    code cannot use (to no object, or to an object of a class without the
    method called), which no run of the program meets. *)
Inductive Fault :=
| Dangling
| Raised (e : Exn).

Abbreviation HeapM := (StateErr State Fault).

(** ** Objects *)

(** [Class(...)]: a new object, at a location that holds none. *)
Definition new (e : Entry) : HeapM loc :=
  updates (λ s,
    let l := fresh (dom (heap s)) in
    inr (l, mkState (<[l := e]> (heap s)) (refs s))).

(** [obj.attr] *)
Definition getattr {V} (attr : Entry → V) (l : loc) : HeapM V :=
  reads (λ s,
    match heap s !! l with
    | Some e => inr (attr e)
    | None => inl Dangling
    end).

(** The object with its [id] replaced. *)
Definition with_id (e : Entry) (v : Z) : Entry :=
  match e with
  | ACourse c => ACourse (set_id c v)
  | ARequest r =>
      ARequest (mkCourseRequest (Some v) (title r) (instructor r) (rating r)
                  (published_date r))
  end.

(** [obj.id = v] *)
Definition setattr_id (l : loc) (v : Z) : HeapM unit :=
  updates (λ s,
    match heap s !! l with
    | Some e => inr (tt, mkState (<[l := with_id e v]> (heap s)) (refs s))
    | None => inl Dangling
    end).

(** [course_request.model_dump()], a method of [CourseRequest] objects. *)
Definition model_dump_of (l : loc) : HeapM CourseRequest :=
  reads (λ s,
    match heap s !! l with
    | Some (ARequest r) => inr r
    | _ => inl Dangling
    end).

(** ** The list of references *)

Definition on_refs {A} (f : list loc → Exn + A * list loc) : HeapM A :=
  updates (λ s,
    match f (refs s) with
    | inl e => inl (Raised e)
    | inr (x, l) => inr (x, mkState (heap s) l)
    end).

(** [len(courses_db)] *)
Definition refs_len : HeapM Z := on_refs (λ l, inr (len l, l)).

(** [courses_db[i]] *)
Definition refs_getitem (i : Z) : HeapM loc :=
  on_refs (λ l,
    match getitem l i with
    | inl e => inl e
    | inr x => inr (x, l)
    end).

(** [courses_db[i] = x] *)
Definition refs_setitem (i : Z) (x : loc) : HeapM unit :=
  on_refs (λ l,
    match setitem l i x with
    | inl e => inl e
    | inr l' => inr (tt, l')
    end).

(** [courses_db.pop(i)] *)
Definition refs_pop (i : Z) : HeapM loc := on_refs (λ l, pop l i).

(** [courses_db.append(x)] *)
Definition refs_append (x : loc) : HeapM unit :=
  on_refs (λ l, inr (tt, append l x)).

(** ** The handlers *)

(** get_all_courses (lines 53-55): the list object itself. *)
Definition heap_get_all_courses : HeapM (list loc) :=
  reads (λ s, inr (refs s)).

(** get_course (lines 58-63) *)
Fixpoint heap_get_course_loop (course_id : Z) (courses : list loc)
    : HeapM (option loc) :=
  match courses with
  | [] => mret None
  | course :: rest =>
      k ← getattr id course;
      if bool_decide (k = Some course_id) then mret (Some course)
      else heap_get_course_loop course_id rest
  end.

Definition heap_get_course (course_id : Z) : HeapM loc :=
  courses ← heap_get_all_courses;
  found ← heap_get_course_loop course_id courses;
  match found with
  | Some course => mret course
  | None => raise (Raised not_found)
  end.

(** get_courses_by_rating and get_courses_by_publish_date (lines 66-81):
    [courses_to_return] is a new list of references to stored objects. *)
Fixpoint heap_collect_loop {V} (attr : Entry → V) (test : V → bool)
    (courses : list loc) (courses_to_return : list loc)
    : HeapM (list loc) :=
  match courses with
  | [] => mret courses_to_return
  | course :: rest =>
      v ← getattr attr course;
      heap_collect_loop attr test rest
        (if test v then append courses_to_return course
         else courses_to_return)
  end.

Definition heap_get_courses_by_rating (course_rating : Z)
    : HeapM (list loc) :=
  courses ← heap_get_all_courses;
  heap_collect_loop rating (λ v, bool_decide (v = course_rating)) courses [].

Definition heap_get_courses_by_publish_date (publish_date : Z)
    : HeapM (list loc) :=
  courses ← heap_get_all_courses;
  heap_collect_loop published_date (λ v, bool_decide (v = publish_date))
    courses [].

(** find_courseID (lines 90-92): the right-hand side is evaluated, then the
    attribute of the object passed is assigned, and the same reference is
    returned. *)
Definition heap_find_courseID (course : loc) : HeapM loc :=
  n ← refs_len;
  v ← (if bool_decide (n = 0) then mret 1
       else
         last_course ← refs_getitem (-1);
         k ← getattr id last_course;
         reads (λ _, match add k 1 with
                     | inl e => inl (Raised e)
                     | inr v => inr v
                     end));
  setattr_id course v;;
  mret course.

(** create_course (lines 84-87): a new [Course] object is built from the
    dump of the request object. *)
Definition heap_create_course (course_request : loc) : HeapM unit :=
  dump ← model_dump_of course_request;
  new_course ← new (ACourse (Course_of_dump dump));
  course ← heap_find_courseID new_course;
  refs_append course.

(** update_course (lines 95-103): the reference to the request object is
    stored, at every position that matches. *)
Fixpoint heap_update_course_loop (course_request : loc) (indices : list Z)
    (course_updated : bool) : HeapM bool :=
  match indices with
  | [] => mret course_updated
  | i :: rest =>
      course ← refs_getitem i;
      k ← getattr id course;
      k' ← getattr id course_request;
      if bool_decide (k = k') then
        refs_setitem i course_request;;
        heap_update_course_loop course_request rest true
      else heap_update_course_loop course_request rest course_updated
  end.

Definition heap_update_course (course_request : loc) : HeapM unit :=
  n ← refs_len;
  course_updated ← heap_update_course_loop course_request (range n) false;
  if (course_updated : bool) then mret tt else raise (Raised not_found).

(** delete_course (lines 106-115) *)
Fixpoint heap_delete_course_loop (course_id : Z) (indices : list Z)
    : HeapM bool :=
  match indices with
  | [] => mret false
  | i :: rest =>
      course ← refs_getitem i;
      k ← getattr id course;
      if bool_decide (k = Some course_id) then
        refs_pop i;; mret true
      else heap_delete_course_loop course_id rest
  end.

Definition heap_delete_course (course_id : Z) : HeapM unit :=
  n ← refs_len;
  course_deleted ← heap_delete_course_loop course_id (range n);
  if (course_deleted : bool) then mret tt else raise (Raised not_found).

(** ** The framework around a handler *)

(** The objects behind the references a handler returned, as the encoder of
    the response reads them. *)
Definition encode (l : loc) : HeapM Entry := getattr (λ e, e) l.

Fixpoint encode_all (ls : list loc) : HeapM (list Entry) :=
  match ls with
  | [] => mret []
  | l :: rest => e ← encode l; es ← encode_all rest; mret (e :: es)
  end.

Definition encode_course (l : loc) : HeapM Body :=
  e ← encode l; mret (JCourse e).

Definition encode_courses (ls : list loc) : HeapM Body :=
  es ← encode_all ls; mret (JCourses es).

(** The handler runs inside a [try]; what it returned is encoded. *)
Definition heap_respond {A} (status : Z) (to_body : A → HeapM Body)
    (h : HeapM A) : HeapM Response :=
  λ s,
    match run h s with
    | (inr x, s') => run (body ← to_body x; mret (mkResponse status body)) s'
    | (inl (Raised e), s') =>
        (inr (response_of status (λ _ : unit, JNull) (inl e)), s')
    | (inl Dangling, s') => (inl Dangling, s')
    end.

(** The handler of each route; the framework builds the request object of
    a body before it calls the handler. *)
Definition heap_route (req : Request) : HeapM Response :=
  match req with
  | GET_courses =>
      heap_respond get_all_courses_status_code encode_courses
        heap_get_all_courses
  | GET_course course_id =>
      heap_respond get_course_status_code encode_course
        (heap_get_course course_id)
  | GET_courses_by_rating course_rating =>
      heap_respond get_courses_by_rating_status_code encode_courses
        (heap_get_courses_by_rating course_rating)
  | GET_courses_by_publish_date publish_date =>
      heap_respond get_courses_by_publish_date_status_code encode_courses
        (heap_get_courses_by_publish_date publish_date)
  | POST_create_course body =>
      course_request ← new (ARequest body);
      heap_respond create_course_status_code (λ _, mret JNull)
        (heap_create_course course_request)
  | PUT_update_course body =>
      course_request ← new (ARequest body);
      heap_respond update_course_status_code (λ _, mret JEmpty)
        (heap_update_course course_request)
  | DELETE_course course_id =>
      heap_respond delete_course_status_code (λ _, mret JEmpty)
        (heap_delete_course course_id)
  end.

Definition heap_handle (req : Request) : HeapM Response :=
  match request_errors req with
  | [] => heap_route req
  | fields => mret (mkResponse 422 (JValidation fields))
  end.

(** ** The module-level list (lines 43-50) *)

(** The list display creates its objects from left to right. *)
Definition load (courses : list Entry) : State :=
  foldl (λ s e, (run (l ← new e; refs_append l) s).2) (mkState ∅ []) courses.

Definition heap_courses_db : State := load courses_db.

(** ** What a state stands for *)

(** The state represents the registry [db]: the references of the list
    lead to the items of [db], in order. *)
Definition represents (s : State) (db : list Entry) : Prop :=
  Forall2 (λ l e, heap s !! l = Some e) (refs s) db.

(** A reference and the value it leads to; two results of the same kind. *)
Definition points_to (s : State) (l : loc) (e : Entry) : Prop :=
  heap s !! l = Some e.

Definition same {A} (_ : State) (x y : A) : Prop := x = y.

(** The outcome of a computation on the heap agrees with the outcome of a
    handler on values: the same exception, or results related by [R] in
    the state reached. *)
Definition agrees {A B} (R : State → A → B → Prop) (s' : State)
    (o : Fault + A) (o' : Exn + B) : Prop :=
  match o, o' with
  | inr a, inr b => R s' a b
  | inl (Raised e), inl e' => e = e'
  | _, _ => False
  end.

(** From [s] and [db] the computation [m] does what the handler [h] does:
    the outcomes agree, the state reached represents the registry reached,
    and every object of [s] is still what it was. *)
Definition refines {A B} (R : State → A → B → Prop) (m : HeapM A)
    (h : Handler B) (s : State) (db : list Entry) : Prop :=
  agrees R (run m s).2 (run m s).1 (run h db).1 ∧
  represents (run m s).2 (run h db).2 ∧
  heap s ⊆ heap (run m s).2.

(** A function that always answers, as a handler that never raises. *)
Definition total {A} (f : list Entry → A * list Entry) : Handler A :=
  λ db, (inr (f db).1, (f db).2).

(** The body of the requests the examples send. *)
Definition sample_request : CourseRequest :=
  mkCourseRequest (Some 2) (str_of "Kotlin 2") (str_of "Ufuk") 4 2024.

(** The service on the heap, for a sequence of requests. *)
Definition heap_serve (reqs : list Request) (s : State)
    : list (Fault + Response) * State :=
  serve_by (λ req s, run (heap_handle req) s) reqs s.

(** * Theorems *)

(** ** Objects and references *)

Section primitives.
Implicit Types (s : State) (db : list Entry) (l : loc) (e : Entry) (i : Z).

Lemma fresh_heap s : heap s !! fresh (dom (heap s)) = None.
Proof. apply (not_elem_of_dom (D := gset loc)), is_fresh. Qed.

Lemma run_new e s :
  run (new e) s =
  (inr (fresh (dom (heap s))),
   mkState (<[fresh (dom (heap s)) := e]> (heap s)) (refs s)).
Proof. done. Qed.

Lemma run_getattr {V} (attr : Entry → V) l s e :
  heap s !! l = Some e → run (getattr attr l) s = (inr (attr e), s).
Proof. unfold getattr. rewrite run_reads. by intros ->. Qed.

Lemma run_setattr_id l v s e :
  heap s !! l = Some e →
  run (setattr_id l v) s =
  (inr tt, mkState (<[l := with_id e v]> (heap s)) (refs s)).
Proof. intros Hl. apply run_updates_ok. by rewrite Hl. Qed.

Lemma run_model_dump_of l s r :
  heap s !! l = Some (ARequest r) → run (model_dump_of l) s = (inr r, s).
Proof. unfold model_dump_of. rewrite run_reads. by intros ->. Qed.

(** A state with more objects, or with objects outside the list changed,
    represents the same registry. *)
Lemma represents_weaken s s' db :
  represents s db → heap s ⊆ heap s' → refs s' = refs s → represents s' db.
Proof.
  unfold represents. intros Hs Hsub ->.
  eapply Forall2_impl; [done|]. intros l e Hl. cbn beta in Hl.
  by eapply lookup_weaken.
Qed.

Lemma represents_len s db : represents s db → len (refs s) = len db.
Proof. intros Hs. unfold len. by rewrite (Forall2_length _ _ _ Hs). Qed.

Lemma represents_index_of s db i :
  represents s db → index_of (refs s) i = index_of db i.
Proof. intros Hs. unfold index_of. by rewrite (represents_len s db). Qed.

Lemma represents_lookup_None s db (n : nat) :
  represents s db → refs s !! n = None → db !! n = None.
Proof.
  intros Hs Hn%lookup_ge_None. apply lookup_ge_None.
  by rewrite <- (Forall2_length _ _ _ Hs).
Qed.

Lemma represents_new e s db :
  represents s db → represents (run (new e) s).2 db.
Proof.
  intros Hs. eapply represents_weaken; [done| |done].
  apply insert_subseteq, fresh_heap.
Qed.

(** One more reference at the end of the list, to an object of a heap
    that extends the old one. *)
Lemma represents_snoc s db h l e :
  represents s db → heap s ⊆ h → h !! l = Some e →
  represents (mkState h (refs s ++ [l])) (db ++ [e]).
Proof.
  intros Hs Hsub Hl. apply Forall2_app; [|by apply Forall2_cons].
  by apply (represents_weaken s (mkState h (refs s))).
Qed.

End primitives.

(** ** Rules for [refines] *)

Section rules.
Context {A B : Type}.
Implicit Types (s : State) (db : list Entry) (R : State → A → B → Prop).

Lemma refines_ret R (a : A) (b : B) s db :
  R s a b → represents s db → refines R (mret a) (mret b) s db.
Proof. by repeat split. Qed.

Lemma refines_raise R (e : Exn) s db :
  represents s db → refines R (raise (Raised e)) (raise e) s db.
Proof. by repeat split. Qed.

(** Both sides make a step, and go on from related results. *)
Lemma refines_bind {C D} R (Q : State → C → D → Prop)
    (m : HeapM A) (h : Handler B) (f : A → HeapM C) (g : B → Handler D)
    s db :
  refines R m h s db →
  (∀ a b s1 db1,
     R s1 a b → represents s1 db1 → heap s ⊆ heap s1 →
     run m s = (inr a, s1) → run h db = (inr b, db1) →
     refines Q (f a) (g b) s1 db1) →
  refines Q (m ≫= f) (h ≫= g) s db.
Proof.
  unfold refines. rewrite !run_bind.
  destruct (run m s) as [[[|e]|a] s1], (run h db) as [[e'|b] db1];
    cbn [fst snd agrees]; intros (Hagree & Hs1 & Hsub) Hnext;
    [done..| | |]; [done|done|].
  destruct (Hnext a b s1 db1) as (? & ? & ?); try done.
  split_and!; [done..|]. by etrans.
Qed.

(** The heap side reads an object, or creates one; the value side has
    nothing to do. *)
Lemma refines_bind_l {C} R (m : HeapM C) (f : C → HeapM A) (h : Handler B)
    s db c s1 :
  run m s = (inr c, s1) → heap s ⊆ heap s1 →
  refines R (f c) h s1 db → refines R (m ≫= f) h s db.
Proof.
  unfold refines. rewrite run_bind. intros -> Hsub (? & ? & ?).
  split_and!; [done..|]. by etrans.
Qed.

End rules.

(** ** The operations on the list *)

Section list_operations.
Implicit Types (s : State) (db : list Entry) (l : loc) (e : Entry) (i : Z).

Lemma refines_len s db :
  represents s db → refines same refs_len db_len s db.
Proof.
  intros Hs. unfold refines, refs_len, on_refs, db_len, updates, run, reads.
  cbn. split_and!; [|by destruct s|done]. by apply represents_len.
Qed.

Lemma refines_getitem i s db :
  represents s db → refines points_to (refs_getitem i) (db_getitem i) s db.
Proof.
  intros Hs.
  unfold refines, refs_getitem, on_refs, db_getitem, updates, run, reads.
  unfold getitem. rewrite (represents_index_of s db) by done.
  destruct (index_of db i) as [n|]; cbn [mbind option_bind];
    [|by split_and!].
  destruct (refs s !! n) as [l|] eqn:Hl.
  - destruct (Forall2_lookup_l _ _ _ _ _ Hs Hl) as (e & -> & He).
    cbn. split_and!; [done|by destruct s|done].
  - rewrite (represents_lookup_None s db n) by done. by split_and!.
Qed.

Lemma refines_setitem i l e s db :
  represents s db → heap s !! l = Some e →
  refines same (refs_setitem i l) (db_setitem i e) s db.
Proof.
  intros Hs Hl.
  unfold refines, refs_setitem, on_refs, db_setitem, updates, run.
  unfold setitem. rewrite (represents_index_of s db) by done.
  destruct (index_of db i) as [n|]; cbn; [|by split_and!].
  split_and!; [done| |done]. by apply Forall2_insert.
Qed.

Lemma refines_pop i s db :
  represents s db → refines points_to (refs_pop i) (db_pop i) s db.
Proof.
  intros Hs. unfold refines, refs_pop, on_refs, db_pop, updates, run.
  unfold pop. rewrite (represents_index_of s db) by done.
  destruct (index_of db i) as [n|]; cbn; [|by split_and!].
  destruct (refs s !! n) as [l|] eqn:Hl.
  - destruct (Forall2_lookup_l _ _ _ _ _ Hs Hl) as (e & -> & He).
    cbn. split_and!; [done| |done]. by apply Forall2_delete.
  - rewrite (represents_lookup_None s db n) by done. by split_and!.
Qed.

Lemma refines_append l e s db :
  represents s db → heap s !! l = Some e →
  refines same (refs_append l) (db_append e) s db.
Proof.
  intros Hs Hl. unfold refines, refs_append, on_refs, db_append, updates, run.
  cbn. split_and!; [done| |done]. apply Forall2_app; [done|].
  by apply Forall2_cons.
Qed.

End list_operations.

(** ** The loops that read *)

Section reading.
Implicit Types (s : State) (db : list Entry) (l : loc) (e : Entry).

Lemma heap_get_course_loop_spec course_id s ls es :
  Forall2 (points_to s) ls es →
  ∃ found,
    run (heap_get_course_loop course_id ls) s = (inr found, s) ∧
    option_Forall2 (points_to s) found (get_course_loop course_id es).
Proof.
  induction 1 as [|l e ls es Hl _ IH]; cbn [heap_get_course_loop].
  { exists None. split; [done|constructor]. }
  erewrite run_bind_ok by by apply run_getattr.
  cbn [get_course_loop]. case_bool_decide; [|done].
  exists (Some l). split; [done|by constructor].
Qed.

Lemma heap_collect_loop_spec {V} (attr : Entry → V) (test : V → bool) s
    ls es : ∀ acc acc',
  Forall2 (points_to s) ls es → Forall2 (points_to s) acc acc' →
  ∃ r,
    run (heap_collect_loop attr test ls acc) s = (inr r, s) ∧
    Forall2 (points_to s) r (collect_loop (λ e, test (attr e)) es acc').
Proof.
  intros acc acc' Hls. revert acc acc'.
  induction Hls as [|l e ls es Hl _ IH]; intros acc acc' Hacc;
    cbn [heap_collect_loop collect_loop].
  { by exists acc. }
  erewrite run_bind_ok by by apply run_getattr.
  apply IH. destruct (test (attr e)); [|done].
  apply Forall2_app; [done|]. by apply Forall2_cons.
Qed.

Lemma refines_get_all_courses s db :
  represents s db →
  refines (λ s, Forall2 (points_to s)) heap_get_all_courses get_all_courses
    s db.
Proof. by repeat split. Qed.

Lemma refines_get_course course_id s db :
  represents s db →
  refines points_to (heap_get_course course_id) (get_course course_id) s db.
Proof.
  intros Hs. unfold refines, heap_get_course.
  rewrite run_get_course, run_bind. cbn [heap_get_all_courses run reads].
  destruct (heap_get_course_loop_spec course_id s (refs s) db Hs)
    as (found & Hrun & Hfound).
  erewrite run_bind_ok by done.
  by destruct Hfound.
Qed.

Lemma refines_collect {V} (attr : Entry → V) (test : V → bool) s db :
  represents s db →
  refines (λ s, Forall2 (points_to s))
    (courses ← heap_get_all_courses; heap_collect_loop attr test courses [])
    (courses ← get; mret (collect_loop (λ e, test (attr e)) courses []))
    s db.
Proof.
  intros Hs. unfold refines. rewrite !run_bind.
  cbn [heap_get_all_courses run reads get].
  destruct (heap_collect_loop_spec attr test s (refs s) db [] [] Hs)
    as (r & Hrun & Hr); [constructor|].
  by rewrite Hrun.
Qed.

End reading.

(** ** The loops that write *)

Section writing.
Implicit Types (s : State) (db : list Entry) (l : loc) (e : Entry).
Implicit Types (req : CourseRequest).

Lemma refines_update_loop l req indices : ∀ b s db,
  represents s db → heap s !! l = Some (ARequest req) →
  refines same (heap_update_course_loop l indices b)
    (update_course_loop req indices b) s db.
Proof.
  induction indices as [|i indices IH]; intros b s db Hs Hl;
    cbn [heap_update_course_loop update_course_loop].
  { by apply refines_ret. }
  eapply refines_bind; [by apply refines_getitem|].
  intros course e s1 db1 He Hs1 Hsub _ _.
  pose proof (lookup_weaken _ _ _ _ Hl Hsub) as Hl1.
  eapply refines_bind_l; [by apply run_getattr|done|].
  eapply refines_bind_l; [by apply run_getattr|done|].
  rewrite id_ARequest. case_bool_decide; [|by apply IH].
  eapply refines_bind; [by apply refines_setitem|].
  intros _ _ s2 db2 _ Hs2 Hsub2 _ _. apply IH; [done|].
  by eapply lookup_weaken.
Qed.

Lemma refines_delete_loop course_id indices : ∀ s db,
  represents s db →
  refines same (heap_delete_course_loop course_id indices)
    (delete_course_loop course_id indices) s db.
Proof.
  induction indices as [|i indices IH]; intros s db Hs;
    cbn [heap_delete_course_loop delete_course_loop].
  { by apply refines_ret. }
  eapply refines_bind; [by apply refines_getitem|].
  intros course e s1 db1 He Hs1 Hsub _ _.
  eapply refines_bind_l; [by apply run_getattr|done|].
  case_bool_decide; [|by apply IH].
  eapply refines_bind; [by apply refines_pop|].
  intros _ _ s2 db2 _ Hs2 _ _ _. by apply refines_ret.
Qed.

Lemma refines_update_course l req s db :
  represents s db → heap s !! l = Some (ARequest req) →
  refines same (heap_update_course l) (update_course req) s db.
Proof.
  intros Hs Hl. unfold heap_update_course, update_course.
  eapply refines_bind; [by apply refines_len|].
  intros n n' s1 db1 <- Hs1 Hsub _ _.
  eapply refines_bind.
  { apply refines_update_loop; [done|]. by eapply lookup_weaken. }
  intros b b' s2 db2 <- Hs2 _ _ _.
  destruct b; [by apply refines_ret|by apply refines_raise].
Qed.

Lemma refines_delete_course course_id s db :
  represents s db →
  refines same (heap_delete_course course_id) (delete_course course_id) s db.
Proof.
  intros Hs. unfold heap_delete_course, delete_course.
  eapply refines_bind; [by apply refines_len|].
  intros n n' s1 db1 <- Hs1 Hsub _ _.
  eapply refines_bind; [by apply refines_delete_loop|].
  intros b b' s2 db2 <- Hs2 _ _ _.
  destruct b; [by apply refines_ret|by apply refines_raise].
Qed.

End writing.

(** ** Creating a course *)

Section creating.
Implicit Types (s : State) (db : list Entry) (l : loc) (e : Entry).
Implicit Types (req : CourseRequest) (c : Course).

Lemma run_refs_len s : run refs_len s = (inr (len (refs s)), s).
Proof. by destruct s. Qed.

Lemma run_refs_getitem_last s l :
  last (refs s) = Some l → run (refs_getitem (-1)) s = (inr l, s).
Proof.
  intros Hlast. unfold refs_getitem, on_refs. erewrite run_updates_ok; [done|].
  rewrite (getitem_last _ _ Hlast). by destruct s.
Qed.

(** The id assigned is the one [next_id] computes on the registry, and it
    is assigned to the object passed, in place. *)
Lemma run_heap_find_courseID l c s db :
  represents s db → heap s !! l = Some (ACourse c) →
  run (heap_find_courseID l) s =
  match next_id db with
  | inr v =>
      (inr l, mkState (<[l := ACourse (set_id c v)]> (heap s)) (refs s))
  | inl e => (inl (Raised e), s)
  end.
Proof.
  intros Hs Hl. unfold heap_find_courseID, next_id.
  rewrite run_bind, run_refs_len, (represents_len s db Hs).
  pose proof (Forall2_last _ _ _ Hs) as Hlast.
  destruct (last (refs s)) as [ll|] eqn:Hrefs, (last db) as [e|] eqn:Hdb;
    inversion Hlast as [? ? Hll|]; subst.
  - rewrite bool_decide_eq_false_2
      by (rewrite len_nil_iff; intros ->; discriminate).
    rewrite run_bind, run_bind, (run_refs_getitem_last s ll) by done.
    rewrite run_bind, (run_getattr id ll s e Hll), run_reads.
    destruct (add (id e) 1) as [err|v]; [done|].
    rewrite run_bind, (run_setattr_id l v s (ACourse c)) by done. done.
  - apply last_None in Hdb as ->. cbn [len length Z.of_nat].
    rewrite bool_decide_eq_true_2, run_bind, run_ret by done.
    rewrite run_bind, (run_setattr_id l 1 s (ACourse c)) by done. done.
Qed.

Lemma refines_create_course l req s db :
  represents s db → heap s !! l = Some (ARequest req) →
  refines same (heap_create_course l) (create_course req) s db.
Proof.
  intros Hs Hl. unfold refines, heap_create_course.
  rewrite run_create_course, run_bind, (run_model_dump_of l s req Hl).
  rewrite run_bind, run_new, run_bind.
  set (lnew := fresh (dom (heap s))).
  pose proof (fresh_heap s) as Hfresh. fold lnew in Hfresh.
  rewrite (run_heap_find_courseID lnew (Course_of_dump req) _ db);
    [|by apply (represents_new _ s)|by apply lookup_insert_eq].
  destruct (next_id db) as [err|v]; cbn [fst snd heap refs agrees].
  { split_and!; [done|by apply (represents_new _ s)|].
    by apply insert_subseteq. }
  rewrite insert_insert_eq.
  assert (heap s ⊆ <[lnew := ACourse (set_id (Course_of_dump req) v)]> (heap s))
    as Hsub by by apply insert_subseteq.
  cbn. split_and!; [done| |done].
  apply represents_snoc; [done..|apply lookup_insert_eq].
Qed.

End creating.

(** ** The framework *)

Section framework.
Implicit Types (s : State) (db : list Entry) (l : loc) (e : Entry).
Implicit Types (req : Request).

Lemma run_encode_course s l e :
  points_to s l e → run (encode_course l) s = (inr (JCourse e), s).
Proof.
  intros Hl. unfold encode_course, encode.
  by erewrite run_bind_ok by by apply run_getattr.
Qed.

Lemma run_encode_all s ls es :
  Forall2 (points_to s) ls es → run (encode_all ls) s = (inr es, s).
Proof.
  induction 1 as [|l e ls es Hl _ IH]; cbn [encode_all]; [done|].
  unfold encode. erewrite run_bind_ok by by apply run_getattr.
  by erewrite run_bind_ok by done.
Qed.

Lemma run_encode_courses s ls es :
  Forall2 (points_to s) ls es →
  run (encode_courses ls) s = (inr (JCourses es), s).
Proof.
  intros Hls. unfold encode_courses.
  by erewrite run_bind_ok by by apply run_encode_all.
Qed.

(** The response to what the handler did is the response of [respond],
    when the encoder finds behind the references the values returned. *)
Lemma run_heap_respond {A} status (to_body : A → HeapM Body) (m : HeapM A) s :
  run (heap_respond status to_body m) s =
  match run m s with
  | (inr x, s') => run (body ← to_body x; mret (mkResponse status body)) s'
  | (inl (Raised e), s') =>
      (inr (response_of status (λ _ : unit, JNull) (inl e)), s')
  | (inl Dangling, s') => (inl Dangling, s')
  end.
Proof. done. Qed.

Lemma run_total {A} (f : list Entry → A * list Entry) db :
  run (total f) db = (inr (f db).1, (f db).2).
Proof. done. Qed.

Lemma refines_respond {A B} (R : State → A → B → Prop) status
    (to_body : A → HeapM Body) (to_body' : B → Body)
    (m : HeapM A) (h : Handler B) s db :
  (∀ s1 a b, R s1 a b → run (to_body a) s1 = (inr (to_body' b), s1)) →
  refines R m h s db →
  refines same (heap_respond status to_body m)
    (total (respond status to_body' h)) s db.
Proof.
  intros Hbody. unfold refines, respond.
  rewrite run_heap_respond, run_total.
  destruct (run m s) as [[[|e]|a] s1], (run h db) as [[e'|b] db1];
    cbn [fst snd agrees]; intros (Hagree & Hs1 & Hsub); try done.
  - subst e'. by destruct e.
  - by rewrite run_bind, (Hbody s1 a b Hagree).
Qed.

Lemma refines_route req s db :
  represents s db →
  refines same (heap_route req) (total (route req)) s db.
Proof.
  intros Hs. destruct req as [|k|r|d|body|body|k]; cbn [heap_route route].
  - apply (refines_respond (λ s, Forall2 (points_to s)));
      [apply run_encode_courses|by apply refines_get_all_courses].
  - apply (refines_respond points_to);
      [apply run_encode_course|by apply refines_get_course].
  - apply (refines_respond (λ s, Forall2 (points_to s)));
      [apply run_encode_courses|].
    by apply (refines_collect rating (λ v, bool_decide (v = r))).
  - apply (refines_respond (λ s, Forall2 (points_to s)));
      [apply run_encode_courses|].
    by apply (refines_collect published_date (λ v, bool_decide (v = d))).
  - eapply refines_bind_l; [apply run_new|apply insert_subseteq, fresh_heap|].
    apply (refines_respond same); [done|].
    apply refines_create_course; [by apply (represents_new _ s)|].
    apply lookup_insert_eq.
  - eapply refines_bind_l; [apply run_new|apply insert_subseteq, fresh_heap|].
    apply (refines_respond same); [done|].
    apply refines_update_course; [by apply (represents_new _ s)|].
    apply lookup_insert_eq.
  - apply (refines_respond same); [done|]. by apply refines_delete_course.
Qed.

Lemma refines_handle req s db :
  represents s db →
  refines same (heap_handle req) (total (handle req)) s db.
Proof.
  intros Hs. unfold heap_handle, handle.
  destruct (request_errors req); [by apply refines_route|by repeat split].
Qed.

(** The module-level list: loading values gives a state that represents
    them. *)
Lemma load_represents_from courses : ∀ s db,
  represents s db →
  represents
    (foldl (λ s e, (run (l ← new e; refs_append l) s).2) s courses)
    (db ++ courses).
Proof.
  induction courses as [|e courses IH]; intros s db Hs; cbn [foldl].
  { by rewrite app_nil_r. }
  rewrite cons_middle, (assoc_L (++) db [e] courses). apply IH.
  rewrite run_bind, run_new. cbn.
  apply represents_snoc; [done| |apply lookup_insert_eq].
  apply insert_subseteq, fresh_heap.
Qed.

Lemma load_represents courses : represents (load courses) courses.
Proof. apply (load_represents_from courses (mkState ∅ []) []). constructor. Qed.

End framework.

(** ** The value model loses nothing *)

Section soundness.
Implicit Types (s : State) (db : list Entry) (l : loc) (e : Entry).
Implicit Types (req : Request) (reqs : list Request).

(** One request, as an equation on the run. *)
Lemma run_heap_handle req s db :
  represents s db →
  (run (heap_handle req) s).1 = inr (handle req db).1 ∧
  represents (run (heap_handle req) s).2 (handle req db).2 ∧
  heap s ⊆ heap (run (heap_handle req) s).2.
Proof.
  intros Hs. destruct (refines_handle req s db Hs) as (Hagree & Hs' & Hsub).
  rewrite run_total in Hagree, Hs'. cbn [fst snd] in *.
  destruct (run (heap_handle req) s) as [[[]|r] s']; cbn in *; try done.
  by rewrite Hagree.
Qed.

(** C13: refinement - on a state of objects that represents the registry
    [db], the handler of a request written with references (objects
    allocated on a heap, the list holding their addresses, attributes read
    and assigned through the address) never follows a dangling reference,
    answers what the handler on values answers, and leaves a state that
    represents the registry the handler on values leaves. *)
Theorem heap_handle_refines req s db :
  represents s db →
  ∃ s', run (heap_handle req) s = (inr (handle req db).1, s') ∧
        represents s' (handle req db).2.
Proof.
  intros Hs. destruct (run_heap_handle req s db Hs) as (Hr & Hs' & _).
  exists (run (heap_handle req) s).2. split; [|done].
  by rewrite <-Hr; destruct (run (heap_handle req) s).
Qed.

Lemma heap_handle_refines_witness :
  represents heap_courses_db courses_db ∧
  ∃ s', run (heap_handle (PUT_update_course sample_request))
          heap_courses_db =
        (inr (handle (PUT_update_course sample_request)
                courses_db).1, s') ∧
        represents s'
          (handle (PUT_update_course sample_request)
             courses_db).2.
Proof.
  split; [apply load_represents|].
  apply heap_handle_refines, load_represents.
Defined.

(** C14: safety - a request never changes an object that existed before
    it: what it assigns ([course.id] in [find_courseID]) it assigns on the
    object it has just built, and [update_course] replaces the reference in
    the list and leaves the old object as it was.  So a reference held
    from before the request still reads the same fields after it. *)
Theorem heap_objects_immutable req s db l e :
  represents s db → heap s !! l = Some e →
  heap (run (heap_handle req) s).2 !! l = Some e.
Proof.
  intros Hs Hl. destruct (run_heap_handle req s db Hs) as (_ & _ & Hsub).
  by eapply lookup_weaken.
Qed.

Lemma heap_objects_immutable_witness :
  ∃ e, heap heap_courses_db !! 2%positive = Some e ∧
       heap (run (heap_handle (PUT_update_course sample_request))
               heap_courses_db).2 !! 2%positive = Some e.
Proof.
  eexists. split; [by vm_compute|].
  apply (heap_objects_immutable _ _ courses_db);
    [apply load_represents|by vm_compute].
Defined.

(** Sequences of requests, from any state that represents a registry. *)
Lemma heap_serve_sound reqs s db :
  represents s db →
  (heap_serve reqs s).1 = inr <$> (serve reqs db).1 ∧
  represents (heap_serve reqs s).2 (serve reqs db).2.
Proof.
  intros Hs. rewrite serve_serve_by. unfold heap_serve.
  destruct (serve_by_simulation
    (λ req s, run (heap_handle req) s) handle represents (λ r r', r = inr r')
    (λ req s db Hs, let H := run_heap_handle req s db Hs in
                    conj (proj1 H) (proj1 (proj2 H)))
    reqs _ _ Hs) as [Hrs Hs'].
  split; [|done]. by apply list_eq_Forall2, Forall2_fmap_r.
Qed.

(** Records with different ids are different objects. *)
Lemma represents_NoDup s db :
  represents s db → NoDup (id <$> db) → NoDup (refs s).
Proof.
  intros Hs Hdb%NoDup_fmap_1.
  apply (NoDup_fmap_1 (λ l, heap s !! l)).
  replace ((λ l, heap s !! l) <$> refs s) with (Some <$> db);
    [by apply (NoDup_fmap_2 _)|].
  symmetry. by apply list_eq_Forall2, Forall2_fmap, Hs.
Qed.

(** C27: refinement - from the module-level list loaded as objects, every
    sequence of requests gets from the handlers on references the
    responses the handlers on values give, none of them a fault, and ends
    in a state that represents the registry of the value model; and no
    object is ever stored at two positions of the list, although
    [update_course] stores the request object at every position whose id
    matches, because the ids stay distinct. *)
Theorem heap_serve_refines reqs :
  (heap_serve reqs heap_courses_db).1 = inr <$> (serve reqs courses_db).1 ∧
  represents (heap_serve reqs heap_courses_db).2 (serve reqs courses_db).2 ∧
  NoDup (refs (heap_serve reqs heap_courses_db).2).
Proof.
  destruct (heap_serve_sound reqs _ _ (load_represents courses_db))
    as [Hrs Hs].
  repeat split; [done..|]. eapply represents_NoDup; [done|].
  apply ids_unique, reachable_is_wf, reachable_serve.
Qed.

(** Where a reference would be shared: on a list with two records of one
    id, which no run reaches, [update_course] stores the request object at
    both positions. *)
Example update_course_shares_request :
  let s := load [ACourse (mkCourse (Some 2) (str_of "a") (str_of "b") 1 2001);
                 ACourse (mkCourse (Some 2) (str_of "c") (str_of "d") 2 2002)] in
  refs (run (heap_handle (PUT_update_course sample_request))
          s).2 = [3; 3]%positive.
Proof. by vm_compute. Qed.

End soundness.
