(* ===== verification/Decimal.v ===== *)
(** * Integers as decimal text

    A course id travels in the path of a URL and a rating or a year in its
    query string: the client writes the integer in decimal and the
    framework parses the text back before the handler of [main.py] sees an
    [int].  This file gives the parser as an interface, [IntParser] with its
    laws [IntParserLaws], so that the routing theorems hold for every parser
    that reads back what [pretty] prints, and one instance, the plain
    decimal parser [parse_Z], with the proof that it has the laws. *)

From Stdlib Require Import Ascii.
From stdpp Require Import pretty.
From S2P Require Import Prelude.

#[local] Set Warnings "-clear-no-such-hyp".

(** ** The interface *)

(** The parser of an [int] parameter. *)
Class IntParser := parse_int : string → option Z.

(** Every character of the string satisfies [P]. *)
Fixpoint all_chars (P : ascii → bool) (s : string) : bool :=
  match s with
  | "" => true
  | String c s' => P c && all_chars P s'
  end.

Definition is_digit (c : ascii) : bool :=
  bool_decide (is_Some (Ascii.is_nat c)).

(** Some character of the string is a decimal digit. *)
Fixpoint has_digit (s : string) : bool :=
  match s with
  | "" => false
  | String c s' => is_digit c || has_digit s'
  end.

(** What the routing layer relies on: the decimal text of an integer parses
    to that integer, and text without any digit is no integer. *)
Class IntParserLaws `{IntParser} : Prop := {
  parse_int_pretty (k : Z) : parse_int (pretty k) = Some k;
  parse_int_has_digit s k : parse_int s = Some k → has_digit s = true
}.

(** ** The decimal parser *)

(** The number read from the digits of [s], after the digits read so far
    gave [acc]. *)
Fixpoint digits_go (acc : N) (s : string) : option N :=
  match s with
  | "" => Some acc
  | String c s' =>
      match Ascii.is_nat c with
      | Some d => digits_go (acc * 10 + N.of_nat d) s'
      | None => None
      end
  end.

Definition parse_N (s : string) : option N :=
  match s with
  | "" => None
  | _ => digits_go 0 s
  end.

(** An optional minus sign, then one digit or more. *)
Definition parse_Z (s : string) : option Z :=
  match s with
  | "" => None
  | String c s' =>
      if decide (c = "-"%char) then (λ n, - Z.of_N n)%Z <$> parse_N s'
      else Z.of_N <$> parse_N s
  end.

#[export] Instance decimal_parser : IntParser := parse_Z.

(** The characters of a decimal integer. *)
Definition is_decimal_char (c : ascii) : bool :=
  is_digit c || bool_decide (c = "-"%char).

(** * Theorems *)

(** ** Printing then parsing *)

Section roundtrip.
Local Open Scope N_scope.
Implicit Types (x acc : N) (s : string).

Lemma is_nat_pretty_N_char x :
  x < 10 → Ascii.is_nat (pretty_N_char x) = Some (N.to_nat x).
Proof.
  intros Hx.
  assert (x = 0 ∨ x = 1 ∨ x = 2 ∨ x = 3 ∨ x = 4 ∨ x = 5 ∨ x = 6 ∨ x = 7
          ∨ x = 8 ∨ x = 9) as Hcases by lia.
  by repeat destruct Hcases as [->|Hcases]; try subst x.
Qed.

(** The digits [pretty_N_go] puts in front of [s] add [x] to what was read
    before, shifted by their number. *)
Lemma digits_go_pretty_N_go x :
  ∃ n : N, ∀ acc s,
    digits_go acc (pretty_N_go x s) = digits_go (acc * 10 ^ n + x) s.
Proof.
  induction (N.lt_wf_0 x) as [x _ IH].
  destruct (decide (x = 0)) as [->|Hx].
  { exists 0. intros acc s. rewrite pretty_N_go_0. f_equal. lia. }
  destruct (IH (x `div` 10)) as [n Hn]; [apply N.div_lt; lia|].
  exists (N.succ n). intros acc s.
  rewrite pretty_N_go_step, Hn by lia. cbn [digits_go].
  rewrite is_nat_pretty_N_char by (apply N.mod_lt; lia). f_equal.
  rewrite N2Nat.id, N.pow_succ_r'.
  pose proof (N.div_mod x 10 ltac:(lia)). lia.
Qed.

Lemma pretty_N_go_length x s :
  (String.length s ≤ String.length (pretty_N_go x s))%nat.
Proof.
  revert s. induction (N.lt_wf_0 x) as [x _ IH]. intros s.
  destruct (decide (x = 0)) as [->|Hx]; [by rewrite pretty_N_go_0|].
  rewrite pretty_N_go_step by lia.
  etrans; [|apply IH, N.div_lt; lia]. simpl. lia.
Qed.

Lemma pretty_N_nonempty x : pretty x ≠ "".
Proof.
  unfold pretty, pretty_N. case_decide; [done|].
  rewrite pretty_N_go_step by lia. intros Heq.
  pose proof (pretty_N_go_length (x `div` 10)
                (String (pretty_N_char (x `mod` 10)) "")) as Hlen.
  rewrite Heq in Hlen. simpl in Hlen. lia.
Qed.

Lemma parse_N_pretty x : parse_N (pretty x) = Some x.
Proof.
  pose proof (pretty_N_nonempty x) as Hne. unfold parse_N.
  destruct (pretty x) as [|c s] eqn:Hs; [done|]. rewrite <- Hs.
  unfold pretty, pretty_N. case_decide; [by subst|].
  destruct (digits_go_pretty_N_go x) as [n ->]. done.
Qed.

End roundtrip.

Section parse_Z_facts.
Implicit Types (k : Z) (s : string) (c : ascii).

Lemma parse_Z_pretty_N (x : N) : parse_Z (pretty x) = Some (Z.of_N x).
Proof.
  pose proof (parse_N_pretty x) as Hparse.
  destruct (pretty x) as [|c s] eqn:Hs; [done|]. cbn [parse_Z].
  case_decide as Hc; [|by rewrite Hparse]. subst c. exfalso.
  unfold pretty, pretty_N in Hs. case_decide; [done|].
  by apply (pretty_N_go_ne_dash x "" s).
Qed.

Lemma parse_Z_pretty k : parse_Z (pretty k) = Some k.
Proof.
  destruct k as [|p|p]; [done|apply (parse_Z_pretty_N (N.pos p))|].
  change (pretty (Z.neg p)) with (String "-" (pretty (N.pos p))).
  cbn [parse_Z]. rewrite decide_True by done.
  by rewrite parse_N_pretty.
Qed.

(** ** What parses is made of digits *)

Lemma digits_go_all_digits acc s n :
  digits_go acc s = Some n → all_chars is_digit s = true.
Proof.
  revert acc. induction s as [|c s IH]; intros acc; [done|].
  cbn [digits_go all_chars]. unfold is_digit at 1.
  destruct (Ascii.is_nat c) as [d|]; [|done]. intros Hs%IH.
  by rewrite Hs, bool_decide_eq_true_2.
Qed.

Lemma parse_N_all_digits s n :
  parse_N s = Some n → s ≠ "" ∧ all_chars is_digit s = true.
Proof.
  destruct s as [|c s]; [done|]. intros Hs. split; [done|].
  by eapply digits_go_all_digits.
Qed.

Lemma all_digits_has_digit s :
  s ≠ "" → all_chars is_digit s = true → has_digit s = true.
Proof.
  destruct s as [|c s]; [done|]. simpl. by intros _ [-> _]%andb_true_iff.
Qed.

Lemma all_chars_impl (P Q : ascii → bool) s :
  (∀ c, P c = true → Q c = true) →
  all_chars P s = true → all_chars Q s = true.
Proof.
  intros HPQ. induction s as [|c s IH]; [done|]. cbn [all_chars].
  rewrite !andb_true_iff. naive_solver.
Qed.

Lemma all_chars_app (P : ascii → bool) s1 s2 :
  all_chars P (s1 +:+ s2) = all_chars P s1 && all_chars P s2.
Proof.
  induction s1 as [|c s1 IH]; [done|].
  change (String c s1 +:+ s2) with (String c (s1 +:+ s2)).
  cbn [all_chars]. by rewrite IH, andb_assoc.
Qed.

(** The text of an integer is not empty and holds digits and minus signs
    only; in particular it holds no slash. *)
Lemma parse_Z_decimal s k :
  parse_Z s = Some k → s ≠ "" ∧ all_chars is_decimal_char s = true.
Proof.
  destruct s as [|c s]; [done|]. cbn [parse_Z]. intros Hs. split; [done|].
  assert (∀ s' n, parse_N s' = Some n →
            all_chars is_decimal_char s' = true) as Hdigits.
  { intros s' n [_ Hs']%parse_N_all_digits.
    eapply all_chars_impl; [|done]. unfold is_decimal_char. by intros ? ->. }
  case_decide as Hc; apply fmap_Some in Hs as (n & Hn & _); [|by eauto].
  cbn [all_chars]. rewrite (Hdigits _ _ Hn). unfold is_decimal_char.
  by rewrite (bool_decide_eq_true_2 _ Hc), orb_true_r.
Qed.

Lemma parse_Z_has_digit s k : parse_Z s = Some k → has_digit s = true.
Proof.
  destruct s as [|c s]; [done|]. cbn [parse_Z has_digit].
  case_decide; intros (n & [Hne Hn]%parse_N_all_digits & _)%fmap_Some.
  - by rewrite (all_digits_has_digit s), orb_true_r.
  - by apply (all_digits_has_digit (String c s)).
Qed.

Lemma pretty_Z_decimal k :
  pretty k ≠ "" ∧ all_chars is_decimal_char (pretty k) = true.
Proof. apply (parse_Z_decimal _ k), parse_Z_pretty. Qed.

#[export] Instance decimal_parser_laws : IntParserLaws.
Proof. split; [apply parse_Z_pretty|apply parse_Z_has_digit]. Qed.

End parse_Z_facts.
