(* ===== verification/Router.v ===== *)
(** * Routing: from method, path and query string to a handler call

    The decorators of [main.py] ([@app.get("/courses/{course_id}", ...)] and
    the six others) register routes on [app = FastAPI()], in the order of
    the file.  This file holds that table ([app]), the matching of a request
    against it as the routing library does it (first full match wins, a path
    that matches under another method is answered 405, a path that matches
    once its final slash is toggled is redirected, anything else is 404),
    and the binding of path, query and body to the parameters the handler
    signatures declare: one definition per signature
    ([get_course_call] for line 59, and so on), which [call] selects by the
    route that matched.  [handle_raw] composes it with [handle] of [App].

    A path is matched segment by segment: every parameter of the templates
    of [main.py] fills one whole segment, for which this is what the
    library's regular expression does, the final line feed that [$]
    tolerates included.  Integer parameters are parsed by an [IntParser]
    (file [Decimal]); the body arrives parsed into its typed fields, or not
    at all. *)

From Stdlib Require Import Ascii.
From stdpp Require Import pretty gmap.
From S2P Require Import Prelude Python Course Validation.
From S2P Require Import Registry Invariant App Decimal.

#[local] Set Warnings "-clear-no-such-hyp".

Local Open Scope Z_scope.

(** ** Requests as they arrive *)

Inductive Method := GET | POST | PUT | DELETE | HEAD | PATCH | OPTIONS.

#[export] Instance Method_eq_dec : EqDecision Method.
Proof. solve_decision. Defined.

Record RawRequest := mkRaw {
  raw_method : Method;
  raw_path : string;
  raw_query : gmap string string;
  raw_body : option CourseRequest
}.

(** ** The route table *)

(** The function a route calls: one of the seven handlers, or a page of the
    generated documentation. *)
Inductive Endpoint :=
| ep_get_all_courses
| ep_get_course
| ep_get_courses_by_rating
| ep_get_courses_by_publish_date
| ep_create_course
| ep_update_course
| ep_delete_course
| ep_docs (page : string).

Record Route := mkRoute {
  route_methods : list Method;
  route_path : string;
  route_endpoint : Endpoint
}.

Definition get_all_courses_route : Route :=
  mkRoute [GET] "/courses" ep_get_all_courses.

Definition get_course_route : Route :=
  mkRoute [GET] "/courses/{course_id}" ep_get_course.

Definition get_courses_by_rating_route : Route :=
  mkRoute [GET] "/courses/" ep_get_courses_by_rating.

Definition get_courses_by_publish_date_route : Route :=
  mkRoute [GET] "/courses/publishDate/" ep_get_courses_by_publish_date.

Definition create_course_route : Route :=
  mkRoute [POST] "/create_course" ep_create_course.

Definition update_course_route : Route :=
  mkRoute [PUT] "/courses/update_course" ep_update_course.

Definition delete_course_route : Route :=
  mkRoute [DELETE] "/courses/delete/{course_id}" ep_delete_course.

(** The routes [FastAPI()] installs before any decorator runs. *)
Definition FastAPI_routes : list Route :=
  [ mkRoute [GET; HEAD] "/openapi.json" (ep_docs "openapi");
    mkRoute [GET; HEAD] "/docs" (ep_docs "swagger");
    mkRoute [GET; HEAD] "/docs/oauth2-redirect" (ep_docs "oauth2-redirect");
    mkRoute [GET; HEAD] "/redoc" (ep_docs "redoc") ].

(** The application: its routes in the order of registration. *)
Definition app : list Route :=
  FastAPI_routes ++
  [ get_all_courses_route; get_course_route; get_courses_by_rating_route;
    get_courses_by_publish_date_route; create_course_route;
    update_course_route; delete_course_route ].

(** ** Paths and templates *)

Definition slash : ascii := "/".
Definition newline : string := String "010" "".

(** The segments of a path: the text between its slashes. *)
Fixpoint split_slash (s : string) : list string :=
  match s with
  | "" => [""]
  | String c s' =>
      if decide (c = slash) then "" :: split_slash s'
      else match split_slash s' with
           | seg :: segs => String c seg :: segs
           | [] => [String c ""]
           end
  end.

(** The path of given segments. *)
Fixpoint join_slash (segs : list string) : string :=
  match segs with
  | [] => ""
  | [seg] => seg
  | seg :: segs' => seg +:+ String slash (join_slash segs')
  end.

Definition not_slash (c : ascii) : bool := negb (bool_decide (c = slash)).

Inductive Seg := Lit (text : string) | Param (name : string).

(** The name before the closing brace, if the brace ends the segment. *)
Fixpoint param_name (s : string) : option string :=
  match s with
  | "" => None
  | String c s' =>
      if decide (c = "}"%char) then
        match s' with "" => Some "" | _ => None end
      else String c <$> param_name s'
  end.

Definition compile_segment (seg : string) : Seg :=
  match seg with
  | "" => Lit ""
  | String c rest =>
      if decide (c = "{"%char) then
        match param_name rest with
        | Some name => Param name
        | None => Lit seg
        end
      else Lit seg
  end.

Definition compile_path (template : string) : list Seg :=
  compile_segment <$> split_slash template.

(** A parameter takes one non-empty segment; a literal segment must be
    equal, and the last one may be followed by a line feed. *)
Fixpoint match_segs (segs : list Seg) (path : list string)
    : option (list (string * string)) :=
  match segs, path with
  | [], [] => Some []
  | Lit text :: segs', s :: path' =>
      if decide (s = text) then match_segs segs' path'
      else
        match segs', path' with
        | [], [] => if decide (s = text +:+ newline) then Some [] else None
        | _, _ => None
        end
  | Param name :: segs', s :: path' =>
      match s with
      | "" => None
      | _ => ((name, s) ::.) <$> match_segs segs' path'
      end
  | _, _ => None
  end.

Inductive Match := FULL (params : list (string * string)) | PARTIAL | NONE.

Definition matches (r : Route) (m : Method) (path : list string) : Match :=
  match match_segs (compile_path (route_path r)) path with
  | Some params =>
      if bool_decide (m ∈ route_methods r) then FULL params else PARTIAL
  | None => NONE
  end.

Inductive Found :=
| found_full (r : Route) (params : list (string * string))
| found_partial (r : Route)
| found_none.

(** The first route that matches path and method; failing that, the first
    one that matches the path. *)
Fixpoint find_route (routes : list Route) (m : Method) (path : list string)
    (partial : option Route) : Found :=
  match routes with
  | [] =>
      match partial with
      | Some r => found_partial r
      | None => found_none
      end
  | r :: routes' =>
      match matches r m path with
      | FULL params => found_full r params
      | PARTIAL =>
          find_route routes' m path
            (match partial with Some r' => Some r' | None => Some r end)
      | NONE => find_route routes' m path partial
      end
  end.

(** ** Redirection of slashes *)

(** Python's [rstrip("/")]. *)
Fixpoint rstrip_slash (s : string) : string :=
  match s with
  | "" => ""
  | String c s' =>
      match rstrip_slash s' with
      | "" => if decide (c = slash) then "" else String c ""
      | t => String c t
      end
  end.

Fixpoint ends_with_slash (s : string) : bool :=
  match s with
  | "" => false
  | String c "" => bool_decide (c = slash)
  | String _ s' => ends_with_slash s'
  end.

Definition redirect_path (path : string) : string :=
  if ends_with_slash path then rstrip_slash path else path +:+ "/".

(** Some route matches the path with its final slash toggled, under
    whatever method. *)
Definition redirects (routes : list Route) (m : Method) (path : string)
    : bool :=
  bool_decide (path ≠ "/") &&
  existsb (λ r, match matches r m (split_slash (redirect_path path)) with
                | NONE => false
                | _ => true
                end) routes.

(** ** Binding the parameters of a handler *)

Inductive Outcome :=
| Routed (req : Request)
| Unprocessable (fields : list string)
| Documentation (page : string)
| MethodNotAllowed
| RedirectTo (path : string)
| NotFound.

#[export] Instance Outcome_eq_dec : EqDecision Outcome.
Proof. solve_decision. Defined.

Definition assoc (params : list (string * string)) (name : string)
    : option string :=
  (λ found, found.2.2) <$> list_find (λ p, p.1 = name) params.

Section binding.
Context `{IntParser}.

(** An [int] parameter: present and an integer, or a validation error that
    names it. *)
Definition int_param (name : string) (value : option string)
    (k : Z → Request) : Outcome :=
  match value ≫= parse_int with
  | Some v => Routed (k v)
  | None => Unprocessable [name]
  end.

Definition body_param (body : option CourseRequest)
    (k : CourseRequest → Request) : Outcome :=
  match body with
  | Some course_request => Routed (k course_request)
  | None => Unprocessable ["body"]
  end.

(** The parameters of each decorated function, from where its signature
    declares them: the path parameter [course_id] of lines 59 and 107, the
    query parameters [course_rating] (line 67) and [publish_date] (line
    76), the body [course_request] of lines 85 and 96; [get_all_courses]
    (line 54) has none. *)
Definition get_all_courses_call : Outcome := Routed GET_courses.

Definition get_course_call (params : list (string * string)) : Outcome :=
  int_param "course_id" (assoc params "course_id") GET_course.

Definition get_courses_by_rating_call (query : gmap string string)
    : Outcome :=
  int_param "course_rating" (query !! "course_rating") GET_courses_by_rating.

Definition get_courses_by_publish_date_call (query : gmap string string)
    : Outcome :=
  int_param "publish_date" (query !! "publish_date")
    GET_courses_by_publish_date.

Definition create_course_call (body : option CourseRequest) : Outcome :=
  body_param body POST_create_course.

Definition update_course_call (body : option CourseRequest) : Outcome :=
  body_param body PUT_update_course.

Definition delete_course_call (params : list (string * string)) : Outcome :=
  int_param "course_id" (assoc params "course_id") DELETE_course.

(** The call a matched route makes. *)
Definition call (ep : Endpoint) (params : list (string * string))
    (query : gmap string string) (body : option CourseRequest) : Outcome :=
  match ep with
  | ep_get_all_courses => get_all_courses_call
  | ep_get_course => get_course_call params
  | ep_get_courses_by_rating => get_courses_by_rating_call query
  | ep_get_courses_by_publish_date => get_courses_by_publish_date_call query
  | ep_create_course => create_course_call body
  | ep_update_course => update_course_call body
  | ep_delete_course => delete_course_call params
  | ep_docs page => Documentation page
  end.

Definition dispatch (routes : list Route) (raw : RawRequest) : Outcome :=
  match
    find_route routes (raw_method raw) (split_slash (raw_path raw)) None
  with
  | found_full r params =>
      call (route_endpoint r) params (raw_query raw) (raw_body raw)
  | found_partial _ => MethodNotAllowed
  | found_none =>
      if redirects routes (raw_method raw) (raw_path raw)
      then RedirectTo (redirect_path (raw_path raw))
      else NotFound
  end.

End binding.

(** ** The client's side: the request of each operation *)

(** The method, path and query the interface of the service gives for each
    operation, with integers in decimal. *)
Definition render (req : Request) : RawRequest :=
  match req with
  | GET_courses => mkRaw GET "/courses" ∅ None
  | GET_course course_id =>
      mkRaw GET ("/courses/" +:+ pretty course_id) ∅ None
  | GET_courses_by_rating course_rating =>
      mkRaw GET "/courses/" {["course_rating" := pretty course_rating]} None
  | GET_courses_by_publish_date publish_date =>
      mkRaw GET "/courses/publishDate/"
        {["publish_date" := pretty publish_date]} None
  | POST_create_course course_request =>
      mkRaw POST "/create_course" ∅ (Some course_request)
  | PUT_update_course course_request =>
      mkRaw PUT "/courses/update_course" ∅ (Some course_request)
  | DELETE_course course_id =>
      mkRaw DELETE ("/courses/delete/" +:+ pretty course_id) ∅ None
  end.

Definition with_path (raw : RawRequest) (path : string) : RawRequest :=
  mkRaw (raw_method raw) path (raw_query raw) (raw_body raw).

(** ** The service behind the router *)

Inductive Reply :=
| Answer (resp : Response)
| Redirect (location : string)
| Page (name : string).

Section service.
Context `{IntParser}.

(** A client that follows redirections, at most [fuel] of them. *)
Fixpoint follow (fuel : nat) (routes : list Route) (raw : RawRequest)
    : option Outcome :=
  match dispatch routes raw with
  | RedirectTo path =>
      match fuel with
      | O => None
      | S fuel' => follow fuel' routes (with_path raw path)
      end
  | outcome => Some outcome
  end.

(** What the router does with a raw request: it hands a typed request to
    the service, or answers by itself. *)
Definition routed (o : Outcome) : Reply + Request :=
  match o with
  | Routed req => inr req
  | Unprocessable fields => inl (Answer (mkResponse 422 (JValidation fields)))
  | Documentation page => inl (Page page)
  | MethodNotAllowed =>
      inl (Answer (mkResponse 405 (JDetail "Method Not Allowed")))
  | RedirectTo path => inl (Redirect path)
  | NotFound => inl (Answer (mkResponse 404 (JDetail "Not Found")))
  end.

Definition handle_raw (raw : RawRequest) (db : list Entry)
    : Reply * list Entry :=
  match routed (dispatch app raw) with
  | inr req => let '(resp, db') := handle req db in (Answer resp, db')
  | inl reply => (reply, db)
  end.

Fixpoint serve_raw (raws : list RawRequest) (db : list Entry)
    : list Reply * list Entry :=
  match raws with
  | [] => ([], db)
  | raw :: raws' =>
      let '(reply, db') := handle_raw raw db in
      let '(replies, db'') := serve_raw raws' db' in
      (reply :: replies, db'')
  end.

End service.

(** * Theorems *)

(** ** Paths and their segments *)

Section paths.
Implicit Types (s p : string) (c : ascii).

Lemma app_String c s1 s2 : String c s1 +:+ s2 = String c (s1 +:+ s2).
Proof. done. Qed.

Lemma split_slash_nonempty s : split_slash s ≠ [].
Proof.
  destruct s as [|c s]; [done|]. cbn [split_slash].
  case_decide; [done|]. by destruct (split_slash s).
Qed.

(** Nothing of a path is lost by splitting it. *)
Lemma join_split_slash s : join_slash (split_slash s) = s.
Proof.
  induction s as [|c s IH]; [done|]. cbn [split_slash].
  pose proof (split_slash_nonempty s) as Hne. case_decide as Hc.
  - subst c. destruct (split_slash s) as [|seg segs]; [done|].
    cbn [join_slash] in *. by rewrite IH.
  - destruct (split_slash s) as [|seg [|seg' segs]]; [done|..];
      cbn [join_slash] in *; by rewrite <- IH.
Qed.

Lemma split_no_slash s : all_chars not_slash s = true → split_slash s = [s].
Proof.
  induction s as [|c s IH]; [done|]. cbn [all_chars split_slash].
  intros [Hc Hs]%andb_true_iff. rewrite IH by done.
  apply negb_true_iff, bool_decide_eq_false in Hc. by rewrite decide_False.
Qed.

(** A last segment without slash, appended after a slash, is one more
    segment. *)
Lemma split_slash_snoc p s :
  all_chars not_slash s = true →
  split_slash (p +:+ String slash s) = split_slash p ++ [s].
Proof.
  intros Hs. induction p as [|c p IH].
  - change ("" +:+ String slash s) with (String slash s).
    cbn [split_slash]. by rewrite decide_True, split_no_slash.
  - rewrite app_String. cbn [split_slash]. rewrite IH.
    pose proof (split_slash_nonempty p). case_decide; [done|].
    by destruct (split_slash p).
Qed.

Lemma decimal_no_slash s :
  all_chars is_decimal_char s = true → all_chars not_slash s = true.
Proof.
  apply all_chars_impl. intros c. unfold is_decimal_char, not_slash, is_digit.
  intros Hc. apply negb_true_iff, bool_decide_eq_false. intros ->.
  by vm_compute in Hc.
Qed.

(** The path made of a prefix, a slash and an integer in decimal. *)
Lemma split_slash_pretty p (k : Z) :
  split_slash (p +:+ String slash (pretty k)) = split_slash p ++ [pretty k].
Proof. apply split_slash_snoc, decimal_no_slash, pretty_Z_decimal. Qed.

(** The first character of decimal text. *)
Lemma decimal_char_cases c :
  is_decimal_char c = true →
  c ∈ ["-"; "0"; "1"; "2"; "3"; "4"; "5"; "6"; "7"; "8"; "9"]%char.
Proof.
  destruct c as [[] [] [] [] [] [] [] []]; intros Hc; vm_compute in Hc;
    try discriminate; apply (bool_decide_unpack _); by vm_compute.
Qed.

Lemma ends_with_slash_cons c s :
  s ≠ "" → ends_with_slash (String c s) = ends_with_slash s.
Proof. by destruct s. Qed.

Lemma ends_with_slash_app s1 s2 :
  s2 ≠ "" → ends_with_slash (s1 +:+ s2) = ends_with_slash s2.
Proof.
  intros Hs2. induction s1 as [|c s1 IH]; [done|].
  rewrite app_String, ends_with_slash_cons; [done|]. by destruct s1, s2.
Qed.

Lemma ends_with_slash_no_slash s :
  all_chars not_slash s = true → ends_with_slash s = false.
Proof.
  induction s as [|c s IH]; [done|]. cbn [all_chars].
  intros [Hc Hs]%andb_true_iff. destruct s as [|c' s].
  - by apply negb_true_iff in Hc.
  - rewrite ends_with_slash_cons by done. by apply IH.
Qed.

Lemma rstrip_slash_snoc s : rstrip_slash (s +:+ "/") = rstrip_slash s.
Proof.
  induction s as [|c s IH]; [done|]. rewrite app_String.
  cbn [rstrip_slash]. by rewrite IH.
Qed.

Lemma rstrip_slash_id s : ends_with_slash s = false → rstrip_slash s = s.
Proof.
  induction s as [|c s IH]; [done|]. destruct s as [|c' s].
  - cbn. intros Hc%bool_decide_eq_false. by rewrite decide_False.
  - rewrite ends_with_slash_cons by done. intros Hs.
    change (rstrip_slash (String c (String c' s)))
      with (match rstrip_slash (String c' s) with
            | "" => if decide (c = slash) then "" else String c ""
            | t => String c t
            end).
    by rewrite (IH Hs).
Qed.

(** The two directions of the toggle, for a path that does not end with a
    slash. *)
Lemma redirect_path_add p :
  ends_with_slash p = false → redirect_path p = p +:+ "/".
Proof. unfold redirect_path. by intros ->. Qed.

Lemma redirect_path_strip p :
  ends_with_slash p = false → redirect_path (p +:+ "/") = p.
Proof.
  intros Hp. unfold redirect_path.
  rewrite ends_with_slash_app by done. cbn [ends_with_slash].
  rewrite bool_decide_eq_true_2 by done.
  by rewrite rstrip_slash_snoc, rstrip_slash_id.
Qed.

Lemma split_slash_slash p : split_slash (p +:+ "/") = split_slash p ++ [""].
Proof. by apply (split_slash_snoc p ""). Qed.

End paths.

(** ** Each operation reaches its handler *)

Section reach.
Context `{IntParserLaws}.
Implicit Types (k : Z) (s : string) (req : Request).

Lemma find_route_get_course s :
  s ≠ "" →
  find_route app GET [""; "courses"; s] None =
  found_full get_course_route [("course_id", s)].
Proof. destruct s; [done|]. intros _. by vm_compute. Qed.

Lemma find_route_delete_course s :
  s ≠ "" →
  find_route app DELETE [""; "courses"; "delete"; s] None =
  found_full delete_course_route [("course_id", s)].
Proof. destruct s; [done|]. intros _. by vm_compute. Qed.

Lemma int_param_pretty name k (mk : Z → Request) :
  int_param name (Some (pretty k)) mk = Routed (mk k).
Proof.
  unfold int_param. cbn [mbind option_bind]. by rewrite parse_int_pretty.
Qed.

Lemma dispatch_path_param (m : Method) prefix k r (mk : Z → Request) :
  find_route app m (split_slash prefix ++ [pretty k]) None =
    found_full r [("course_id", pretty k)] →
  call (route_endpoint r) [("course_id", pretty k)] ∅ None = Routed (mk k) →
  dispatch app (mkRaw m (prefix +:+ String slash (pretty k)) ∅ None) =
  Routed (mk k).
Proof.
  intros Hfind Hcall. unfold dispatch. cbn [raw_method raw_path].
  by rewrite split_slash_pretty, Hfind.
Qed.

Lemma find_route_const :
  find_route app GET (split_slash "/courses") None =
    found_full get_all_courses_route [] ∧
  find_route app GET (split_slash "/courses/") None =
    found_full get_courses_by_rating_route [] ∧
  find_route app GET (split_slash "/courses/publishDate/") None =
    found_full get_courses_by_publish_date_route [] ∧
  find_route app POST (split_slash "/create_course") None =
    found_full create_course_route [] ∧
  find_route app PUT (split_slash "/courses/update_course") None =
    found_full update_course_route [].
Proof. by vm_compute. Qed.

Lemma dispatch_const (m : Method) path query body r :
  find_route app m (split_slash path) None = found_full r [] →
  dispatch app (mkRaw m path query body) =
  call (route_endpoint r) [] query body.
Proof.
  intros Hfind. unfold dispatch. cbn [raw_method raw_path]. by rewrite Hfind.
Qed.

Lemma dispatch_render_lemma req : dispatch app (render req) = Routed req.
Proof.
  pose proof (λ k, proj1 (pretty_Z_decimal k)) as Hne.
  destruct find_route_const as (Hall & Hrating & Hdate & Hcreate & Hupdate).
  destruct req as [|k|r|d|body|body|k]; cbn [render].
  - by rewrite (dispatch_const _ _ _ _ _ Hall).
  - apply (dispatch_path_param GET "/courses" k get_course_route).
    + by apply find_route_get_course.
    + apply int_param_pretty.
  - rewrite (dispatch_const _ _ _ _ _ Hrating).
    cbn [call route_endpoint get_courses_by_rating_route].
    unfold get_courses_by_rating_call. rewrite lookup_singleton_eq. apply int_param_pretty.
  - rewrite (dispatch_const _ _ _ _ _ Hdate).
    cbn [call route_endpoint get_courses_by_publish_date_route].
    unfold get_courses_by_publish_date_call. rewrite lookup_singleton_eq. apply int_param_pretty.
  - by rewrite (dispatch_const _ _ _ _ _ Hcreate).
  - by rewrite (dispatch_const _ _ _ _ _ Hupdate).
  - apply (dispatch_path_param DELETE "/courses/delete" k delete_course_route).
    + by apply find_route_delete_course.
    + apply int_param_pretty.
Qed.

(** The routes a path with an id reaches, under each method. *)
Lemma find_route_courses_id m s :
  s ≠ "" → all_chars is_decimal_char s = true →
  find_route app m [""; "courses"; s] None =
  if bool_decide (m = GET) then found_full get_course_route [("course_id", s)]
  else found_partial get_course_route.
Proof.
  destruct s as [|c s]; [done|]. intros _ [Hc _]%andb_true_iff.
  apply decimal_char_cases in Hc.
  repeat (apply elem_of_cons in Hc as [->|Hc]); [..|by apply elem_of_nil in Hc];
    destruct m; by vm_compute.
Qed.

Lemma find_route_courses_id_slash m s :
  s ≠ "" → all_chars is_decimal_char s = true →
  find_route app m [""; "courses"; s; ""] None = found_none.
Proof.
  destruct s as [|c s]; [done|]. intros _ [Hc _]%andb_true_iff.
  apply decimal_char_cases in Hc.
  repeat (apply elem_of_cons in Hc as [->|Hc]); [..|by apply elem_of_nil in Hc];
    destruct m; by vm_compute.
Qed.

Lemma find_route_delete_id m s :
  s ≠ "" →
  find_route app m [""; "courses"; "delete"; s] None =
  if bool_decide (m = DELETE)
  then found_full delete_course_route [("course_id", s)]
  else found_partial delete_course_route.
Proof. destruct s; [done|]. intros _. destruct m; by vm_compute. Qed.

Lemma find_route_delete_id_slash m s :
  s ≠ "" → find_route app m [""; "courses"; "delete"; s; ""] None = found_none.
Proof. destruct s; [done|]. intros _. destruct m; by vm_compute. Qed.

(** A word in the place of a course id. *)
Lemma dispatch_word s query body :
  s ≠ "" → all_chars not_slash s = true → has_digit s = false →
  dispatch app (mkRaw GET ("/courses" +:+ String slash s) query body) =
  Unprocessable ["course_id"].
Proof.
  intros Hne Hslash Hdigit. unfold dispatch. cbn [raw_method raw_path].
  rewrite split_slash_snoc by done.
  rewrite (find_route_get_course s Hne : find_route app GET
             (split_slash "/courses" ++ [s]) None = _).
  cbn [call route_endpoint get_course_route].
  unfold get_course_call, int_param.
  change (assoc [("course_id", s)] "course_id") with (Some s).
  cbn [mbind option_bind]. destruct (parse_int s) as [k|] eqn:Hs; [|done].
  apply parse_int_has_digit in Hs. congruence.
Qed.

End reach.

(** ** What the router answers *)

Section router.
Context `{IntParser}.
Implicit Types (routes : list Route) (raw : RawRequest) (m : Method).
Implicit Types (path : list string) (r : Route).

Lemma call_cases ep params query body :
  (∃ req, call ep params query body = Routed req) ∨
  (∃ fields, call ep params query body = Unprocessable fields) ∨
  (∃ page, call ep params query body = Documentation page).
Proof.
  destruct ep; cbn [call];
    unfold get_all_courses_call, get_course_call, get_courses_by_rating_call,
      get_courses_by_publish_date_call, create_course_call,
      update_course_call, delete_course_call, int_param, body_param;
    repeat case_match; eauto.
Qed.

Lemma find_route_full routes m path partial r params :
  find_route routes m path partial = found_full r params →
  r ∈ routes ∧ matches r m path = FULL params.
Proof.
  revert partial. induction routes as [|r' routes IH]; intros partial.
  - cbn [find_route]. by destruct partial.
  - cbn [find_route]. destruct (matches r' m path) eqn:Hr'.
    + intros [= <- <-]. split; [left|done].
    + intros [??]%IH. split; [by right|done].
    + intros [??]%IH. split; [by right|done].
Qed.

(** The search finds nothing exactly when no route matches the path, under
    whatever method. *)
Lemma find_route_none routes m path partial :
  find_route routes m path partial = found_none ↔
  partial = None ∧ Forall (λ r, matches r m path = NONE) routes.
Proof.
  revert partial. induction routes as [|r routes IH]; intros partial.
  - cbn [find_route]. rewrite Forall_nil. destruct partial; naive_solver.
  - cbn [find_route]. rewrite Forall_cons.
    destruct (matches r m path) eqn:Hr; [naive_solver|..]; rewrite IH.
    + destruct partial; naive_solver.
    + naive_solver.
Qed.

(** It finds a partial match exactly when some route matches the path and
    none matches path and method. *)
Lemma find_route_partial routes m path partial :
  (∃ r, find_route routes m path partial = found_partial r) ↔
  Forall (λ r, ∀ params, matches r m path ≠ FULL params) routes ∧
  (is_Some partial ∨ Exists (λ r, matches r m path = PARTIAL) routes).
Proof.
  revert partial. induction routes as [|r routes IH]; intros partial.
  - cbn [find_route]. rewrite Forall_nil, Exists_nil.
    destruct partial; naive_solver.
  - cbn [find_route]. rewrite Forall_cons, Exists_cons.
    destruct (matches r m path) eqn:Hr; [naive_solver|..]; rewrite IH.
    + destruct partial; naive_solver.
    + naive_solver.
Qed.

Lemma dispatch_redirect routes raw location :
  dispatch routes raw = RedirectTo location →
  location = redirect_path (raw_path raw) ∧
  redirects routes (raw_method raw) (raw_path raw) = true.
Proof.
  unfold dispatch. destruct (find_route _ _ _ _) as [r params|r|] eqn:Hfind.
  - destruct (call_cases (route_endpoint r) params (raw_query raw)
                (raw_body raw)) as [[? ->]|[[? ->]|[? ->]]]; done.
  - done.
  - destruct (redirects _ _ _); naive_solver.
Qed.

(** A redirection leads to a path that some route matches. *)
Lemma redirects_found routes m pathname :
  redirects routes m pathname = true →
  find_route routes m (split_slash (redirect_path pathname)) None ≠
  found_none.
Proof.
  unfold redirects. intros [_ Hex]%andb_true_iff.
  apply existsb_exists in Hex as (r & Hr & Hmatch).
  intros [_ Hnone]%find_route_none. apply list_elem_of_In in Hr.
  eapply Forall_forall in Hnone; [|done]. by rewrite Hnone in Hmatch.
Qed.

Lemma dispatch_after_redirect routes raw location :
  dispatch routes raw = RedirectTo location →
  ∀ location', dispatch routes (with_path raw location) ≠ RedirectTo location'.
Proof.
  intros [-> Hred%redirects_found]%dispatch_redirect location'.
  unfold dispatch, with_path. cbn [raw_method raw_path raw_query raw_body].
  destruct (find_route _ _ _ _) as [r params|r|]; [|done..].
  destruct (call_cases (route_endpoint r) params (raw_query raw)
              (raw_body raw)) as [[? ->]|[[? ->]|[? ->]]]; done.
Qed.

(** A path that no route matches, while one matches it with the final
    slash toggled, is redirected there. *)
Lemma dispatch_toggle routes m (pathname : string) query body :
  pathname ≠ "/" →
  find_route routes m (split_slash pathname) None = found_none →
  find_route routes m (split_slash (redirect_path pathname)) None ≠
    found_none →
  dispatch routes (mkRaw m pathname query body) =
  RedirectTo (redirect_path pathname).
Proof.
  intros Hroot Hnone Hsome. unfold dispatch. cbn [raw_method raw_path].
  rewrite Hnone. unfold redirects. rewrite bool_decide_eq_true_2 by done.
  destruct (existsb _ routes) eqn:Hex; [done|]. destruct Hsome.
  apply find_route_none. split; [done|]. apply Forall_forall. intros r Hr.
  apply not_true_iff_false in Hex.
  destruct (matches r m _) eqn:Hmatch; [..|done]; destruct Hex;
    apply existsb_exists; exists r; rewrite Hmatch;
    by split; [apply list_elem_of_In|].
Qed.

End router.

(** ** The service behind the router *)

Section raw_service.
Context `{IntParserLaws}.
Implicit Types (raw : RawRequest) (req : Request) (db : list Entry).

Lemma handle_raw_Routed raw req db :
  dispatch app raw = Routed req →
  handle_raw raw db = (Answer (handle req db).1, (handle req db).2).
Proof.
  intros Hraw. unfold handle_raw. rewrite Hraw. cbn [routed].
  by destruct (handle req db).
Qed.

Lemma handle_raw_render req db :
  handle_raw (render req) db = (Answer (handle req db).1, (handle req db).2).
Proof. apply handle_raw_Routed, dispatch_render_lemma. Qed.

(** A raw request is served as some typed request, or changes nothing. *)
Lemma handle_raw_cases raw db :
  (∃ req, dispatch app raw = Routed req ∧
     handle_raw raw db = (Answer (handle req db).1, (handle req db).2)) ∨
  (∀ req, dispatch app raw ≠ Routed req) ∧ (handle_raw raw db).2 = db.
Proof.
  destruct (dispatch app raw) as [req| | | | |] eqn:Hraw;
    [left; eauto using handle_raw_Routed|right..];
    unfold handle_raw; by rewrite Hraw.
Qed.

Lemma serve_raw_cons raw raws db :
  serve_raw (raw :: raws) db =
  ((handle_raw raw db).1 :: (serve_raw raws (handle_raw raw db).2).1,
   (serve_raw raws (handle_raw raw db).2).2).
Proof.
  cbn [serve_raw]. destruct (handle_raw raw db) as [reply db'].
  cbn [fst snd]. by destruct (serve_raw raws db') as [replies db''].
Qed.

Lemma serve_raw_serve_by raws db :
  serve_raw raws db = serve_by handle_raw raws db.
Proof.
  revert db. induction raws as [|raw raws IH]; intros db; [done|].
  by rewrite serve_raw_cons, IH.
Qed.

Lemma handle_raw_reachable raw db :
  reachable db → reachable (handle_raw raw db).2.
Proof.
  intros Hdb. destruct (handle_raw_cases raw db) as [(req & _ & ->)|[_ ->]];
    [|done].
  eapply reachable_step; [done|apply handle_step].
Qed.

Lemma serve_raw_reachable_from raws db :
  reachable db → reachable (serve_raw raws db).2.
Proof.
  revert db. induction raws as [|raw raws IH]; intros db Hdb; [done|].
  rewrite serve_raw_cons. by apply IH, handle_raw_reachable.
Qed.

End raw_service.

(** ** The interface of the service, end to end *)

Section interface.
Context `{IntParserLaws}.
Implicit Types (raw : RawRequest) (req : Request) (db : list Entry).

(** C21: The request that the interface of the service gives for an
    operation (method, path with the id in decimal, query string, body) is
    routed to the handler of that operation with those arguments: no route
    declared earlier in [main.py] takes it, and the parameter names of the
    templates are those of the handler signatures. *)
Theorem dispatch_render req : dispatch app (render req) = Routed req.
Proof. apply dispatch_render_lemma. Qed.

(** C24: Served through the router, the requests of a sequence of
    operations get the answers [serve] computes and leave the registry
    [serve] leaves. *)
Theorem serve_raw_render reqs db :
  serve_raw (render <$> reqs) db =
  (Answer <$> (serve reqs db).1, (serve reqs db).2).
Proof.
  revert db. induction reqs as [|req reqs IH]; intros db; [done|].
  rewrite fmap_cons, serve_raw_cons, serve_cons, handle_raw_render.
  cbn [fst snd]. by rewrite IH.
Qed.

(** C38: A path segment without any digit in the place of a course id is
    answered 422 naming [course_id]: [GET /courses/publishDate] without its
    final slash and [GET /courses/update_course] are taken by the route
    [/courses/{course_id}], declared before them, and fail as ids. *)
Theorem word_as_course_id s query body :
  s ≠ "" → all_chars not_slash s = true → has_digit s = false →
  dispatch app (mkRaw GET ("/courses" +:+ String slash s) query body) =
  Unprocessable ["course_id"].
Proof. apply dispatch_word. Qed.

(** C22: error - each path of the interface is answered 405 under every
    method but the one of its decorator: the routes of [main.py] are
    declared for one method each, and [HEAD] is not added to the GET
    routes.  The one exception is [GET /courses/update_course], which the
    route [/courses/{course_id}] takes and answers 422. *)
Theorem method_not_allowed req m query body :
  m ≠ raw_method (render req) →
  dispatch app (mkRaw m (raw_path (render req)) query body) =
  match req, m with
  | PUT_update_course _, GET => Unprocessable ["course_id"]
  | _, _ => MethodNotAllowed
  end.
Proof.
  pose proof (λ k, pretty_Z_decimal k) as Hk.
  destruct req as [|k|r|d|b|b|k]; cbn [render raw_method raw_path]; intros Hm.
  - destruct m; try done; by vm_compute.
  - unfold dispatch. cbn [raw_method raw_path].
    rewrite (split_slash_pretty "/courses" k : split_slash ("/courses/" +:+ _) = _).
    rewrite (find_route_courses_id m _ (proj1 (Hk k)) (proj2 (Hk k))
               : find_route app m (split_slash "/courses" ++ _) None = _).
    by rewrite bool_decide_eq_false_2.
  - destruct m; try done; by vm_compute.
  - destruct m; try done; by vm_compute.
  - destruct m; try done; by vm_compute.
  - destruct m; try done; try (by vm_compute).
    by apply (dispatch_word "update_course").
  - unfold dispatch. cbn [raw_method raw_path].
    rewrite (split_slash_pretty "/courses/delete" k
               : split_slash ("/courses/delete/" +:+ _) = _).
    rewrite (find_route_delete_id m _ (proj1 (Hk k))
               : find_route app m (split_slash "/courses/delete" ++ _) None
                 = _).
    by rewrite bool_decide_eq_false_2.
Qed.

(** An operation whose path got a final slash too many is redirected to
    its own path and reaches its handler. *)
Lemma follow_extra_slash m (path : string) query body req :
  ends_with_slash path = false →
  find_route app m (split_slash path ++ [""]) None = found_none →
  dispatch app (mkRaw m path query body) = Routed req →
  follow 1 app (mkRaw m (path +:+ "/") query body) = Some (Routed req).
Proof.
  intros Hend Hnone Hdispatch. cbn [follow].
  rewrite (dispatch_toggle app m (path +:+ "/")).
  - rewrite redirect_path_strip by done. unfold with_path.
    cbn [raw_method raw_query raw_body]. by rewrite Hdispatch.
  - destruct path as [|c path]; [done|]. by destruct path.
  - by rewrite split_slash_slash.
  - rewrite redirect_path_strip by done. intros Hfound.
    unfold dispatch in Hdispatch. cbn [raw_method raw_path] in Hdispatch.
    rewrite Hfound in Hdispatch. by destruct (redirects _ _ _).
Qed.

Lemma ends_with_slash_pretty (p : string) (k : Z) : ends_with_slash (p +:+ pretty k) = false.
Proof.
  destruct (pretty_Z_decimal k) as [Hne Hk].
  rewrite ends_with_slash_app by done.
  by apply ends_with_slash_no_slash, decimal_no_slash.
Qed.

(** C23: functional - the final slash of a path, added or left out by a
    client that follows redirections.  For get by id, create, update and
    delete the request is redirected once to the path of the decorator
    and reaches the handler with its arguments.  For the three other
    operations the path with the slash toggled is a route of its own, so
    nothing is redirected: [/courses/] is the rating filter (422 without
    its query), [/courses] lists all courses whatever the query says, and
    [/courses/publishDate] is taken by [/courses/{course_id}] (422). *)
Theorem follow_toggled_slash req :
  follow 1 app
    (with_path (render req) (redirect_path (raw_path (render req)))) =
  Some match req with
       | GET_courses => Unprocessable ["course_rating"]
       | GET_courses_by_rating _ => Routed GET_courses
       | GET_courses_by_publish_date _ => Unprocessable ["course_id"]
       | _ => Routed req
       end.
Proof.
  pose proof (λ k, pretty_Z_decimal k) as Hk.
  pose proof (dispatch_render_lemma req) as Hreq.
  destruct find_route_const as (Hall & _).
  destruct req as [|k|r|d|b|b|k]; unfold with_path;
    cbn [render raw_method raw_path raw_query raw_body] in *.
  - by vm_compute.
  - rewrite redirect_path_add by apply ends_with_slash_pretty.
    apply follow_extra_slash; [apply ends_with_slash_pretty| |done].
    rewrite (split_slash_pretty "/courses" k
               : split_slash ("/courses/" +:+ _) = _).
    by apply (find_route_courses_id_slash GET (pretty k)); apply Hk.
  - change (redirect_path "/courses/") with "/courses". cbn [follow].
    by rewrite (dispatch_const GET "/courses" _ None _ Hall).
  - change (redirect_path "/courses/publishDate/")
      with ("/courses" +:+ String slash "publishDate").
    cbn [follow]. by rewrite dispatch_word.
  - by apply (follow_extra_slash POST "/create_course").
  - by apply (follow_extra_slash PUT "/courses/update_course").
  - rewrite redirect_path_add by apply ends_with_slash_pretty.
    apply follow_extra_slash; [apply ends_with_slash_pretty| |done].
    rewrite (split_slash_pretty "/courses/delete" k
               : split_slash ("/courses/delete/" +:+ _) = _).
    by apply (find_route_delete_id_slash DELETE (pretty k)), Hk.
Qed.

End interface.

Lemma dispatch_render_witness :
  dispatch app (render (GET_course 12)) = Routed (GET_course 12).
Proof. exact (dispatch_render (GET_course 12)). Defined.

Lemma serve_raw_render_witness :
  let body := mkCourseRequest None (str_of "Rust") (str_of "Ferris") 5 2015 in
  let reqs := [POST_create_course body; GET_course 7; DELETE_course 7] in
  serve_raw (render <$> reqs) courses_db =
  (Answer <$> (serve reqs courses_db).1, (serve reqs courses_db).2).
Proof. intros body reqs. exact (serve_raw_render reqs courses_db). Defined.

Lemma word_as_course_id_witness :
  dispatch app (mkRaw GET "/courses/publishDate" ∅ None) =
  Unprocessable ["course_id"].
Proof.
  exact (word_as_course_id "publishDate" ∅ None ltac:(done) eq_refl eq_refl).
Defined.

Lemma method_not_allowed_witness :
  dispatch app (mkRaw DELETE (raw_path (render (GET_course 3))) ∅ None) =
  MethodNotAllowed.
Proof. exact (method_not_allowed (GET_course 3) DELETE ∅ None ltac:(done)). Defined.

Lemma follow_toggled_slash_witness :
  follow 1 app (mkRaw DELETE "/courses/delete/4/" ∅ None) =
  Some (Routed (DELETE_course 4)).
Proof. exact (follow_toggled_slash (DELETE_course 4)). Defined.

Section router_theorems.
Context `{IntParser}.
Implicit Types (routes : list Route) (raw : RawRequest).

(** A client that follows redirections stops after one: the path a
    request is redirected to (its final slash toggled) is matched by a
    route, so it is answered and never redirected again, whatever the
    route table. *)
Lemma follow_terminates routes raw fuel :
  ∃ outcome, follow (S fuel) routes raw = Some outcome ∧
    ∀ location, outcome ≠ RedirectTo location.
Proof.
  cbn [follow]. destruct (dispatch routes raw) as [| | | |location|] eqn:Hraw;
    try (eexists; split; [reflexivity|done]).
  pose proof (dispatch_after_redirect _ _ _ Hraw) as Hnext.
  destruct fuel as [|fuel]; cbn [follow];
    destruct (dispatch routes (with_path raw location)) as [| | | |path|];
    try (eexists; split; [reflexivity|done]); by destruct (Hnext path).
Qed.

(** What the router answers without calling a handler.  405 exactly
    when some route matches the path and none matches path and method; a
    redirection exactly when no route matches the path, the path is not the
    root and some route matches it with the final slash toggled; 404
    exactly when no route matches either path. *)
Lemma router_errors routes raw :
  let m := raw_method raw in
  let path := split_slash (raw_path raw) in
  (dispatch routes raw = MethodNotAllowed ↔
     Forall (λ r, ∀ params, matches r m path ≠ FULL params) routes ∧
     Exists (λ r, matches r m path = PARTIAL) routes) ∧
  (dispatch routes raw = RedirectTo (redirect_path (raw_path raw)) ↔
     Forall (λ r, matches r m path = NONE) routes ∧
     redirects routes m (raw_path raw) = true) ∧
  (dispatch routes raw = NotFound ↔
     Forall (λ r, matches r m path = NONE) routes ∧
     redirects routes m (raw_path raw) = false).
Proof.
  intros m path. unfold dispatch. fold m path.
  destruct (find_route routes m path None) as [r params|r|] eqn:Hfind.
  - apply find_route_full in Hfind as [Hr Hm].
    assert (¬ Forall (λ r, ∀ params, matches r m path ≠ FULL params) routes)
      by (rewrite Forall_forall; naive_solver).
    assert (¬ Forall (λ r, matches r m path = NONE) routes)
      by (rewrite Forall_forall; intros Hall; specialize (Hall r Hr);
          congruence).
    destruct (call_cases (route_endpoint r) params (raw_query raw)
                (raw_body raw)) as [[? ->]|[[? ->]|[? ->]]]; naive_solver.
  - assert (¬ Forall (λ r, matches r m path = NONE) routes).
    { intros Hall. by rewrite (proj2 (find_route_none _ _ _ None)) in Hfind. }
    assert (∃ r, find_route routes m path None = found_partial r) as Hp
      by eauto.
    apply find_route_partial in Hp as [Hno [[? [=]]|Hex]]. naive_solver.
  - apply find_route_none in Hfind as [_ Hnone].
    assert (¬ Exists (λ r, matches r m path = PARTIAL) routes).
    { rewrite Exists_exists. intros (r & Hr & Hp).
      eapply Forall_forall in Hnone; [|done]. congruence. }
    destruct (redirects routes m (raw_path raw)); naive_solver.
Qed.

(** Whatever requests arrive, well formed or not, routed or not, the
    registry they leave is one the typed service reaches: it is well formed
    and its records satisfy the validated constraints. *)
Lemma serve_raw_reachable raws :
  let db := (serve_raw raws courses_db).2 in
  reachable db ∧ wf db ∧ fields_ok db.
Proof.
  intros db.
  assert (reachable db) by (apply serve_raw_reachable_from; constructor).
  auto using reachable_is_wf, reachable_is_fields_ok.
Qed.

End router_theorems.
