(* ===== verification/Objects.v ===== *)
(** * Objects as Python has them: attributes in a dictionary

    [Course] is a plain class: an instance is the dictionary of the
    attributes its [__init__] (lines 16-21) assigns, whatever their values.
    [create_course] builds one from [course_request.model_dump()] (line 86):
    the dump of the request, a dictionary from field name to value, is
    unpacked into the keyword arguments of [Course].  This file models that call
    with the errors of argument binding, relates the dictionaries to the
    typed records of [Course], and says what the annotations of the class
    (lines 10-14) amount to for a stored record: once its fields are typed,
    only that its [id] is set. *)

From S2P Require Import Prelude Python Course Validation.
From S2P Require Import Registry Invariant App Observe.

#[local] Set Warnings "-clear-no-such-hyp".

Local Open Scope Z_scope.

(** ** Values and dictionaries *)

Inductive Value := VNone | VInt (n : Z) | VStr (s : str).

#[export] Instance Value_eq_dec : EqDecision Value.
Proof. solve_decision. Defined.

(** A dictionary keeps its keys in insertion order. *)
Abbreviation Dict := (list (string * Value)).

(** [d[key]] *)
Fixpoint dict_get (d : Dict) (key : string) : option Value :=
  match d with
  | [] => None
  | (k, v) :: d' => if decide (k = key) then Some v else dict_get d' key
  end.

(** [d[key] = v]: in place when the key is there, at the end otherwise. *)
Fixpoint dict_set (d : Dict) (key : string) (v : Value) : Dict :=
  match d with
  | [] => [(key, v)]
  | (k, v') :: d' =>
      if decide (k = key) then (k, v) :: d' else (k, v') :: dict_set d' key v
  end.

Definition keys (d : Dict) : list string := d.*1.

(** ** The two classes *)

Inductive PyType := TInt | TStr | TOptional (t : PyType).

(** The annotations of [class Course]. *)
Definition Course_annotations : list (string * PyType) :=
  [("id", TInt); ("title", TStr); ("instructor", TStr); ("rating", TInt);
   ("published_date", TInt)].

(** The annotations of [class CourseRequest]. *)
Definition CourseRequest_annotations : list (string * PyType) :=
  [("id", TOptional TInt); ("title", TStr); ("instructor", TStr);
   ("rating", TInt); ("published_date", TInt)].

(** The parameters of [Course.__init__] after [self]. *)
Definition Course_init_params : list string :=
  ["id"; "title"; "instructor"; "rating"; "published_date"].

Fixpoint has_type (t : PyType) (v : Value) : bool :=
  match t, v with
  | TInt, VInt _ => true
  | TStr, VStr _ => true
  | TOptional _, VNone => true
  | TOptional t', _ => has_type t' v
  | _, _ => false
  end.

(** Every annotated attribute is there, with a value of its type. *)
Definition well_typed (annotations : list (string * PyType)) (d : Dict)
    : bool :=
  forallb (λ a, match dict_get d a.1 with
                | Some v => has_type a.2 v
                | None => false
                end) annotations.

(** ** Calling [Course] with keyword arguments *)

(** [course_request.model_dump()]: the fields by name, in the order of
    their declaration. *)
Definition model_dump (course_request : CourseRequest) : Dict :=
  [("id", from_option VInt VNone (id course_request));
   ("title", VStr (title course_request));
   ("instructor", VStr (instructor course_request));
   ("rating", VInt (rating course_request));
   ("published_date", VInt (published_date course_request))].

(** Keyword arguments bound to parameters without default: a keyword that
    names no parameter and a parameter that receives no value are
    [TypeError]s. *)
Definition bind_kwargs (params : list string) (kwargs : Dict)
    : Exn + list Value :=
  if bool_decide (keys kwargs ⊆ params) then
    match mapM (dict_get kwargs) params with
    | Some args => inr args
    | None => inl TypeError
    end
  else inl TypeError.

(** The body of [__init__]: five attribute assignments on the new object. *)
Definition Course_init (id title instructor rating published_date : Value)
    : Dict :=
  let self : Dict := [] in
  let self := dict_set self "id" id in
  let self := dict_set self "title" title in
  let self := dict_set self "instructor" instructor in
  let self := dict_set self "rating" rating in
  dict_set self "published_date" published_date.

Definition Course_call (kwargs : Dict) : Exn + Dict :=
  match bind_kwargs Course_init_params kwargs with
  | inr [id; title; instructor; rating; published_date] =>
      inr (Course_init id title instructor rating published_date)
  | inr _ => inl TypeError
  | inl e => inl e
  end.

(** ** Typed records and their dictionaries *)

(** [vars(course)] of a [Course] whose attributes have the types of the
    record. *)
Definition vars (course : Course) : Dict :=
  Course_init (from_option VInt VNone (id course)) (VStr (title course))
    (VStr (instructor course)) (VInt (rating course))
    (VInt (published_date course)).

(** The record of a dictionary, when its attributes have those types. *)
Definition to_Course (d : Dict) : option Course :=
  match
    dict_get d "id", dict_get d "title", dict_get d "instructor",
    dict_get d "rating", dict_get d "published_date"
  with
  | Some vid, Some (VStr title), Some (VStr instructor), Some (VInt rating),
    Some (VInt published_date) =>
      match vid with
      | VNone => Some (mkCourse None title instructor rating published_date)
      | VInt k =>
          Some (mkCourse (Some k) title instructor rating published_date)
      | VStr _ => None
      end
  | _, _, _, _, _ => None
  end.

(** The attributes of an item of [courses_db] as a response shows them. *)
Definition dump_entry (e : Entry) : Dict :=
  match e with
  | ACourse course => vars course
  | ARequest course_request => model_dump course_request
  end.

(** ** Building a request from a dictionary *)

(** [CourseRequest] built from a dictionary whose values already have the
    classes of the annotations: [id] may be absent or [None], the other
    fields are required.  The constraints of the fields are checked by
    [validate]; coercion of other values is not modelled, and [None] here
    means only that the dictionary is not of this form. *)
Definition model_validate (d : Dict) : option CourseRequest :=
  match
    dict_get d "title", dict_get d "instructor", dict_get d "rating",
    dict_get d "published_date"
  with
  | Some (VStr title), Some (VStr instructor), Some (VInt rating),
    Some (VInt published_date) =>
      match dict_get d "id" with
      | None | Some VNone =>
          Some (mkCourseRequest None title instructor rating published_date)
      | Some (VInt k) =>
          Some (mkCourseRequest (Some k) title instructor rating
                  published_date)
      | Some (VStr _) => None
      end
  | _, _, _, _ => None
  end.

(** The example body that [model_config] gives the documentation. *)
Definition json_schema_extra_example : Dict :=
  [("title", VStr (str_of "java")); ("instructor", VStr (str_of "ilker"));
   ("rating", VInt 5); ("published_date", VInt 2025)].

(** * Theorems *)

Section objects.
Implicit Types (d : Dict) (r : CourseRequest) (c : Course) (e : Entry).

Lemma vars_Course_of_dump r : vars (Course_of_dump r) = model_dump r.
Proof. done. Qed.

Lemma Course_call_model_dump_lemma r :
  Course_call (model_dump r) = inr (vars (Course_of_dump r)).
Proof. by destruct r as [[k|] t i rt p]. Qed.

Lemma to_Course_vars c : to_Course (vars c) = Some c.
Proof. by destruct c as [[k|] t i rt p]. Qed.

(** [course.id = v] on the dictionary is [set_id] on the record. *)
Lemma dict_set_id c v : dict_set (vars c) "id" (VInt v) = vars (set_id c v).
Proof. by destruct c as [[k|] t i rt p]. Qed.

Lemma dump_entry_attrs e :
  dump_entry e =
  [("id", from_option VInt VNone (id e)); ("title", VStr (title e));
   ("instructor", VStr (instructor e)); ("rating", VInt (rating e));
   ("published_date", VInt (published_date e))].
Proof. by destruct e. Qed.

(** Two items agree attribute by attribute exactly when a response shows
    the same dictionary for both. *)
Lemma dump_entry_equiv e1 e2 : e1 ≡ e2 ↔ dump_entry e1 = dump_entry e2.
Proof.
  rewrite Entry_equiv_attrs, !dump_entry_attrs. split.
  - by intros (-> & -> & -> & -> & ->).
  - intros [= Hid -> -> -> ->]. split_and!; try done.
    by destruct (id e1), (id e2); simplify_eq/=.
Qed.

End objects.

(** ** The call of line 86 *)

Section keyword_call.
Implicit Types (kwargs : Dict) (r : CourseRequest).

Lemma bind_kwargs_inr params kwargs args :
  bind_kwargs params kwargs = inr args ↔
  keys kwargs ⊆ params ∧ mapM (dict_get kwargs) params = Some args.
Proof.
  unfold bind_kwargs. case_bool_decide; [|naive_solver].
  destruct (mapM _ _); naive_solver.
Qed.

Lemma bind_kwargs_inl params kwargs e :
  bind_kwargs params kwargs = inl e ↔
  e = TypeError ∧
  (¬ keys kwargs ⊆ params ∨ Exists (λ p, dict_get kwargs p = None) params).
Proof.
  unfold bind_kwargs. rewrite <- mapM_None. case_bool_decide; [|naive_solver].
  destruct (mapM _ _); naive_solver.
Qed.

Lemma keys_Course_init v1 v2 v3 v4 v5 :
  keys (Course_init v1 v2 v3 v4 v5) = Course_init_params.
Proof. done. Qed.

(** C32: The object that line 86 builds from the dump of a request has
    exactly the dump as its attributes, in the same order, and read as a
    typed record it is [Course_of_dump] of the request: the field names of
    [CourseRequest] are the parameter names of [Course.__init__], so the
    call raises no [TypeError]. *)
Theorem Course_call_model_dump r :
  Course_call (model_dump r) = inr (model_dump r) ∧
  to_Course (model_dump r) = Some (Course_of_dump r).
Proof.
  split; [apply Course_call_model_dump_lemma|].
  rewrite <- vars_Course_of_dump. apply to_Course_vars.
Qed.

(** [Course] called with keyword arguments raises [TypeError], and
    nothing else, exactly when a keyword is not a parameter of [__init__]
    or a parameter gets no value; otherwise it returns an object with the
    five attributes, in the order [__init__] assigns them. *)
Lemma Course_call_TypeError kwargs :
  match Course_call kwargs with
  | inr self =>
      keys kwargs ⊆ Course_init_params ∧
      Forall (λ p, is_Some (dict_get kwargs p)) Course_init_params ∧
      keys self = Course_init_params
  | inl e =>
      e = TypeError ∧
      (¬ keys kwargs ⊆ Course_init_params ∨
       Exists (λ p, dict_get kwargs p = None) Course_init_params)
  end.
Proof.
  unfold Course_call.
  destruct (bind_kwargs _ _) as [e|args] eqn:Hbind;
    [by apply bind_kwargs_inl in Hbind|].
  apply bind_kwargs_inr in Hbind as [Hkeys Hargs].
  pose proof (length_mapM _ _ _ Hargs) as Hlen.
  assert (Forall (λ p, is_Some (dict_get kwargs p)) Course_init_params)
    by (apply (mapM_is_Some (dict_get kwargs)); eauto).
  by destruct args as [|v1 [|v2 [|v3 [|v4 [|v5 [|]]]]]].
Qed.

(** A request is recovered from its dump. *)
Lemma model_validate_model_dump r : model_validate (model_dump r) = Some r.
Proof. by destruct r as [[k|] t i rt p]. Qed.

(** The example of the documentation is a valid body: posted to the seed
    registry it creates course 7. *)
Example json_schema_extra_example_accepted :
  ∃ r, model_validate json_schema_extra_example = Some r ∧
    validate r = [] ∧
    handle (POST_create_course r) courses_db =
    (mkResponse 201 JNull,
     courses_db ++ [ACourse (set_id (Course_of_dump r) 7)]).
Proof. eexists. by split_and!. Qed.

End keyword_call.

(** ** Stored records against the annotations of the classes *)

Section typing.
Implicit Types (db : list Entry) (e : Entry) (r : CourseRequest).

(** A record has the types [class Course] annotates exactly when its id is
    an integer; the other attributes have theirs by construction. *)
Lemma well_typed_dump e :
  well_typed Course_annotations (dump_entry e) = bool_decide (is_Some (id e)).
Proof.
  rewrite dump_entry_attrs. destruct (id e) as [k|]; [|done].
  by rewrite bool_decide_eq_true_2.
Qed.

Lemma well_typed_request e :
  well_typed CourseRequest_annotations (dump_entry e) = true.
Proof. rewrite dump_entry_attrs. by destruct (id e). Qed.

(** Between its construction and [find_courseID] the new course of a
    request without id holds [None] where [Course] annotates an [int]. *)
Lemma new_course_untyped r :
  id r = None → well_typed Course_annotations (model_dump r) = false.
Proof.
  intros Hid. change (model_dump r) with (dump_entry (ARequest r)).
  rewrite well_typed_dump, id_ARequest, Hid. by apply bool_decide_eq_false_2.
Qed.

Lemma wf_well_typed db :
  wf db →
  Forall (λ e, well_typed Course_annotations (dump_entry e) = true) db.
Proof.
  intros (Hsome & _). eapply Forall_impl; [done|]. intros e He. cbn beta.
  by rewrite well_typed_dump, bool_decide_eq_true_2.
Qed.

End typing.
