(* ===== verification/Tasks.v ===== *)
(** * Coroutines: programs that work on the list one operation at a time

    A handler of [src/main.py] is an [async def]: a coroutine that the event
    loop runs, and whose work on [courses_db] is a sequence of single
    operations ([len], indexing, item assignment, [pop], [append], the
    [next] of the list iterator behind [for course in courses_db]).
    Between two of them another request could run, if the host let it; after
    every one the list is whatever the operations so far have made it.

    This file holds the language of such programs and nothing of the
    service: [Task] is a program, [step] its small-step semantics on the
    list, [Await] the only point at which a coroutine of the event loop
    gives up the processor, [for_in] and [for_range] the two loops of the
    source.  [evals] is evaluation within a number of steps, with the
    lemmas that compose it along [Bind], [Try] and [Loop]; [await_free] and
    [suspended] say where a program can be switched by the event loop; [wp]
    is a precondition calculus for what a program stores in the list when
    other programs run between its steps; [Sequential] is the interface
    between the handlers and a scheduler. *)

From stdpp Require Import relations.
From S2P Require Import Prelude Python Course.

#[local] Set Warnings "-clear-no-such-hyp".

Local Open Scope Z_scope.

(** ** Programs *)

(** The steps of a coroutine.  [Loop body s] runs [body] on the local
    variables [s] until it answers [inr]; [Try] is the [try] of the
    framework around a handler; the other constructors are the operations on
    the module-level list. *)
Inductive Task : Type → Type :=
| Return {A} (x : A) : Task A
| Raise {A} (e : Exn) : Task A
| Bind {A B} (t : Task A) (k : A → Task B) : Task B
| Try {A} (t : Task A) : Task (Exn + A)
| Loop {L A} (body : L → Task (L + A)) (s : L) : Task A
| Await : Task unit
| Load : Task (list Entry)
| Len : Task Z
| GetItem (i : Z) : Task Entry
| SetItem (i : Z) (x : Entry) : Task unit
| Pop (i : Z) : Task Entry
| Append (x : Entry) : Task unit
| Next (it : nat) : Task (option Entry).

(** Sequencing is written as in the monad of [Registry]. *)
Declare Scope task_scope.
Delimit Scope task_scope with task.
Bind Scope task_scope with Task.
Notation "x ← t ; k" := (Bind t (λ x, k)) : task_scope.
Notation "t ;; k" := (Bind t (λ _, k)) : task_scope.

Local Open Scope task_scope.

(** The outcome of a coroutine that has ended. *)
Definition outcome {A} (t : Task A) : option (Exn + A) :=
  match t with
  | Return x => Some (inr x)
  | Raise e => Some (inl e)
  | _ => None
  end.

Definition final {A} (o : Exn + A) : Task A :=
  match o with
  | inr x => Return x
  | inl e => Raise e
  end.

(** What a loop does with the answer of its body. *)
Definition again {L A} (body : L → Task (L + A)) (r : L + A) : Task A :=
  match r with
  | inl s => Loop body s
  | inr x => Return x
  end.

(** ** One step

    The next operation of [t] on the list [db]: the rest of the program and
    the list it leaves.  A coroutine that has ended stays as it is. *)
Fixpoint step {A} (t : Task A) (db : list Entry) : Task A * list Entry :=
  match t with
  | Return x => (Return x, db)
  | Raise e => (Raise e, db)
  | Bind t k =>
      match outcome t with
      | Some (inr x) => (k x, db)
      | Some (inl e) => (Raise e, db)
      | None => let '(t', db') := step t db in (Bind t' k, db')
      end
  | Try t =>
      match outcome t with
      | Some o => (Return o, db)
      | None => let '(t', db') := step t db in (Try t', db')
      end
  | Loop body s => (Bind (body s) (again body), db)
  | Await => (Return tt, db)
  | Load => (Return db, db)
  | Len => (Return (len db), db)
  | GetItem i => (final (getitem db i), db)
  | SetItem i x =>
      match setitem db i x with
      | inr db' => (Return tt, db')
      | inl e => (Raise e, db)
      end
  | Pop i =>
      match pop db i with
      | inr (x, db') => (Return x, db')
      | inl e => (Raise e, db)
      end
  | Append x => (Return tt, append db x)
  | Next it => (Return (db !! it), db)
  end.

(** [fuel] steps. *)
Fixpoint exec {A} (fuel : nat) (t : Task A) (db : list Entry)
    : Task A * list Entry :=
  match fuel with
  | O => (t, db)
  | S fuel' => let '(t', db') := step t db in exec fuel' t' db'
  end.

(** A step of a coroutine that has not ended, as a relation on
    configurations. *)
Definition tstep {A} (c c' : Task A * list Entry) : Prop :=
  outcome c.1 = None ∧ step c.1 c.2 = c'.

(** [t], started on [db], ends with outcome [o] and leaves [db'], after at
    most [bound] steps. *)
Definition evals {A} (t : Task A) (db : list Entry) (o : Exn + A)
    (db' : list Entry) (bound : nat) : Prop :=
  bsteps tstep bound (t, db) (final o, db').

(** The coroutine is about to await. *)
Fixpoint suspended {A} (t : Task A) : bool :=
  match t with
  | Bind t _ => suspended t
  | Try t => suspended t
  | Await => true
  | _ => false
  end.

(** No [await] anywhere in the program. *)
Fixpoint await_free {A} (t : Task A) : Prop :=
  match t with
  | Bind t k => await_free t ∧ ∀ x, await_free (k x)
  | Try t => await_free t
  | Loop body s => ∀ s', await_free (body s')
  | Await => False
  | _ => True
  end.

(** The program writes nothing to the list. *)
Fixpoint read_only {A} (t : Task A) : Prop :=
  match t with
  | Bind t k => read_only t ∧ ∀ x, read_only (k x)
  | Try t => read_only t
  | Loop body s => ∀ s', read_only (body s')
  | SetItem _ _ | Pop _ | Append _ => False
  | _ => True
  end.

(** A weakest precondition that holds under interference: every item the
    program stores in the list satisfies [P], and its result satisfies [Q],
    when the items it reads are any that satisfy [P], since another program
    may have stored them in between. A loop is given an invariant. *)
Fixpoint wp (P : Entry → Prop) {A} (t : Task A) : (A → Prop) → Prop :=
  match t with
  | Return x => λ Q, Q x
  | Raise _ => λ _, True
  | Bind t k => λ Q, wp P t (λ x, wp P (k x) Q)
  | Try t => λ Q, wp P t (λ x, Q (inr x)) ∧ ∀ e, Q (inl e)
  | Loop body s => λ Q,
      ∃ I : _ → Prop, I s ∧
        ∀ s', I s' →
          wp P (body s') (λ r, match r with inl s'' => I s'' | inr x => Q x end)
  | Await => λ Q, Q tt
  | Load => λ Q, ∀ l, Forall P l → Q l
  | Len => λ Q, ∀ n, Q n
  | GetItem _ | Pop _ => λ Q, ∀ x, P x → Q x
  | SetItem _ x | Append x => λ Q, P x ∧ Q tt
  | Next _ => λ Q, Q None ∧ ∀ x, P x → Q (Some x)
  end.

(** ** The two loops of the source *)

(** [for x in courses_db: body].  The iterator starts at position 0 and
    asks the list, each time round, for the item at its position: what it
    sees is the list of that moment.  [body] answers [inl s'] to go on with
    local variables [s'] and [inr r] to [return r]; the loop answers
    [inl s] when the iterator is exhausted. *)
Definition for_in_body {L R} (body : Entry → L → Task (L + R))
    : nat * L → Task (nat * L + (L + R)) :=
  λ '(it, s),
    next ← Next it;
    match next with
    | None => Return (inr (inl s))
    | Some x =>
        r ← body x s;
        Return (match r with
                | inl s' => inl (S it, s')
                | inr r => inr (inr r)
                end)
    end.

Definition for_in {L R} (body : Entry → L → Task (L + R)) (s : L)
    : Task (L + R) :=
  Loop (for_in_body body) (0%nat, s).

(** [for i in range(n): body], over the indices computed when the loop
    starts; [inr r] leaves the loop. *)
Fixpoint for_range {L R} (indices : list Z) (body : Z → L → Task (L + R))
    (s : L) : Task (L + R) :=
  match indices with
  | [] => Return (inl s)
  | i :: rest =>
      r ← body i s;
      match r with
      | inl s' => for_range rest body s'
      | inr r => Return (inr r)
      end
  end.

(** ** A loop over the list, as a function

    What [for x in courses_db] computes when nothing else touches the list
    and the body is the function [f] of the item and the local variables. *)
Fixpoint scan {L R} (f : Entry → L → L + R) (courses : list Entry) (s : L)
    : L + R :=
  match courses with
  | [] => inl s
  | x :: rest =>
      match f x s with
      | inl s' => scan f rest s'
      | inr r => inr r
      end
  end.

(** ** What a scheduler asks of a handler

    [program req] is the coroutine that handles a request and [h req] what
    handling it does to the list in one piece: the coroutine awaits
    nothing, and run alone it ends with the answer and the list of [h]. *)
Class Sequential {Req Resp : Type} (program : Req → Task Resp)
    (h : Req → list Entry → Resp * list Entry) : Prop := {
  sequential_await_free req : await_free (program req);
  sequential_evals req db :
    ∃ n, evals (program req) db (inr (h req db).1) (h req db).2 n
}.

(** * Theorems *)

(** ** The semantics *)

Section semantics.
Context {A : Type}.
Implicit Types (t : Task A) (db : list Entry) (o : Exn + A) (n : nat).

Lemma outcome_final o : outcome (final o) = Some o.
Proof. by destruct o. Qed.

Lemma outcome_Some t o : outcome t = Some o → t = final o.
Proof. destruct t; naive_solver. Qed.

Lemma step_final o db : step (final o) db = (final o, db).
Proof. by destruct o. Qed.

Lemma tstep_det (c c1 c2 : Task A * list Entry) :
  tstep c c1 → tstep c c2 → c1 = c2.
Proof. by intros [_ <-] [_ <-]. Qed.

Lemma tstep_final o db c : ¬ tstep (final o, db) c.
Proof. intros [Hnone _]. cbn in Hnone. by rewrite outcome_final in Hnone. Qed.

Lemma exec_final fuel o db : exec fuel (final o) db = (final o, db).
Proof.
  induction fuel as [|fuel IH]; [done|]. cbn [exec]. by rewrite step_final.
Qed.

Lemma nsteps_exec n t db t' db' fuel :
  nsteps tstep n (t, db) (t', db') → exec (n + fuel) t db = exec fuel t' db'.
Proof.
  revert t db. induction n as [|n IH]; intros t db Hsteps.
  - by inversion Hsteps.
  - inversion Hsteps as [|? ? [t1 db1] ? [_ Hstep] Hrest]; simplify_eq/=.
    rewrite Hstep. by apply IH.
Qed.

Lemma evals_nsteps t db o db' bound :
  evals t db o db' bound ↔
  ∃ n, (n ≤ bound)%nat ∧ nsteps tstep n (t, db) (final o, db').
Proof. apply bsteps_nsteps. Qed.

(** A coroutine that ends within [bound] steps has ended after any larger
    number of steps. *)
Lemma evals_exec t db o db' bound fuel :
  evals t db o db' bound → (bound ≤ fuel)%nat →
  exec fuel t db = (final o, db').
Proof.
  intros (n & Hn & Hsteps)%evals_nsteps Hfuel.
  replace fuel with (n + (fuel - n))%nat by lia.
  by rewrite (nsteps_exec _ _ _ _ _ _ Hsteps), exec_final.
Qed.

Lemma evals_weaken t db o db' n m :
  evals t db o db' n → (n ≤ m)%nat → evals t db o db' m.
Proof. intros Ht Hnm. by eapply bsteps_weaken. Qed.

Lemma evals_final o db n : evals (final o) db o db n.
Proof. apply bsteps_refl. Qed.

Lemma evals_return (x : A) db : evals (Return x) db (inr x) db 0.
Proof. apply (evals_final (inr x)). Qed.

Lemma evals_raise (e : Exn) db : evals (Raise e) db (inl e : Exn + A) db 0.
Proof. apply (evals_final (inl e)). Qed.

(** One operation. *)
Lemma evals_once t db o db' :
  outcome t = None → step t db = (final o, db') → evals t db o db' 1.
Proof. intros Hnone Hstep. by apply bsteps_once. Qed.

(** The outcome and the list a coroutine ends with are determined. *)
Lemma evals_det t db o1 db1 n1 o2 db2 n2 :
  evals t db o1 db1 n1 → evals t db o2 db2 n2 → o1 = o2 ∧ db1 = db2.
Proof.
  intros (m1 & _ & H1)%evals_nsteps (m2 & _ & H2)%evals_nsteps.
  revert t db m2 H1 H2. induction m1 as [|m1 IH]; intros t db m2 H1 H2.
  - inversion H1; subst. inversion H2 as [|? ? ? ? Hstep]; subst.
    + assert (Some o1 = Some o2) as [= ->]
        by (rewrite <- !outcome_final; congruence). done.
    + by apply tstep_final in Hstep.
  - inversion H1 as [|? ? [t1 db1'] ? Hstep1 Hrest1]; subst.
    inversion H2 as [|? ? [t2 db2'] ? Hstep2 Hrest2]; subst.
    + by apply tstep_final in Hstep1.
    + pose proof (tstep_det _ _ _ Hstep1 Hstep2) as [= -> ->]. eauto.
Qed.

End semantics.

(** ** Sequencing, try and loops *)

Section composition.
Implicit Types (db : list Entry) (n m : nat).

Lemma nsteps_Bind {A B} n (t t' : Task A) (k : A → Task B) db db' :
  nsteps tstep n (t, db) (t', db') →
  nsteps tstep n (Bind t k, db) (Bind t' k, db').
Proof.
  revert t db. induction n as [|n IH]; intros t db Hsteps;
    inversion Hsteps as [|? ? [t1 db1] ? [Hnone Hstep] Hrest]; simplify_eq/=.
  - constructor.
  - eapply nsteps_l; [|by apply IH]. split; [done|]. cbn.
    by rewrite Hnone, Hstep.
Qed.

Lemma nsteps_Try {A} n (t t' : Task A) db db' :
  nsteps tstep n (t, db) (t', db') →
  nsteps tstep n (Try t, db) (Try t', db').
Proof.
  revert t db. induction n as [|n IH]; intros t db Hsteps;
    inversion Hsteps as [|? ? [t1 db1] ? [Hnone Hstep] Hrest]; simplify_eq/=.
  - constructor.
  - eapply nsteps_l; [|by apply IH]. split; [done|]. cbn.
    by rewrite Hnone, Hstep.
Qed.

Lemma evals_bind {A B} (t : Task A) (k : A → Task B) db x db1 o db2 n m :
  evals t db (inr x) db1 n → evals (k x) db1 o db2 m →
  evals (Bind t k) db o db2 (S (n + m)).
Proof.
  intros (n' & Hn & Ht)%evals_nsteps (m' & Hm & Hk)%evals_nsteps.
  apply evals_nsteps. exists (n' + S m')%nat. split; [lia|].
  eapply nsteps_trans; [by apply nsteps_Bind|].
  eapply nsteps_l; [|done]. by split.
Qed.

Lemma evals_bind_raise {A B} (t : Task A) (k : A → Task B) db e db1 n :
  evals t db (inl e) db1 n → evals (Bind t k) db (inl e) db1 (S n).
Proof.
  intros (n' & Hn & Ht)%evals_nsteps.
  apply evals_nsteps. exists (n' + 1)%nat. split; [lia|].
  eapply nsteps_trans; [by apply nsteps_Bind|].
  apply nsteps_once. by split.
Qed.

Lemma evals_try {A} (t : Task A) db o db1 n :
  evals t db o db1 n → evals (Try t) db (inr o) db1 (S n).
Proof.
  intros (n' & Hn & Ht)%evals_nsteps.
  apply evals_nsteps. exists (n' + 1)%nat. split; [lia|].
  eapply nsteps_trans; [by apply nsteps_Try|].
  apply nsteps_once. split; [done|]. cbn. by rewrite outcome_final.
Qed.

Lemma evals_loop {L A} (body : L → Task (L + A)) s db o db' n :
  evals (Bind (body s) (again body)) db o db' n →
  evals (Loop body s) db o db' (S n).
Proof. intros Hbody. eapply bsteps_l; [|done]. by split. Qed.

End composition.

(** ** The operations on the list *)

Section operations.
Implicit Types (pre suf db : list Entry) (e x : Entry).

Lemma evals_Len db : evals Len db (inr (len db)) db 1.
Proof. by apply evals_once. Qed.

Lemma evals_Load db : evals Load db (inr db) db 1.
Proof. by apply evals_once. Qed.

Lemma evals_Next it db : evals (Next it) db (inr (db !! it)) db 1.
Proof. by apply evals_once. Qed.

Lemma evals_Append x db : evals (Append x) db (inr tt) (db ++ [x]) 1.
Proof. by apply evals_once. Qed.

Lemma evals_GetItem i db : evals (GetItem i) db (getitem db i) db 1.
Proof. by apply evals_once. Qed.

Lemma evals_GetItem_middle pre e suf :
  evals (GetItem (Z.of_nat (length pre))) (pre ++ e :: suf) (inr e)
    (pre ++ e :: suf) 1.
Proof.
  rewrite <- (getitem_nat (pre ++ e :: suf) (length pre) e)
    by apply list_lookup_middle, eq_refl.
  apply evals_GetItem.
Qed.

Lemma evals_SetItem_middle pre e suf x :
  evals (SetItem (Z.of_nat (length pre)) x) (pre ++ e :: suf) (inr tt)
    (pre ++ x :: suf) 1.
Proof.
  apply evals_once; [done|]. cbn [step].
  rewrite setitem_nat by (rewrite length_app; simpl; lia).
  by rewrite list_insert_middle.
Qed.

Lemma evals_Pop_middle pre e suf :
  evals (Pop (Z.of_nat (length pre))) (pre ++ e :: suf) (inr e) (pre ++ suf) 1.
Proof.
  apply evals_once; [done|]. cbn [step].
  rewrite (pop_nat _ _ e) by apply list_lookup_middle, eq_refl.
  by rewrite delete_middle.
Qed.

End operations.

(** The operations are found by [eauto with evals]; [evals_op] runs the
    first operation of a sequence, and [evals_within] proves an evaluation
    and then that its steps are within the bound asked for. *)
Create HintDb evals discriminated.
#[export] Hint Resolve evals_return evals_raise evals_Len evals_Load
  evals_Next evals_Append evals_GetItem_middle evals_SetItem_middle
  evals_Pop_middle : evals.

Ltac evals_op := eapply evals_bind; [solve [eauto with evals]|cbn beta].

Tactic Notation "evals_within" tactic3(tac) :=
  eapply evals_weaken; [solve [tac]|cbn [length]; repeat case_match; lia].

(** [at_next H]: the induction hypothesis [H] on the items after position
    [length (pre ++ [x])] concludes at position [S (length pre)]. *)
Tactic Notation "at_next" constr(H) :=
  let H' := fresh in
  pose proof H as H';
  rewrite length_app, Nat.add_1_r, <- ?app_assoc in H'; apply H'.

(** ** A loop over the list *)

Section loops.
Implicit Types (pre suf db : list Entry).

(** A round of the loop at the position of an item: the iterator gives
    the item, and the body runs on it. *)
Lemma for_in_round_evals {L R} (body : Entry → L → Task (L + R))
    (f : Entry → L → L + R) c pre x suf s :
  (∀ x s db, evals (body x s) db (inr (f x s)) db c) →
  evals (for_in_body body (length pre, s)) (pre ++ x :: suf)
    (inr (match f x s with
          | inl s' => inl (S (length pre), s')
          | inr r => inr (inr r)
          end)) (pre ++ x :: suf) (c + 3).
Proof.
  intros Hbody. cbn [for_in_body].
  evals_within (
    evals_op; rewrite list_lookup_middle by done;
    eapply evals_bind; [apply Hbody|apply evals_return]).
Qed.

(** A loop over the list whose body computes [f] and leaves the list alone
    computes [scan f] of the items from the iterator's position on. *)
Lemma for_in_body_evals {L R} (body : Entry → L → Task (L + R))
    (f : Entry → L → L + R) c :
  (∀ x s db, evals (body x s) db (inr (f x s)) db c) →
  ∀ suf pre s,
    evals (Loop (for_in_body body) (length pre, s)) (pre ++ suf)
      (inr (scan f suf s)) (pre ++ suf) ((c + 5) * length suf + 4).
Proof.
  intros Hbody suf. induction suf as [|x suf IH]; intros pre s.
  - evals_within (
      apply evals_loop; eapply evals_bind;
        [cbn [for_in_body]; evals_op;
         rewrite lookup_ge_None_2 by (rewrite length_app; simpl; lia);
         apply evals_return
        |apply evals_return]).
  - cbn [scan]. destruct (f x s) as [s'|r] eqn:Hf.
    + evals_within (
        apply evals_loop; eapply evals_bind;
          [by apply (for_in_round_evals body f c)|];
        rewrite Hf; at_next (IH (pre ++ [x]) s')).
    + evals_within (
        apply evals_loop; eapply evals_bind;
          [by apply (for_in_round_evals body f c)|];
        rewrite Hf; apply evals_return).
Qed.

Lemma for_in_evals {L R} (body : Entry → L → Task (L + R))
    (f : Entry → L → L + R) c db s :
  (∀ x s db, evals (body x s) db (inr (f x s)) db c) →
  evals (for_in body s) db (inr (scan f db s)) db ((c + 5) * length db + 4).
Proof. intros Hbody. apply (for_in_body_evals body f c Hbody db [] s). Qed.

End loops.

(** ** Programs without await *)

Section await.
Implicit Types (db : list Entry).

Lemma for_range_await_free {L R} indices (body : Z → L → Task (L + R)) s :
  (∀ i s', await_free (body i s')) → await_free (for_range indices body s).
Proof.
  intros Hbody. revert s. induction indices as [|i indices IH]; intros s;
    cbn [for_range await_free]; [done|].
  split; [done|]. by intros [s'|r].
Qed.

Lemma for_in_await_free {L R} (body : Entry → L → Task (L + R)) s :
  (∀ x s', await_free (body x s')) → await_free (for_in body s).
Proof.
  intros Hbody [it s']. cbn. split; [done|]. intros [x|]; [|done].
  by split.
Qed.

(** A step makes no await appear, and a program without await is never
    suspended. *)
Lemma await_free_final {A} (o : Exn + A) : await_free (final o).
Proof. by destruct o. Qed.

Lemma step_await_free {A} (t : Task A) db :
  await_free t → await_free (step t db).1.
Proof.
  induction t as [A x|A e|A B t IH k _|A t IH|L A body _ s| | | |i|i x|i|x|it];
    cbn [step await_free]; try done.
  - intros [Ht Hk]. destruct (outcome t) as [[e|x]|]; [done|apply Hk|].
    specialize (IH Ht). destruct (step t db) as [t' db'']. by split.
  - intros Ht. destruct (outcome t) as [o|]; [done|].
    specialize (IH Ht). by destruct (step t db).
  - intros Hbody. split; [done|]. by intros [s'|x].
  - intros _. apply await_free_final.
  - intros _. by destruct (setitem db i x).
  - intros _. by destruct (pop db i) as [|[]].
Qed.

Lemma await_free_not_suspended {A} (t : Task A) :
  await_free t → suspended t = false.
Proof.
  induction t; cbn [await_free suspended]; try done; naive_solver.
Qed.

End await.

(** ** Programs that only read *)

Section reading.
Implicit Types (db : list Entry).

Lemma read_only_final {A} (o : Exn + A) : read_only (final o).
Proof. by destruct o. Qed.

Lemma for_in_read_only {L R} (body : Entry → L → Task (L + R)) s :
  (∀ x s', read_only (body x s')) → read_only (for_in body s).
Proof.
  intros Hbody [it s']. cbn. split; [done|]. intros [x|]; [|done].
  by split.
Qed.

(** A step of a program that only reads leaves the list as it is, and
    what is left of the program only reads. *)
Lemma step_read_only {A} (t : Task A) db :
  read_only t → read_only (step t db).1 ∧ (step t db).2 = db.
Proof.
  induction t as [A x|A e|A B t IH k _|A t IH|L A body _ s| | | |i|i x|i|x|it];
    cbn [step read_only]; try done.
  - intros [Ht Hk]. destruct (outcome t) as [[e|x]|];
      [done|split; [apply Hk|done]|].
    destruct (IH Ht) as [Ht' Hdb]. by destruct (step t db).
  - intros Ht. destruct (outcome t) as [o|]; [done|].
    destruct (IH Ht) as [Ht' Hdb]. by destruct (step t db).
  - intros Hbody. split; [|done]. split; [done|]. by intros [s'|x].
  - intros _. split; [apply read_only_final|done].
Qed.

Lemma exec_read_only {A} fuel (t : Task A) db :
  read_only t → read_only (exec fuel t db).1 ∧ (exec fuel t db).2 = db.
Proof.
  revert t. induction fuel as [|fuel IH]; intros t Ht; [done|].
  cbn [exec]. destruct (step_read_only t db Ht) as [Ht' Hdb].
  destruct (step t db) as [t' db']. cbn [fst snd] in *. subst db'.
  by apply IH.
Qed.

(** A program that has ended after some steps evaluates to the outcome it
    shows, so that outcome is the one every evaluation finds. *)
Lemma exec_outcome_evals {A} fuel (t : Task A) db o :
  outcome (exec fuel t db).1 = Some o →
  evals t db o (exec fuel t db).2 fuel.
Proof.
  revert t db. induction fuel as [|fuel IH]; intros t db; cbn [exec].
  { cbn [fst snd]. intros ->%outcome_Some. apply evals_final. }
  destruct (outcome t) as [o'|] eqn:Ht.
  - apply outcome_Some in Ht as ->. rewrite step_final, exec_final.
    cbn [fst snd]. rewrite outcome_final. intros [= ->]. apply evals_final.
  - destruct (step t db) as [t' db'] eqn:Hstep. intros Ho.
    eapply bsteps_l; [|by apply IH]. by split.
Qed.

Lemma exec_outcome_det {A} fuel (t : Task A) db o db' n o' :
  evals t db o db' n → outcome (exec fuel t db).1 = Some o' → o' = o.
Proof.
  intros Ht Ho%exec_outcome_evals. by destruct (evals_det _ _ _ _ _ _ _ _ Ho Ht).
Qed.

End reading.

(** ** What a program stores, whatever runs beside it *)

Section wp.
Context (P : Entry → Prop).
Implicit Types (db : list Entry).

Lemma wp_mono {A} (t : Task A) (Q Q' : A → Prop) :
  (∀ x, Q x → Q' x) → wp P t Q → wp P t Q'.
Proof.
  revert Q Q'.
  induction t as [A x|A e|A B t IH k IHk|A t IH|L A body IH s| | | |i|i x|i|x|it];
    intros Q Q' HQ; cbn [wp]; try naive_solver.
  intros (I & Hs & Hbody). exists I. split; [done|]. intros s' Hs'.
    generalize (Hbody s' Hs'). apply IH. intros [s''|x]; naive_solver.
Qed.

#[export] Instance wp_Proper {A} (t : Task A) :
  Proper (pointwise_relation A impl ==> impl) (wp P t).
Proof. intros Q Q' HQ. exact (wp_mono t Q Q' HQ). Qed.

Lemma wp_final {A} (o : Exn + A) (Q : A → Prop) :
  wp P (final o) Q ↔ match o with inr x => Q x | inl _ => True end.
Proof. by destruct o. Qed.

(** A step stores what the program may store, and the precondition of the
    rest of the program holds after it. *)
Lemma step_wp {A} (t : Task A) (Q : A → Prop) db :
  wp P t Q → Forall P db → wp P (step t db).1 Q ∧ Forall P (step t db).2.
Proof.
  revert Q.
  induction t as [A x|A e|A B t IH k _|A t IH|L A body _ s| | | |i|i x|i|x|it];
    intros Q Ht Hdb; cbn [step wp] in *; try naive_solver.
  - destruct (outcome t) as [[e|x]|] eqn:Hout.
    + done.
    + by rewrite (outcome_Some _ _ Hout) in Ht.
    + destruct (IH _ Ht Hdb) as [Ht' Hdb']. by destruct (step t db).
  - destruct Ht as [Ht He]. destruct (outcome t) as [[e|x]|] eqn:Hout.
    + naive_solver.
    + by rewrite (outcome_Some _ _ Hout) in Ht.
    + destruct (IH _ Ht Hdb) as [Ht' Hdb']. by destruct (step t db).
  - destruct Ht as (I & Hs & Hbody). split; [cbn [fst wp]|done].
    generalize (Hbody s Hs). apply wp_mono. intros [s'|x]; cbn; naive_solver.
  - split; [|done]. apply wp_final.
    destruct (getitem db i) as [e|x] eqn:Hget; [done|].
    by eapply Ht, getitem_Forall.
  - destruct Ht as [Hx HQ].
    destruct (setitem db i x) as [e|db'] eqn:Hset; [done|].
    split; [done|]. by eapply setitem_Forall.
  - destruct (pop db i) as [e|[x db']] eqn:Hpop; [done|].
    split; [|by eapply pop_Forall]. eapply Ht, pop_Forall_item; eauto.
  - destruct Ht as [Hx HQ]. split; [done|].
    apply Forall_app. by split; [|apply Forall_singleton].
  - split; [|done]. destruct (db !! it) as [x|] eqn:Hx; [|naive_solver].
    apply Ht. by eapply Forall_lookup_1.
Qed.

Lemma exec_wp {A} fuel (t : Task A) (Q : A → Prop) db :
  wp P t Q → Forall P db →
  wp P (exec fuel t db).1 Q ∧ Forall P (exec fuel t db).2.
Proof.
  revert t db. induction fuel as [|fuel IH]; intros t db Ht Hdb; [done|].
  cbn [exec]. destruct (step_wp t Q db Ht Hdb) as [Ht' Hdb'].
  destruct (step t db). by apply IH.
Qed.

Lemma for_range_wp {L R} indices (body : Z → L → Task (L + R)) s
    (I : L → Prop) (Q : L + R → Prop) :
  (∀ i s', I s' →
     wp P (body i s') (λ r, match r with inl s'' => I s'' | inr _ => Q r end)) →
  (∀ s', I s' → Q (inl s')) →
  I s → wp P (for_range indices body s) Q.
Proof.
  intros Hbody HQ. revert s.
  induction indices as [|i indices IH]; intros s Hs; cbn [for_range wp];
    [by apply HQ|].
  generalize (Hbody i s Hs). apply wp_mono. intros [s'|r]; [apply IH|done].
Qed.

Lemma for_in_wp {L R} (body : Entry → L → Task (L + R)) s
    (I : L → Prop) (Q : L + R → Prop) :
  (∀ x s', P x → I s' →
     wp P (body x s') (λ r, match r with inl s'' => I s'' | inr _ => Q r end)) →
  (∀ s', I s' → Q (inl s')) →
  I s → wp P (for_in body s) Q.
Proof.
  intros Hbody HQ Hs. exists (λ st, I st.2). split; [done|].
  intros [it s'] Hs'. cbn. split; [by apply HQ|]. intros x Hx.
  generalize (Hbody x s' Hx Hs'). apply wp_mono. by intros [s''|r].
Qed.

End wp.
