(* ===== verification/Coroutines.v ===== *)
(** * The handlers as coroutines

    [Registry] runs a handler of [src/main.py] in one piece.  Here the same
    functions are programs of [Tasks], whose steps are the single
    operations they make on [courses_db]: one definition per function of
    the source, with the bodies of the two index loops on their own, then
    the framework's part ([responds], [async_route], [endpoint]).  The
    handlers are written [async def] without any [await], so these programs
    contain no [Await].

    The theorems relate the two views: run alone, each coroutine ends, in a
    number of steps linear in the length of the list, with the outcome and
    the list that the handler of [Registry] computes; and whatever runs
    between its steps, a request stores validated records only. *)

From stdpp Require Import relations.
From S2P Require Import Prelude Python Course Validation.
From S2P Require Import Registry Invariant App Tasks.

#[local] Set Warnings "-clear-no-such-hyp".

Local Open Scope Z_scope.
Local Open Scope task_scope.

(** ** The handlers *)

(** get_all_courses (lines 53-55) *)
Definition async_get_all_courses : Task (list Entry) := Load.

(** get_course (lines 58-63) *)
Definition async_get_course (course_id : Z) : Task Entry :=
  r ← for_in (λ course (_ : unit),
         if bool_decide (id course = Some course_id)
         then Return (inr course)
         else Return (inl tt)) tt;
  match r with
  | inr course => Return course
  | inl _ => Raise not_found
  end.

(** get_courses_by_rating (lines 66-72) *)
Definition async_get_courses_by_rating (course_rating : Z)
    : Task (list Entry) :=
  r ← for_in (λ course courses_to_return,
         Return (inl (if bool_decide (rating course = course_rating)
                      then append courses_to_return course
                      else courses_to_return))) [];
  match r with
  | inl courses_to_return | inr courses_to_return => Return courses_to_return
  end.

(** get_courses_by_publish_date (lines 75-81) *)
Definition async_get_courses_by_publish_date (publish_date : Z)
    : Task (list Entry) :=
  r ← for_in (λ course courses_to_return,
         Return (inl (if bool_decide (published_date course = publish_date)
                      then append courses_to_return course
                      else courses_to_return))) [];
  match r with
  | inl courses_to_return | inr courses_to_return => Return courses_to_return
  end.

(** find_courseID (lines 90-92) *)
Definition async_find_courseID (course : Course) : Task Course :=
  n ← Len;
  if bool_decide (n = 0) then Return (set_id course 1)
  else
    last_course ← GetItem (-1);
    v ← final (add (id last_course) 1);
    Return (set_id course v).

(** create_course (lines 84-87) *)
Definition async_create_course (course_request : CourseRequest) : Task unit :=
  let new_course := Course_of_dump course_request in
  course ← async_find_courseID new_course;
  Append (ACourse course).

(** update_course (lines 95-103); the local variable of the loop is
    [course_updated]. *)
Definition update_course_body (course_request : CourseRequest) (i : Z)
    (course_updated : bool) : Task (bool + bool) :=
  course ← GetItem i;
  if bool_decide (id course = id course_request) then
    SetItem i (ARequest course_request);; Return (inl true)
  else Return (inl course_updated).

Definition async_update_course (course_request : CourseRequest) : Task unit :=
  n ← Len;
  r ← for_range (range n) (update_course_body course_request) false;
  match r with
  | inl true | inr true => Return tt
  | _ => Raise not_found
  end.

(** delete_course (lines 106-115); [inr true] is [course_deleted = True]
    followed by [break]. *)
Definition delete_course_body (course_id : Z) (i : Z) (course_deleted : bool)
    : Task (bool + bool) :=
  course ← GetItem i;
  if bool_decide (id course = Some course_id) then
    Pop i;; Return (inr true)
  else Return (inl course_deleted).

Definition async_delete_course (course_id : Z) : Task unit :=
  n ← Len;
  r ← for_range (range n) (delete_course_body course_id) false;
  match r with
  | inl true | inr true => Return tt
  | _ => Raise not_found
  end.

(** ** A request from validation to response *)

(** The framework calls the handler inside a [try], and makes the response
    of what it returned or raised. *)
Definition responds {A} (status : Z) (to_body : A → Body) (t : Task A)
    : Task Response :=
  o ← Try t;
  Return (response_of status to_body o).

Definition async_route (req : Request) : Task Response :=
  match req with
  | GET_courses =>
      responds get_all_courses_status_code JCourses async_get_all_courses
  | GET_course course_id =>
      responds get_course_status_code JCourse (async_get_course course_id)
  | GET_courses_by_rating course_rating =>
      responds get_courses_by_rating_status_code JCourses
        (async_get_courses_by_rating course_rating)
  | GET_courses_by_publish_date publish_date =>
      responds get_courses_by_publish_date_status_code JCourses
        (async_get_courses_by_publish_date publish_date)
  | POST_create_course course_request =>
      responds create_course_status_code (λ _, JNull)
        (async_create_course course_request)
  | PUT_update_course course_request =>
      responds update_course_status_code (λ _, JEmpty)
        (async_update_course course_request)
  | DELETE_course course_id =>
      responds delete_course_status_code (λ _, JEmpty)
        (async_delete_course course_id)
  end.

Definition endpoint (req : Request) : Task Response :=
  match request_errors req with
  | [] => async_route req
  | fields => Return (mkResponse 422 (JValidation fields))
  end.

(** The steps [endpoint] is given on a registry of [n] records. *)
Definition fuel_for (n : nat) : nat := 5 * n + 12.

(** [t] implements the handler [h]: on every registry it ends with the
    outcome and the registry of [h], in at most [bound (length db)] steps. *)
Definition implements {A} (t : Task A) (h : Handler A) (bound : nat → nat)
    : Prop :=
  ∀ db, evals t db (run h db).1 (run h db).2 (bound (length db)).

(** * Theorems *)

(** ** The index loops *)

Section loops.
Implicit Types (pre suf db : list Entry) (req : CourseRequest) (k : Z).

(** One round of each index loop, at the position of an item: the item is
    read, and overwritten or popped when its id is the one looked for; a
    round that finds another id takes two steps. *)
Lemma update_course_body_evals req pre e suf b :
  evals (update_course_body req (Z.of_nat (length pre)) b) (pre ++ e :: suf)
    (inr (inl (b || bool_decide (id e = id req))))
    (pre ++ overwrite req [e] ++ suf) 4.
Proof.
  unfold update_course_body, overwrite. cbn [fmap list_fmap app].
  destruct (bool_decide (id e = id req)) eqn:He;
    rewrite ?orb_true_r, ?orb_false_r;
    evals_within (evals_op; rewrite He; repeat evals_op; eauto with evals).
Qed.

Lemma delete_course_body_evals k pre e suf b :
  evals (delete_course_body k (Z.of_nat (length pre)) b) (pre ++ e :: suf)
    (inr (if bool_decide (id e = Some k) then inr true else inl b))
    (pre ++ remove_first k [e] ++ suf)
    (if bool_decide (id e = Some k) then 4 else 2).
Proof.
  unfold delete_course_body. cbn [remove_first].
  destruct (bool_decide (id e = Some k)) eqn:He;
    evals_within (evals_op; rewrite He; repeat evals_op; eauto with evals).
Qed.

(** The update loop from position [length pre]: as [update_course_loop] of
    [Registry], in at most five steps for each index. *)
Lemma update_loop_evals req suf : ∀ pre b,
  evals (for_range (Z.of_nat <$> seq (length pre) (length suf))
           (update_course_body req) b) (pre ++ suf)
    (inr (inl (b || present (id req) suf))) (pre ++ overwrite req suf)
    (5 * length suf).
Proof.
  induction suf as [|e suf IH]; intros pre b.
  { rewrite present_nil, orb_false_r. apply evals_return. }
  cbn [length seq fmap list_fmap for_range].
  rewrite present_cons, orb_assoc.
  evals_within (eapply evals_bind; [apply update_course_body_evals|];
                at_next (IH (pre ++ overwrite req [e]) (b || bool_decide (id e = id req)))).
Qed.

(** The delete loop pops the first match and leaves the loop at once. *)
Lemma delete_loop_evals k suf : ∀ pre b,
  evals (for_range (Z.of_nat <$> seq (length pre) (length suf))
           (delete_course_body k) b) (pre ++ suf)
    (inr (if present (Some k) suf then inr true else inl b))
    (pre ++ remove_first k suf) (5 * length suf).
Proof.
  induction suf as [|e suf IH]; intros pre b.
  { rewrite present_nil. apply evals_return. }
  cbn [length seq fmap list_fmap for_range remove_first].
  rewrite present_cons.
  destruct (bool_decide (id e = Some k)) eqn:He; cbn [orb].
  - evals_within (eapply evals_bind; [apply delete_course_body_evals|];
                  cbn [remove_first]; rewrite He; apply evals_return).
  - evals_within (eapply evals_bind; [apply delete_course_body_evals|];
                  cbn [remove_first]; rewrite He; at_next (IH (pre ++ [e]) b)).
Qed.

(** The delete loop stops at the first match: its steps are counted by the
    records before the match, not by the length of the list. *)
Lemma delete_loop_evals_first k mid e suf : ∀ pre b,
  present (Some k) mid = false → id e = Some k →
  evals (for_range
           (Z.of_nat <$> seq (length pre) (length (mid ++ e :: suf)))
           (delete_course_body k) b) (pre ++ mid ++ e :: suf)
    (inr (inr true)) (pre ++ mid ++ suf) (3 * length mid + 5).
Proof.
  induction mid as [|x mid IH]; intros pre b Hmid He;
    cbn [app length seq fmap list_fmap for_range].
  - evals_within (eapply evals_bind; [apply delete_course_body_evals|];
                  cbn [remove_first]; rewrite bool_decide_eq_true_2 by done;
                  apply evals_return).
  - rewrite present_cons in Hmid. apply orb_false_iff in Hmid as [Hx Hmid].
    evals_within (eapply evals_bind; [apply delete_course_body_evals|];
                  cbn [remove_first]; rewrite Hx;
                  at_next (IH (pre ++ [x]) b Hmid He)).
Qed.

Lemma scan_get_course k db s :
  scan (λ course (_ : unit),
          if bool_decide (id course = Some k) then inr course else inl tt)
       db s =
  match get_course_loop k db with
  | Some e => inr e
  | None => inl tt
  end.
Proof.
  destruct s. induction db as [|e db IH]; [done|].
  cbn [scan get_course_loop]. by case_bool_decide.
Qed.

Lemma scan_collect (test : Entry → bool) db acc :
  scan (R:=list Entry)
    (λ course acc, inl (if test course then append acc course else acc))
    db acc =
  inl (collect_loop test db acc).
Proof.
  revert acc. induction db as [|e db IH]; intros acc; [done|].
  cbn [scan collect_loop]. apply IH.
Qed.

End loops.

(** ** The handlers *)

Section handlers.
Implicit Types (db : list Entry) (req : CourseRequest) (k : Z).

Lemma async_get_course_evals k db :
  evals (async_get_course k) db (run (get_course k) db).1
    (run (get_course k) db).2 (5 * length db + 5).
Proof.
  rewrite run_get_course. cbn [fst snd]. unfold async_get_course.
  evals_within (
    eapply evals_bind;
      [apply (for_in_evals _
         (λ course _, if bool_decide (id course = Some k) then inr course
                      else inl tt) 0);
       intros; case_bool_decide; apply evals_return|];
    rewrite scan_get_course; destruct (get_course_loop k db);
    eauto with evals).
Qed.

Lemma async_collect_evals (test : Entry → bool) db :
  evals (r ← for_in (λ course courses_to_return,
                Return (inl (if test course
                             then append courses_to_return course
                             else courses_to_return))) [];
         match r with
         | inl courses_to_return | inr courses_to_return =>
             Return courses_to_return
         end) db (inr (collect_loop test db [])) db (5 * length db + 5).
Proof.
  evals_within (
    eapply evals_bind;
      [apply (for_in_evals _
         (λ course acc, inl (if test course then append acc course else acc))
         0); intros; apply evals_return|];
    rewrite scan_collect; apply evals_return).
Qed.

Lemma async_find_courseID_evals (c : Course) db :
  evals (async_find_courseID c) db (run (find_courseID c) db).1 db 6.
Proof.
  rewrite run_find_courseID. cbn [fst]. unfold async_find_courseID, next_id.
  destruct (last db) as [e|] eqn:Hlast.
  - assert (evals (GetItem (-1)) db (inr e) db 1) as Hget
      by (rewrite <- (getitem_last db e Hlast); apply evals_GetItem).
    assert (bool_decide (len db = 0) = false) as Hlen
      by (apply bool_decide_eq_false_2; rewrite len_nil_iff; by intros ->).
    destruct (add (id e) 1) as [err|v] eqn:Hadd.
    + evals_within (evals_op; rewrite Hlen; evals_op; rewrite Hadd;
                    apply evals_bind_raise, evals_raise).
    + evals_within (evals_op; rewrite Hlen; evals_op; rewrite Hadd;
                    evals_op; apply evals_return).
  - apply last_None in Hlast as ->.
    evals_within (evals_op; apply evals_return).
Qed.

Lemma async_create_course_evals req db :
  evals (async_create_course req) db (run (create_course req) db).1
    (run (create_course req) db).2 9.
Proof.
  rewrite run_create_course. unfold async_create_course.
  pose proof (async_find_courseID_evals (Course_of_dump req) db) as Hfind.
  rewrite run_find_courseID in Hfind. cbn [fst] in Hfind.
  destruct (next_id db) as [e|v]; cbn [fst snd].
  - evals_within (by apply evals_bind_raise).
  - evals_within (evals_op; apply evals_Append).
Qed.

Lemma async_update_course_evals req db :
  evals (async_update_course req) db (run (update_course req) db).1
    (run (update_course req) db).2 (5 * length db + 3).
Proof.
  rewrite run_update_course. cbn [fst snd]. unfold async_update_course.
  evals_within (
    evals_op; rewrite range_len;
    eapply evals_bind; [apply (update_loop_evals req db [] false)|];
    cbn [orb]; destruct (present (id req) db); eauto with evals).
Qed.

Lemma async_delete_course_evals k db :
  evals (async_delete_course k) db (run (delete_course k) db).1
    (run (delete_course k) db).2 (5 * length db + 3).
Proof.
  rewrite run_delete_course. cbn [fst snd]. unfold async_delete_course.
  evals_within (
    evals_op; rewrite range_len;
    eapply evals_bind; [apply (delete_loop_evals k db [] false)|];
    destruct (present (Some k) db); eauto with evals).
Qed.

(** Deleting the record at position [p] takes at most [3 * p + 8] steps,
    however long the registry is; an update visits every position. *)
Lemma async_delete_course_first k mid e suf :
  present (Some k) mid = false → id e = Some k →
  evals (async_delete_course k) (mid ++ e :: suf) (inr tt) (mid ++ suf)
    (3 * length mid + 8).
Proof.
  intros Hmid He. unfold async_delete_course.
  evals_within (
    evals_op; rewrite range_len;
    eapply evals_bind;
      [apply (delete_loop_evals_first k mid e suf [] false Hmid He)|];
    apply evals_return).
Qed.

End handlers.

(** ** From validation to response *)

Section endpoints.
Implicit Types (db : list Entry) (req : Request).

Lemma responds_evals {A} status (to_body : A → Body) (t : Task A)
    (h : Handler A) db n :
  evals t db (run h db).1 (run h db).2 n →
  evals (responds status to_body t) db
    (inr (respond status to_body h db).1) (respond status to_body h db).2
    (S (S n)).
Proof.
  intros Ht. unfold responds, respond. destruct (run h db) as [o db'].
  evals_within (eapply evals_bind; [by apply evals_try|apply evals_return]).
Qed.

Lemma async_route_evals req db :
  evals (async_route req) db (inr (route req db).1) (route req db).2
    (fuel_for (length db)).
Proof.
  destruct req as [|k|r|d|body|body|k]; unfold async_route, route, fuel_for;
    (eapply evals_weaken; [apply responds_evals|]);
    [apply evals_Load|lia
    |apply async_get_course_evals|lia
    |apply (async_collect_evals
              (λ course, bool_decide (rating course = r)) db)
    |lia
    |apply (async_collect_evals
              (λ course, bool_decide (published_date course = d)) db)
    |lia
    |apply async_create_course_evals|lia
    |apply async_update_course_evals|lia
    |apply async_delete_course_evals|lia].
Qed.

Lemma endpoint_evals req db :
  evals (endpoint req) db (inr (handle req db).1) (handle req db).2
    (fuel_for (length db)).
Proof.
  unfold endpoint, handle. destruct (request_errors req).
  - apply async_route_evals.
  - evals_within (apply evals_return).
Qed.

(** Run for that many steps or more, [endpoint] has ended. *)
Lemma endpoint_exec req db fuel :
  (fuel_for (length db) ≤ fuel)%nat →
  exec fuel (endpoint req) db = (Return (handle req db).1, (handle req db).2).
Proof. apply (evals_exec _ _ (inr _)), endpoint_evals. Qed.

End endpoints.

(** ** The handlers await nothing *)

Section await.
Implicit Types (db : list Entry).

Lemma responds_await_free {A} status (to_body : A → Body) (t : Task A) :
  await_free t → await_free (responds status to_body t).
Proof. by split. Qed.

Lemma async_route_await_free req : await_free (async_route req).
Proof.
  destruct req as [|k|r|d|body|body|k]; apply responds_await_free; [done|..].
  - split; [apply for_in_await_free|]; [intros; by case_bool_decide|].
    by intros [].
  - split; [by apply for_in_await_free|]. by intros [].
  - split; [by apply for_in_await_free|]. by intros [].
  - split; [|done]. split; [done|]. intros n. case_bool_decide; [done|].
    split; [done|]. intros e. split; [by destruct (add _ _)|done].
  - split; [done|]. intros n. split.
    + apply for_range_await_free. intros i b. split; [done|]. intros course.
      by case_bool_decide.
    + by intros [[]|[]].
  - split; [done|]. intros n. split.
    + apply for_range_await_free. intros i b. split; [done|]. intros course.
      by case_bool_decide.
    + by intros [[]|[]].
Qed.

Lemma endpoint_await_free req : await_free (endpoint req).
Proof.
  unfold endpoint. destruct (request_errors req); [|done].
  apply async_route_await_free.
Qed.

End await.

(** ** The GET handlers write nothing *)

Section reading.

Lemma responds_read_only {A} status (to_body : A → Body) (t : Task A) :
  read_only t → read_only (responds status to_body t).
Proof. by split. Qed.

Lemma async_route_read_only req : is_read req → read_only (async_route req).
Proof.
  destruct req as [|k|r|d|body|body|k]; try (by intros []); intros _;
    apply responds_read_only.
  - split; [apply for_in_read_only|]; [intros; by case_bool_decide|].
    by intros [].
  - split; [by apply for_in_read_only|]. by intros [].
  - split; [by apply for_in_read_only|]. by intros [].
Qed.

Lemma endpoint_read_only req : is_read req → read_only (endpoint req).
Proof.
  intros Hreq. unfold endpoint. destruct (request_errors req); [|done].
  by apply async_route_read_only.
Qed.

End reading.

(** The coroutine of a request is what a scheduler asks for. *)
#[export] Instance endpoint_sequential : Sequential endpoint handle.
Proof.
  split; [apply endpoint_await_free|].
  intros req db. eexists. apply endpoint_evals.
Qed.

(** ** What a request stores *)

(** A request stores validated records only: the body of a PUT, and the
    course made of the body of a POST, whatever id it is given. *)
Lemma endpoint_wp req : wp valid_fields (endpoint req) (λ _, True).
Proof.
  unfold endpoint. destruct (request_errors req) eqn:Herr; [|done].
  destruct req as [|k|r|d|body|body|k]; cbn [async_route responds wp];
    (split; [|done]); try apply validate_ok_iff in Herr.
  - done.
  - apply (for_in_wp _ _ _ (λ _, True)); [|done..].
    intros x [] Hx _. by case_bool_decide.
  - by apply (for_in_wp _ _ _ (λ _, True)).
  - by apply (for_in_wp _ _ _ (λ _, True)).
  - intros n. case_bool_decide; cbn [wp]; [by split|].
    intros x Hx. rewrite wp_final. by destruct (add _ _).
  - intros n. apply (for_range_wp _ _ _ _ (λ _, True)); [|by intros []|done].
    intros i b _ course Hcourse. by case_bool_decide.
  - intros n. apply (for_range_wp _ _ _ _ (λ _, True)); [|by intros []|done].
    intros i b _ course Hcourse. by case_bool_decide.
Qed.

(** * Properties of the coroutines *)

Section coroutines.
Implicit Types (db : list Entry) (req : Request) (k : Z).

(** C17: Run alone, the coroutine of each of the seven handlers, which makes
    its operations on the list one at a time, ends on every registry with
    the outcome (the value returned or the exception raised) and the
    registry of the handler run in one piece, after at most five steps for
    each record and a constant: the list iterator and the index loops visit
    each position once. *)
Theorem async_handlers_sequential (course_request : CourseRequest) k :
  implements async_get_all_courses get_all_courses (λ _, 1%nat) ∧
  implements (async_get_course k) (get_course k) (λ n, 5 * n + 5)%nat ∧
  implements (async_get_courses_by_rating k) (get_courses_by_rating k)
    (λ n, 5 * n + 5)%nat ∧
  implements (async_get_courses_by_publish_date k)
    (get_courses_by_publish_date k) (λ n, 5 * n + 5)%nat ∧
  implements (async_create_course course_request)
    (create_course course_request) (λ _, 9%nat) ∧
  implements (async_update_course course_request)
    (update_course course_request) (λ n, 5 * n + 3)%nat ∧
  implements (async_delete_course k) (delete_course k) (λ n, 5 * n + 3)%nat.
Proof.
  split_and!; intros db.
  - apply evals_Load.
  - apply async_get_course_evals.
  - apply (async_collect_evals (λ course, bool_decide (rating course = k)) db).
  - apply (async_collect_evals
             (λ course, bool_decide (published_date course = k)) db).
  - apply async_create_course_evals.
  - apply async_update_course_evals.
  - apply async_delete_course_evals.
Qed.

(** C18: A request always gets its response: given [fuel_for (length db)]
    steps or more (five for each record and twelve), the coroutine that
    validates a request and runs its handler has ended, with the response
    and the registry of [handle]. *)
Theorem endpoint_terminates req db fuel :
  (fuel_for (length db) ≤ fuel)%nat →
  exec fuel (endpoint req) db = (Return (handle req db).1, (handle req db).2).
Proof. apply endpoint_exec. Qed.

Lemma endpoint_terminates_witness :
  exec 42 (endpoint (DELETE_course 6)) courses_db =
  (Return (mkResponse 204 JEmpty), take 5 courses_db).
Proof. apply (endpoint_terminates (DELETE_course 6) courses_db 42). done. Defined.

End coroutines.
