(* ===== verification/Schedule.v ===== *)
(** * Scheduling: the event loop, and threads

    The service runs its handlers as coroutines of one event loop: a
    coroutine keeps the processor until it awaits, and the functions of
    [src/main.py] never do.  This file gives the coroutine of a request (it
    awaits the request, validates it and runs its handler, awaits again to
    write the response), the event loop as a transition relation on a pool
    of coroutines and the shared list ([loop_step]), and shows that every
    run of the loop is a serial run: [serve] of the requests in the order
    in which their handlers ran.  That is what lets [App] describe the
    service by [handle] and [serve].  The proof uses two facts about the
    handler only, the class [Sequential] of [Tasks]: it is carried out for
    any such handler and instantiated with [endpoint].  The loop also starves no request:
    every run can be completed, and none resumes coroutines more than twice
    the number of requests ([debt] counts what is left to do).

    The second part is the host the specification warns about (section 5):
    threads that may switch between any two list operations ([threads]).
    There the handlers race, and the runs exhibited break what every serial
    run keeps; the constraints on the fields of a record are kept by every
    interleaving, which the calculus [wp] of [Tasks] proves. *)

From stdpp Require Import relations.
From S2P Require Import Prelude Python Course Validation.
From S2P Require Import Registry Invariant App Tasks Coroutines.

#[local] Set Warnings "-clear-no-such-hyp".

Local Open Scope Z_scope.
Local Open Scope task_scope.

(** ** The coroutine of a request *)

Abbreviation Pool A := (list (Task A)).

(** What is left of the coroutine once the handler has run: the response is
    written to the connection. *)
Definition answered {A} (resp : A) : Task A :=
  Await;; Return resp.

(** The coroutine of a request, on a server whose requests are handled by
    [program]: it awaits the request, handles it, and awaits the write of
    the response. *)
Definition coroutine {Req Resp} (program : Req → Task Resp) (req : Req)
    : Task Resp :=
  Await;;
  resp ← program req;
  answered resp.

(** The requests of the service are handled by [endpoint]. *)
Definition request_task (req : Request) : Task Response :=
  coroutine endpoint req.

(** ** The event loop *)

(** A coroutine that is parked does not run: it awaits, or has ended. *)
Definition parked {A} (t : Task A) : bool :=
  suspended t || bool_decide (is_Some (outcome t)).

(** The running coroutine keeps the processor until it is parked. *)
Inductive slice {A} : relation (Task A * list Entry) :=
| slice_parked t db : parked t = true → slice (t, db) (t, db)
| slice_step t db c :
    parked t = false → slice (step t db) c → slice (t, db) c.

(** A step of the loop: some awaiting coroutine is resumed and runs until
    it is parked again. *)
Inductive loop_step {A} : relation (Pool A * list Entry) :=
| loop_resume pool db i t t' db' :
    pool !! i = Some t → suspended t = true →
    slice (step t db) (t', db') →
    loop_step (pool, db) (<[i := t']> pool, db').

(** The same, as functions: [fuel] bounds the steps of one slice. *)
Fixpoint run_slice {A} (fuel : nat) (t : Task A) (db : list Entry)
    : option (Task A * list Entry) :=
  if parked t then Some (t, db)
  else match fuel with
       | O => None
       | S fuel' => let '(t', db') := step t db in run_slice fuel' t' db'
       end.

Definition resume {A} (fuel : nat) (i : nat) (c : Pool A * list Entry)
    : option (Pool A * list Entry) :=
  match c.1 !! i with
  | Some t =>
      if suspended t then
        let '(t1, db1) := step t c.2 in
        match run_slice fuel t1 db1 with
        | Some (t', db') => Some (<[i := t']> c.1, db')
        | None => None
        end
      else None
  | None => None
  end.

Fixpoint event_loop {A} (fuel : nat) (schedule : list nat)
    (c : Pool A * list Entry) : option (Pool A * list Entry) :=
  match schedule with
  | [] => Some c
  | i :: rest =>
      match resume fuel i c with
      | Some c' => event_loop fuel rest c'
      | None => None
      end
  end.

(** ** Threads *)

(** Thread [i] makes one step, whatever it is about to do. *)
Definition thread_run {A} (i : nat) (c : Pool A * list Entry)
    : Pool A * list Entry :=
  match c.1 !! i with
  | Some t => let '(t', db') := step t c.2 in (<[i := t']> c.1, db')
  | None => c
  end.

Definition threads {A} (schedule : list nat) (c : Pool A * list Entry)
    : Pool A * list Entry :=
  foldl (λ c i, thread_run i c) c schedule.

(** The steps a schedule gives to thread [i]. *)
Definition turns (i : nat) (schedule : list nat) : nat :=
  length (filter (λ j, j = i) schedule).

(** The status a thread has answered with, if it has ended. *)
Definition answer (t : Task Response) : option Z :=
  match outcome t with
  | Some (inr resp) => Some (status_code resp)
  | Some (inl _) => Some 500
  | None => None
  end.

(** The resumptions a coroutine of the loop still needs: two before its
    handler has run, one to write the response, none once it has ended. *)
Definition debt {A} (t : Task A) : nat :=
  match outcome t, outcome (exec 2 t []).1 with
  | Some _, _ => 0
  | None, Some _ => 1
  | None, None => 2
  end.

(** ** The state of a run of the event loop

    [order] lists the requests whose handler has run, in the order in which
    they ran, and [served] the requests themselves: the registry is what
    serving them one after the other with [h] leaves, each of their
    coroutines holds the response that gave and has still to write it or
    has ended, and the other coroutines have not started. *)
Record serial {Req Resp} (program : Req → Task Resp)
    (h : Req → list Entry → Resp * list Entry)
    (reqs : list Req) (db : list Entry) (pool : Pool Resp)
    (db' : list Entry) (order : list nat) (served : list Req) : Prop := {
  serial_NoDup : NoDup order;
  serial_served : Forall2 (λ i req, reqs !! i = Some req) order served;
  serial_db : db' = (serve_by h served db).2;
  serial_handled j i :
    order !! j = Some i →
    ∃ resp, (serve_by h served db).1 !! j = Some resp ∧
      (pool !! i = Some (answered resp) ∨ pool !! i = Some (Return resp));
  serial_pending i :
    i ∉ order → pool !! i = coroutine program <$> reqs !! i
}.

Arguments serial_served {_ _ _ _ _ _ _ _ _ _} _.
Arguments serial_db {_ _ _ _ _ _ _ _ _ _} _.
Arguments serial_handled {_ _ _ _ _ _ _ _ _ _} _ _ _ _.
Arguments serial_pending {_ _ _ _ _ _ _ _ _ _} _ _ _.

(** * Theorems *)

(** ** Slices *)

Section slices.
Context {A : Type}.
Implicit Types (t : Task A) (db : list Entry) (c : Task A * list Entry).

Lemma slice_det c c1 c2 : slice c c1 → slice c c2 → c1 = c2.
Proof.
  induction 1 as [t db Hp|t db c' Hp _ IH]; inversion 1; simplify_eq; eauto;
    congruence.
Qed.

Lemma suspended_outcome t : suspended t = true → outcome t = None.
Proof. by destruct t. Qed.

Lemma parked_await_free t :
  await_free t → outcome t = None → parked t = false.
Proof.
  intros Ht Hnone. unfold parked.
  rewrite (await_free_not_suspended t Ht), Hnone.
  apply bool_decide_eq_false_2. by intros [? [=]].
Qed.

Lemma run_slice_slice fuel t db c :
  run_slice fuel t db = Some c → slice (t, db) c.
Proof.
  revert t db. induction fuel as [|fuel IH]; intros t db; cbn [run_slice];
    destruct (parked t) eqn:Hp.
  - intros [= <-]. by apply slice_parked.
  - done.
  - intros [= <-]. by apply slice_parked.
  - destruct (step t db) as [t' db'] eqn:Hstep. intros Hrun%IH.
    apply slice_step; [done|]. by rewrite Hstep.
Qed.

End slices.

Section slices_bind.
Context {Req Resp : Type} (program : Req → Task Resp).
Context (h : Req → list Entry → Resp * list Entry).
Context `{!Sequential program h}.
Implicit Types (db : list Entry) (req : Req) (resp : Resp).

(** A part of a coroutine that awaits nothing runs in the slice it starts
    in, to its end. *)
Lemma slice_bind {A B} n (t : Task A) (k : A → Task B) db x db1 c :
  await_free t → nsteps tstep n (t, db) (Return x, db1) →
  slice (k x, db1) c → slice (Bind t k, db) c.
Proof.
  revert t db. induction n as [|n IH]; intros t db Ht Hsteps Hk;
    inversion Hsteps as [|? ? [t1 db1'] ? [Hnone Hstep] Hrest]; simplify_eq/=.
  - apply slice_step; [done|]. done.
  - apply slice_step.
    + unfold parked. cbn. by rewrite (await_free_not_suspended t Ht).
    + cbn. rewrite Hnone, Hstep. apply IH; [|done..].
      pose proof (step_await_free t db Ht) as Ht1. by rewrite Hstep in Ht1.
Qed.

(** Resumed, the coroutine of a request runs its handler to the end, and
    is parked with the response of [h] to write. *)
Lemma slice_coroutine req db :
  slice (step (coroutine program req) db)
    (answered (h req db).1, (h req db).2).
Proof.
  apply slice_step; [done|]. cbn [step outcome fst snd].
  destruct (sequential_evals req db) as (n & (n' & _ & Hsteps)%evals_nsteps).
  eapply slice_bind; [apply sequential_await_free|done|]. by constructor.
Qed.

Lemma answered_inj resp resp' : answered resp = answered resp' → resp = resp'.
Proof.
  intros Heq.
  apply (f_equal (λ t, outcome (step (step t []).1 []).1)) in Heq.
  cbn in Heq. by injection Heq.
Qed.

Lemma slice_answered resp db :
  slice (step (answered resp) db) (Return resp, db).
Proof. apply slice_step; [done|]. by constructor. Qed.

End slices_bind.

(** ** Every run of the event loop is serial *)

Section event_loop.
Context {Req Resp : Type} (program : Req → Task Resp).
Context (h : Req → list Entry → Resp * list Entry).
Context `{!Sequential program h}.
Implicit Types (reqs served : list Req) (db : list Entry) (pool : Pool Resp).
Implicit Types (order : list nat) (req : Req) (resp : Resp).
Implicit Types (c : Pool Resp * list Entry).

Lemma serial_init reqs db : serial program h reqs db (coroutine program <$> reqs) db [] [].
Proof.
  split; [constructor|constructor|done|by intros ?? ?|].
  intros i _. by rewrite list_lookup_fmap.
Qed.

(** The handler of a request that has not started runs: the request goes
    to the end of the order. *)
Lemma serial_answer reqs db pool db' order served i req :
  serial program h reqs db pool db' order served → i ∉ order → reqs !! i = Some req →
  serial program h reqs db (<[i := answered (h req db').1]> pool)
    (h req db').2 (order ++ [i]) (served ++ [req]).
Proof.
  intros [Hnd Hserved Hdb Hhandled Hpending] Hi Hreq.
  pose proof (Forall2_length _ _ _ Hserved) as Hlen.
  assert (i < length pool)%nat as Hlt.
  { eapply lookup_lt_is_Some. rewrite (Hpending i Hi), Hreq. by eexists. }
  assert ((serve_by h (served ++ [req]) db) =
          ((serve_by h served db).1 ++ [(h req db').1], (h req db').2))
    as Hserve by (by rewrite serve_by_app, <- Hdb).
  split.
  - apply NoDup_app. split_and!; [done| |apply NoDup_singleton].
    by intros x Hx ->%list_elem_of_singleton.
  - apply Forall2_app; [done|]. by repeat constructor.
  - by rewrite Hserve.
  - intros j i' Hj. rewrite Hserve. cbn [fst].
    apply lookup_app_Some in Hj as [Hj|[Hge Hj]].
    + destruct (Hhandled j i' Hj) as (resp & Hresp & Hpool).
      exists resp. rewrite lookup_app_l by eauto using lookup_lt_Some.
      rewrite list_lookup_insert_ne; [done|].
      intros <-. by eapply Hi, list_elem_of_lookup_2.
    + apply list_lookup_singleton_Some in Hj as [Hj <-].
      exists (h req db').1. rewrite list_lookup_insert_eq by done.
      split; [|by left]. rewrite lookup_app_r by (rewrite length_serve_by; lia).
      rewrite length_serve_by, <- Hlen. by replace (j - length order)%nat with 0%nat
        by lia.
  - intros i' [Hi' Hne]%not_elem_of_app.
    rewrite list_lookup_insert_ne; [by apply Hpending|].
    intros <-. apply Hne. by apply list_elem_of_singleton.
Qed.

(** The response of a request whose handler has run is written. *)
Lemma serial_finish reqs db pool db' order served i resp :
  serial program h reqs db pool db' order served →
  pool !! i = Some (answered resp) → i ∈ order →
  serial program h reqs db (<[i := Return resp]> pool) db' order served.
Proof.
  intros [Hnd Hserved Hdb Hhandled Hpending] Hpool Hi.
  split; try done.
  - intros j i' Hj. destruct (Hhandled j i' Hj) as (resp' & Hresp & Hi').
    exists resp'. split; [done|]. destruct (decide (i' = i)) as [->|Hne].
    + rewrite list_lookup_insert_eq by eauto using lookup_lt_Some.
      rewrite Hpool in Hi'. destruct Hi' as [Heq|Heq]; [|done].
      apply (inj Some), answered_inj in Heq. right. by rewrite Heq.
    + by rewrite list_lookup_insert_ne.
  - intros i' Hi'. rewrite list_lookup_insert_ne; [by apply Hpending|].
    by intros <-.
Qed.

Lemma loop_step_serial reqs db pool db' order served c :
  serial program h reqs db pool db' order served → loop_step (pool, db') c →
  ∃ order' served', serial program h reqs db c.1 c.2 order' served'.
Proof.
  intros Hs Hstep.
  inversion Hstep as [? ? i t t' db'' Hi Hsusp Hslice]; simplify_eq/=.
  destruct (decide (i ∈ order)) as [[j Hj]%list_elem_of_lookup|Hnot].
  - destruct (serial_handled Hs j i Hj) as (resp & _ & [Ht|Ht]);
      rewrite Hi in Ht; apply (inj Some) in Ht; subst t; [|done].
    pose proof (slice_det _ _ _ Hslice (slice_answered resp db')) as [= -> ->].
    exists order, served.
    eapply serial_finish; eauto using list_elem_of_lookup_2.
  - pose proof (serial_pending Hs i Hnot) as Hp.
    rewrite Hi in Hp. symmetry in Hp.
    apply fmap_Some in Hp as (req & Hreq & ->).
    pose proof (slice_det _ _ _ Hslice (slice_coroutine program h req db'))
      as [= -> ->].
    exists (order ++ [i]), (served ++ [req]). by apply serial_answer.
Qed.

Lemma event_loop_invariant reqs db c :
  rtc loop_step (coroutine program <$> reqs, db) c →
  ∃ order served, serial program h reqs db c.1 c.2 order served.
Proof.
  revert c. apply rtc_ind_r.
  - exists [], []. apply serial_init.
  - intros [pool db'] c _ Hstep (order & served & Hs).
    by eapply loop_step_serial.
Qed.

(** ** Every run of the event loop can be completed *)

Lemma loop_step_length c c' : loop_step c c' → length c'.1 = length c.1.
Proof. intros []. apply length_insert. Qed.

Lemma loop_steps_length c c' : rtc loop_step c c' → length c'.1 = length c.1.
Proof.
  induction 1 as [|c c1 c' Hstep _ IH]; [done|].
  by rewrite IH, (loop_step_length _ _ Hstep).
Qed.

(** A response that is written stays. *)
Lemma loop_step_written c c' i resp :
  loop_step c c' → c.1 !! i = Some (Return resp) →
  c'.1 !! i = Some (Return resp).
Proof.
  intros [pool db' j t t' db'' Hj Hsusp _] Hi. cbn [fst] in *.
  rewrite list_lookup_insert_ne; [done|]. intros ->.
  rewrite Hi in Hj. by injection Hj as <-.
Qed.

Lemma loop_steps_written c c' i resp :
  rtc loop_step c c' → c.1 !! i = Some (Return resp) →
  c'.1 !! i = Some (Return resp).
Proof. induction 1; eauto using loop_step_written. Qed.

(** Where the coroutine of a request stands. *)
Lemma serial_stage reqs db pool db' order served i req :
  serial program h reqs db pool db' order served → reqs !! i = Some req →
  pool !! i = Some (coroutine program req) ∨
  ∃ resp, pool !! i = Some (answered resp) ∨ pool !! i = Some (Return resp).
Proof.
  intros Hs Hreq.
  destruct (decide (i ∈ order)) as [[j Hj]%list_elem_of_lookup|Hnot].
  - destruct (serial_handled Hs j i Hj) as (resp & _ & Ht).
    right. by exists resp.
  - left. by rewrite (serial_pending Hs i Hnot), Hreq.
Qed.

Lemma serial_request reqs db pool db' order served i t :
  serial program h reqs db pool db' order served → pool !! i = Some t →
  is_Some (reqs !! i).
Proof.
  intros Hs Hi.
  destruct (decide (i ∈ order)) as [[j Hj]%list_elem_of_lookup|Hnot].
  - destruct (Forall2_lookup_l _ _ _ _ _ (serial_served Hs) Hj)
      as (req & _ & Hreq). by exists req.
  - rewrite (serial_pending Hs i Hnot) in Hi.
    apply fmap_Some in Hi as (req & Hreq & _). by exists req.
Qed.

Lemma loop_write pool db i resp :
  pool !! i = Some (answered resp) →
  loop_step (pool, db) (<[i := Return resp]> pool, db).
Proof. intros Hi. eapply loop_resume; [done..|apply slice_answered]. Qed.

(** The loop can bring any one request to its written response, in two
    resumptions at most. *)
Lemma loop_finish_one reqs db c order served i req :
  serial program h reqs db c.1 c.2 order served → reqs !! i = Some req →
  ∃ c', rtc loop_step c c' ∧ ∃ resp, c'.1 !! i = Some (Return resp).
Proof.
  destruct c as [pool db']. intros Hs Hreq. cbn [fst snd] in Hs.
  destruct (serial_stage _ _ _ _ _ _ _ _ Hs Hreq) as [Hi|[resp [Hi|Hi]]].
  - pose proof (lookup_lt_Some _ _ _ Hi) as Hlt.
    eexists. split.
    + eapply rtc_l; [eapply loop_resume; [done..|apply (slice_coroutine program h)]|].
      apply rtc_once, loop_write. by apply list_lookup_insert_eq.
    + eexists. apply list_lookup_insert_eq. by rewrite length_insert.
  - pose proof (lookup_lt_Some _ _ _ Hi) as Hlt.
    eexists. split; [by apply rtc_once, loop_write|].
    eexists. by apply list_lookup_insert_eq.
  - exists (pool, db'). split; [done|]. by exists resp.
Qed.

Lemma loop_finish_upto reqs db c k :
  rtc loop_step (coroutine program <$> reqs, db) c → (k ≤ length reqs)%nat →
  ∃ c', rtc loop_step c c' ∧
    ∀ i, (i < k)%nat → ∃ resp, c'.1 !! i = Some (Return resp).
Proof.
  intros Hc. induction k as [|k IH]; intros Hk.
  { exists c. split; [done|]. lia. }
  destruct IH as (c1 & Hc1 & Hdone); [lia|].
  destruct (event_loop_invariant reqs db c1) as (order & served & Hs);
    [by etrans|].
  destruct (lookup_lt_is_Some_2 reqs k) as [req Hreq]; [lia|].
  destruct (loop_finish_one _ _ _ _ _ _ _ Hs Hreq) as (c2 & Hc2 & resp & Hk2).
  exists c2. split; [by etrans|]. intros i Hi.
  destruct (decide (i = k)) as [->|Hne]; [by exists resp|].
  destruct (Hdone i) as [resp' Hi']; [lia|].
  exists resp'. by eapply loop_steps_written.
Qed.

(** ** No run of the event loop goes on for ever *)

Lemma debt_pending reqs :
  sum_list (debt <$> (coroutine program <$> reqs)) = (2 * length reqs)%nat.
Proof.
  induction reqs as [|req reqs IH]; [done|].
  rewrite !fmap_cons. cbn [sum_list_with length]. rewrite IH.
  change (debt (coroutine program req)) with 2%nat. unfold Datatypes.id. lia.
Qed.

(** Each resumption pays one of the two a request needs. *)
Lemma loop_step_debt reqs db c c' order served :
  serial program h reqs db c.1 c.2 order served → loop_step c c' →
  (sum_list (debt <$> c'.1) + 1 = sum_list (debt <$> c.1))%nat.
Proof.
  intros Hs Hstep.
  inversion Hstep as [pool db' i t t' db'' Hi Hsusp Hslice]; simplify_eq/=.
  rewrite list_fmap_insert.
  assert (debt t = S (debt t')) as Hdebt; last first.
  { pose proof (sum_list_insert (debt <$> pool) i (debt t) (debt t')) as Hsum.
    rewrite list_lookup_fmap, Hi in Hsum. specialize (Hsum eq_refl).
    lia. }
  destruct (serial_request _ _ _ _ _ _ _ _ Hs Hi) as [req Hreq].
  destruct (serial_stage _ _ _ _ _ _ _ _ Hs Hreq) as [Ht|[resp [Ht|Ht]]];
    rewrite Hi in Ht; apply (inj Some) in Ht; subst t; [| |done].
  - by pose proof (slice_det _ _ _ Hslice (slice_coroutine program h req db'))
      as [= -> ->].
  - by pose proof (slice_det _ _ _ Hslice (slice_answered resp db'))
      as [= -> ->].
Qed.

Lemma loop_steps_debt reqs db n c :
  nsteps loop_step n (coroutine program <$> reqs, db) c →
  (n + sum_list (debt <$> c.1) = 2 * length reqs)%nat.
Proof.
  revert c. induction n as [|n IH]; intros c Hn.
  - inversion Hn; subst. cbn [fst]. by rewrite debt_pending.
  - apply nsteps_inv_r in Hn as (c1 & Hn & Hstep).
    destruct (event_loop_invariant reqs db c1) as (order & served & Hs);
      [by eapply rtc_nsteps_2|].
    pose proof (loop_step_debt _ _ _ _ _ _ Hs Hstep). specialize (IH c1 Hn).
    lia.
Qed.

(** The functions compute runs of the relation. *)
Lemma resume_loop_step fuel i c c' : resume fuel i c = Some c' → loop_step c c'.
Proof.
  destruct c as [pool db]. unfold resume. cbn [fst snd].
  destruct (pool !! i) as [t|] eqn:Hi; [|done].
  destruct (suspended t) eqn:Hsusp; [|done].
  destruct (step t db) as [t1 db1] eqn:Hstep.
  destruct (run_slice fuel t1 db1) as [[t' db']|] eqn:Hrun; [|done].
  intros [= <-]. eapply loop_resume; [done..|].
  rewrite Hstep. by eapply run_slice_slice.
Qed.

Lemma event_loop_rtc fuel schedule c c' :
  event_loop fuel schedule c = Some c' → rtc loop_step c c'.
Proof.
  revert c. induction schedule as [|i schedule IH]; intros c; cbn [event_loop].
  - by intros [= <-].
  - destruct (resume fuel i c) as [c1|] eqn:Hresume; [|done].
    intros Hrest%IH. eapply rtc_l; [|done]. by eapply resume_loop_step.
Qed.

(** ** The three facts about the loop *)

Lemma loop_serial reqs db pool' db' :
  rtc loop_step (coroutine program <$> reqs, db) (pool', db') →
  Forall (λ t, is_Some (outcome t)) pool' →
  ∃ order served,
    order ≡ₚ seq 0 (length reqs) ∧
    Forall2 (λ i req, reqs !! i = Some req) order served ∧
    db' = (serve_by h served db).2 ∧
    Forall2 (λ i resp, pool' !! i = Some (Return resp)) order
      (serve_by h served db).1.
Proof.
  intros (order & served & [Hnd Hserved Hdb Hhandled Hpending])
    %event_loop_invariant Hdone. cbn [fst snd] in *.
  assert (∀ i t, pool' !! i = Some t → outcome t ≠ None) as Hended.
  { intros i t Hi. eapply Forall_lookup_1 in Hdone as [o Ho]; [|done].
    by rewrite Ho. }
  exists order, served. split_and!; [|done..|].
  - apply NoDup_Permutation; [done|apply NoDup_seq|].
    intros i. rewrite elem_of_seq. split.
    + intros [j Hj]%list_elem_of_lookup.
      destruct (Forall2_lookup_l _ _ _ _ _ Hserved Hj) as (req & _ & Hreq).
      apply lookup_lt_Some in Hreq. lia.
    + intros [_ Hi]. destruct (decide (i ∈ order)) as [|Hnot]; [done|].
      destruct (lookup_lt_is_Some_2 reqs i) as [req Hreq]; [lia|].
      pose proof (Hpending i Hnot) as Hp. rewrite Hreq in Hp.
      by destruct (Hended _ _ Hp).
  - apply Forall2_same_length_lookup. split.
    { by rewrite length_serve_by, (Forall2_length _ _ _ Hserved). }
    intros j i resp Hj Hresp.
    destruct (Hhandled j i Hj) as (resp' & Hresp' & [Hp|Hp]);
      [by destruct (Hended _ _ Hp)|congruence].
Qed.

Lemma loop_completes reqs db c :
  rtc loop_step (coroutine program <$> reqs, db) c →
  ∃ c', rtc loop_step c c' ∧ Forall (λ t, is_Some (outcome t)) c'.1.
Proof.
  intros Hc.
  destruct (loop_finish_upto reqs db c (length reqs) Hc) as (c' & Hc' & Hdone);
    [done|].
  exists c'. split; [done|]. apply Forall_lookup. intros i t Hi.
  destruct (Hdone i) as [resp Hresp]; [|by simplify_eq].
  apply lookup_lt_Some in Hi.
  rewrite (loop_steps_length _ _ Hc'), (loop_steps_length _ _ Hc) in Hi.
  cbn [fst] in Hi. by rewrite length_fmap in Hi.
Qed.

Lemma loop_bounded reqs db n c :
  nsteps loop_step n (coroutine program <$> reqs, db) c →
  (n ≤ 2 * length reqs)%nat ∧
  (Forall (λ t, is_Some (outcome t)) c.1 → n = (2 * length reqs)%nat).
Proof.
  intros Hn%loop_steps_debt. split; [lia|]. intros Hdone.
  assert (sum_list (debt <$> c.1) = 0%nat) as Hsum; [|lia].
  clear Hn. induction Hdone as [|t pool [o Ht] _ IH]; [done|].
  cbn [fmap list_fmap sum_list]. unfold debt at 1. by rewrite Ht, IH.
Qed.

End event_loop.

(** ** What every interleaving keeps *)

Section threads.
Context {A : Type} (P : Entry → Prop).
Implicit Types (c : Pool A * list Entry) (i : nat).

Lemma thread_run_wp i c :
  Forall (λ t, wp P t (λ _, True)) c.1 → Forall P c.2 →
  Forall (λ t, wp P t (λ _, True)) (thread_run i c).1 ∧
  Forall P (thread_run i c).2.
Proof.
  intros Hpool Hdb. unfold thread_run.
  destruct (c.1 !! i) as [t|] eqn:Ht; [|done].
  destruct (step_wp P t (λ _, True) c.2) as [Ht' Hdb']; [|done|].
  { apply (Forall_lookup_1 _ _ _ _ Hpool Ht). }
  destruct (step t c.2). split; [|done]. by apply Forall_insert.
Qed.

Lemma threads_wp schedule c :
  Forall (λ t, wp P t (λ _, True)) c.1 → Forall P c.2 →
  Forall P (threads schedule c).2.
Proof.
  unfold threads. revert c.
  induction schedule as [|i schedule IH]; intros c Hpool Hdb; [done|].
  cbn [foldl]. by apply IH; apply thread_run_wp.
Qed.

(** A thread that is given the processor for [n] steps in a row. *)
Lemma threads_replicate n i (pool : Pool A) db t :
  pool !! i = Some t →
  threads (replicate n i) (pool, db) =
  (<[i := (exec n t db).1]> pool, (exec n t db).2).
Proof.
  revert pool db t. induction n as [|n IH]; intros pool db t Hi.
  { cbn. by rewrite list_insert_id. }
  cbn [replicate exec]. unfold threads in *. cbn [foldl].
  unfold thread_run at 2. cbn [fst snd]. rewrite Hi.
  destruct (step t db) as [t' db'].
  rewrite (IH _ _ t'), list_insert_insert_eq; [done|].
  apply list_lookup_insert_eq. by eapply lookup_lt_Some.
Qed.

Lemma threads_app schedule1 schedule2 c :
  threads (schedule1 ++ schedule2) c = threads schedule2 (threads schedule1 c).
Proof. apply foldl_app. Qed.

End threads.

(** Threads that only read do not disturb each other: the list stays as it
    is, and each thread is where the steps it was given take it when it
    runs alone. *)
Section readers.
Context {A : Type}.
Implicit Types (pool : Pool A) (db : list Entry) (i : nat).

Lemma turns_cons i j schedule :
  turns i (j :: schedule) =
  (if bool_decide (j = i) then S (turns i schedule) else turns i schedule).
Proof. unfold turns. rewrite filter_cons. by repeat case_decide. Qed.

Lemma thread_run_read_only i pool db :
  Forall read_only pool →
  thread_run i (pool, db) =
  (match pool !! i with
   | Some t => <[i := (step t db).1]> pool
   | None => pool
   end, db) ∧
  Forall read_only (thread_run i (pool, db)).1.
Proof.
  intros Hpool. unfold thread_run. cbn [fst snd].
  destruct (pool !! i) as [t|] eqn:Ht; [|done].
  destruct (step_read_only t db) as [Ht' Hdb].
  { apply (Forall_lookup_1 _ _ _ _ Hpool Ht). }
  destruct (step t db) as [t' db']. cbn [fst snd] in *. subst db'.
  split; [done|]. by apply Forall_insert.
Qed.

Lemma threads_read_only schedule : ∀ pool db,
  Forall read_only pool →
  (threads schedule (pool, db)).2 = db ∧
  ∀ i, (threads schedule (pool, db)).1 !! i =
       (λ t, (exec (turns i schedule) t db).1) <$> pool !! i.
Proof.
  unfold threads.
  induction schedule as [|j schedule IH]; intros pool db Hpool; cbn [foldl].
  { split; [done|]. intros i. cbn [fst]. by destruct (pool !! i). }
  destruct (thread_run_read_only j pool db Hpool) as [-> Hpool'].
  destruct (IH _ db Hpool') as [Hdb Hlookup].
  cbn [fst] in Hpool'. split; [done|]. intros i.
  rewrite Hlookup, turns_cons. cbn [fst]. clear IH Hdb Hlookup Hpool'.
  destruct (pool !! j) as [t|] eqn:Ht.
  - case_bool_decide as Hij; [subst j|by rewrite list_lookup_insert_ne].
    rewrite list_lookup_insert_eq by by eapply lookup_lt_Some.
    rewrite Ht. cbn [fmap option_fmap option_map exec].
    destruct (step_read_only t db) as [_ Hdb].
    { apply (Forall_lookup_1 _ _ _ _ Hpool Ht). }
    destruct (step t db) as [t' db']. cbn [fst snd] in *. by subst db'.
  - case_bool_decide as Hij; [subst j|done]. by rewrite Ht.
Qed.

(** One thread that writes, among threads that only read, runs as if it
    were alone: the list is where the steps the writer was given have
    taken it. *)
Lemma threads_one_writer schedule : ∀ pool db w t,
  pool !! w = Some t →
  (∀ i t', i ≠ w → pool !! i = Some t' → read_only t') →
  (threads schedule (pool, db)).1 !! w =
    Some (exec (turns w schedule) t db).1 ∧
  (threads schedule (pool, db)).2 = (exec (turns w schedule) t db).2.
Proof.
  unfold threads.
  induction schedule as [|j schedule IH]; intros pool db w t Hw Hreaders;
    cbn [foldl]; [done|].
  rewrite turns_cons. unfold thread_run at 2 4. cbn [fst snd].
  destruct (decide (j = w)) as [->|Hj].
  - rewrite Hw, bool_decide_eq_true_2 by done. cbn [exec].
    destruct (step t db) as [t1 db1]. apply IH.
    + apply list_lookup_insert_eq. by eapply lookup_lt_Some.
    + intros i t' Hi. rewrite list_lookup_insert_ne by done. by apply Hreaders.
  - rewrite bool_decide_eq_false_2 by done.
    destruct (pool !! j) as [t'|] eqn:Hj'; [|by apply IH].
    destruct (step_read_only t' db) as [Ht' Hdb]; [by eapply Hreaders|].
    destruct (step t' db) as [t'' db']. cbn [fst snd] in *. subst db'.
    apply IH; [by rewrite list_lookup_insert_ne|].
    intros i t1 Hi. destruct (decide (i = j)) as [->|Hij].
    + rewrite list_lookup_insert_eq by by eapply lookup_lt_Some.
      by intros [= <-].
    + rewrite list_lookup_insert_ne by done. by apply Hreaders.
Qed.

(** Whatever the schedule, a thread that only reads is still running, or
    has ended with the answer it gives when it runs alone. *)
Lemma threads_read_outcome {Req} (program : Req → Task A)
    (h : Req → list Entry → A * list Entry) `{!Sequential program h}
    (reqs : list Req) schedule db i req :
  Forall (λ req, read_only (program req)) reqs → reqs !! i = Some req →
  ∃ t, (threads schedule (program <$> reqs, db)).1 !! i = Some t ∧
       (outcome t = None ∨ t = Return (h req db).1).
Proof.
  intros Hreqs Hreq.
  destruct (threads_read_only schedule (program <$> reqs) db) as [_ Hlookup].
  { by apply Forall_fmap. }
  rewrite Hlookup, list_lookup_fmap, Hreq. eexists. split; [done|].
  destruct (outcome _) as [o|] eqn:Ho; [right|by left].
  destruct (sequential_evals (program := program) req db) as [n Hn].
  rewrite (exec_outcome_det _ _ _ _ _ _ _ Hn Ho) in Ho.
  by apply outcome_Some in Ho.
Qed.

End readers.

(** Threads can do what the event loop does: when no thread is switched
    before it has ended, the requests are served one after the other. *)
Lemma threads_serial_from (answered_so_far : list Response) reqs db :
  ∃ schedule,
    threads schedule
      ((Return <$> answered_so_far) ++ (endpoint <$> reqs), db) =
    ((Return <$> answered_so_far) ++ (Return <$> (serve reqs db).1),
     (serve reqs db).2).
Proof.
  revert answered_so_far db.
  induction reqs as [|req reqs IH]; intros resps db; [by exists []|].
  destruct (IH (resps ++ [(handle req db).1]) (handle req db).2)
    as [schedule Hrest].
  exists (replicate (fuel_for (length db)) (length resps) ++ schedule).
  rewrite threads_app, serve_cons. cbn [fmap list_fmap fst snd].
  rewrite (threads_replicate _ _ _ _ (endpoint req)).
  - rewrite endpoint_exec by done. cbn [fst snd].
    replace (length resps) with (length (Return (A:=Response) <$> resps))
      by apply length_fmap.
    rewrite list_insert_middle.
    rewrite fmap_app, <- !app_assoc in Hrest. apply Hrest.
  - rewrite lookup_app_r by (by rewrite length_fmap).
    by rewrite length_fmap, Nat.sub_diag.
Qed.

(** * Properties of the schedulers *)

Section schedulers.
Implicit Types (reqs served : list Request) (db : list Entry).
Implicit Types (pool : Pool Response).

(** C15: Every run of the event loop is a serial run.  When the coroutines
    of any requests, interleaved by the loop in any way, have all ended, the
    registry and the responses are those of [serve] on the same requests
    in some order, the order in which their handlers ran: no handler of
    [main.py] awaits, so none is interrupted between two operations on the
    list. *)
Theorem event_loop_serial reqs db pool' db' :
  rtc loop_step (request_task <$> reqs, db) (pool', db') →
  Forall (λ t, is_Some (outcome t)) pool' →
  ∃ order served,
    order ≡ₚ seq 0 (length reqs) ∧
    Forall2 (λ i req, reqs !! i = Some req) order served ∧
    db' = (serve served db).2 ∧
    Forall2 (λ i resp, pool' !! i = Some (Return resp)) order
      (serve served db).1.
Proof.
  intros Hrun Hdone. setoid_rewrite serve_serve_by.
  apply (loop_serial endpoint handle reqs db pool' db' Hrun Hdone).
Qed.

Lemma event_loop_serial_witness :
  let body := mkCourseRequest None (str_of "Rust") (str_of "Ferris") 5 2015 in
  let reqs := [GET_course 7; POST_create_course body; DELETE_course 7] in
  ∃ order served,
    order ≡ₚ seq 0 (length reqs) ∧
    Forall2 (λ i req, reqs !! i = Some req) order served ∧
    courses_db = (serve served courses_db).2 ∧
    Forall2 (λ i resp,
      [Return (mkResponse 200
                 (JCourse (ACourse (set_id (Course_of_dump body) 7))));
       Return (mkResponse 201 JNull);
       Return (mkResponse 204 JEmpty)] !! i = Some (Return resp)) order
      (serve served courses_db).1.
Proof.
  intros body reqs. apply (event_loop_serial reqs).
  - apply (event_loop_rtc 60 [1; 0; 2; 0; 2; 1]%nat). vm_compute. reflexivity.
  - repeat constructor; by eexists.
Defined.

(** C16: the event loop starves no request: whatever it has done so far, it
    can go on until the response of every request is written; no coroutine
    waits for another. *)
Theorem event_loop_completes reqs db c :
  rtc loop_step (request_task <$> reqs, db) c →
  ∃ c', rtc loop_step c c' ∧ Forall (λ t, is_Some (outcome t)) c'.1.
Proof. apply (loop_completes endpoint handle). Qed.

Lemma event_loop_completes_witness :
  ∃ c', rtc loop_step
          (request_task <$> [DELETE_course 1; GET_course 1], courses_db) c' ∧
    Forall (λ t, is_Some (outcome t)) c'.1.
Proof.
  apply (event_loop_completes [DELETE_course 1; GET_course 1] courses_db).
  apply rtc_refl.
Defined.

(** The event loop stops: a run resumes coroutines twice the number of
    requests at most, and exactly so often when every response is
    written. *)
Lemma event_loop_bounded reqs db n c :
  nsteps loop_step n (request_task <$> reqs, db) c →
  (n ≤ 2 * length reqs)%nat ∧
  (Forall (λ t, is_Some (outcome t)) c.1 → n = (2 * length reqs)%nat).
Proof. apply (loop_bounded endpoint handle). Qed.

(** On the event loop the registry stays well formed, from any well-formed
    registry: what [threads_break_registry] shows threads to lose. *)
Lemma event_loop_wf reqs db c :
  wf db → rtc loop_step (request_task <$> reqs, db) c → wf c.2.
Proof.
  intros Hwf (order & served & Hs)%(event_loop_invariant endpoint handle).
  rewrite (serial_db Hs), <- serve_serve_by.
  by apply serve_invariant; [apply handle_wf|].
Qed.

(** C28: Threads break the registry.  On a host that may switch between any
    two operations on the list, a PUT for course 2 and a DELETE of course 1
    can run so that the PUT is answered 500 after it has written: course 3
    is overwritten, two records hold id 2, and the registry left is one
    that no sequence of requests, served one after another, ever
    reaches. *)
Theorem threads_break_registry :
  let put_2 := PUT_update_course
    (mkCourseRequest (Some 2) (str_of "Kotlin 2") (str_of "Ufuk") 4 2027) in
  ∃ schedule,
    let c := threads schedule
               (endpoint <$> [put_2; DELETE_course 1], courses_db) in
    answer <$> c.1 = [Some 500; Some 204] ∧
    ids c.2 = [2; 2; 4; 5; 6] ∧
    ∀ reqs, (serve reqs courses_db).2 ≠ c.2.
Proof.
  intros put_2.
  exists (replicate 7 0 ++ replicate 40 1 ++ replicate 40 0)%nat.
  intros c. assert (ids c.2 = [2; 2; 4; 5; 6]) as Hids by (by vm_compute).
  split_and!; [by vm_compute|done|].
  intros reqs Heq. pose proof (reachable_is_wf _ (reachable_serve reqs)) as Hwf.
  rewrite Heq in Hwf. destruct Hwf as (_ & _ & Hsorted). rewrite Hids in Hsorted.
  apply StronglySorted_inv in Hsorted as [_ Hlt].
  apply Forall_cons in Hlt as [? _]. lia.
Qed.

(** Every serial run is a run of the threads; with
    [threads_break_registry], threads do strictly more than the event
    loop. *)
Lemma threads_serial reqs db :
  ∃ schedule,
    threads schedule (endpoint <$> reqs, db) =
    (Return <$> (serve reqs db).1, (serve reqs db).2).
Proof. apply (threads_serial_from [] reqs db). Qed.

(** C29: the constraints on the fields survive every interleaving: however
    the threads of any requests are switched between list operations, each
    record of the registry still has a title of at least 3 characters, an
    instructor of 3 to 100 and a rating from 1 to 5, since an item is only
    ever replaced by, or followed by, a validated body. *)
Theorem threads_keep_fields reqs schedule db :
  fields_ok db → fields_ok (threads schedule (endpoint <$> reqs, db)).2.
Proof.
  intros Hdb. apply threads_wp; [|done].
  apply Forall_fmap, Forall_true. intros req. apply endpoint_wp.
Qed.

Lemma threads_keep_fields_witness :
  fields_ok
    (threads (replicate 7 0 ++ replicate 40 1 ++ replicate 40 0)%nat
       (endpoint <$>
          [PUT_update_course
             (mkCourseRequest (Some 2) (str_of "Rust") (str_of "Tester")
                5 2025);
           DELETE_course 1], courses_db)).2.
Proof. apply threads_keep_fields, fields_ok_seed. Defined.

(** C30: safety - requests that only read are safe on threads.  However
    the threads of GET requests are switched between list operations, the
    list is left as it was, a thread that has ended has answered as
    [handle] answers on that list, and a thread that was given
    [fuel_for (length db)] steps has ended. *)
Theorem threads_reads_safe reqs schedule db i req :
  Forall is_read reqs → reqs !! i = Some req →
  let c := threads schedule (endpoint <$> reqs, db) in
  c.2 = db ∧
  ∃ t, c.1 !! i = Some t ∧
    (outcome t = None ∨ t = Return (handle req db).1) ∧
    ((fuel_for (length db) ≤ turns i schedule)%nat →
     t = Return (handle req db).1).
Proof.
  intros Hreqs Hreq c.
  assert (Forall (λ req, read_only (endpoint req)) reqs) as Hpool.
  { eapply Forall_impl; [done|]. apply endpoint_read_only. }
  destruct (threads_read_only schedule (endpoint <$> reqs) db)
    as [Hdb Hlookup]; [by apply Forall_fmap|].
  destruct (threads_read_outcome endpoint handle reqs schedule db i req)
    as (t & Ht & Hout); [done..|].
  split; [done|]. exists t. split_and!; [done..|]. intros Hturns.
  unfold c in Ht. rewrite Hlookup, list_lookup_fmap, Hreq in Ht.
  injection Ht as <-. by rewrite endpoint_exec.
Qed.

Lemma threads_reads_safe_witness :
  let reqs := [GET_course 2; GET_courses_by_rating 5] in
  let c := threads ([0; 1; 1; 0; 1] ++ replicate 42 0)%nat
             (endpoint <$> reqs, courses_db) in
  c.2 = courses_db ∧
  ∃ t, c.1 !! 0%nat = Some t ∧
    (outcome t = None ∨ t = Return (handle (GET_course 2) courses_db).1) ∧
    ((fuel_for (length courses_db) ≤
        turns 0 ([0; 1; 1; 0; 1] ++ replicate 42 0))%nat →
     t = Return (handle (GET_course 2) courses_db).1).
Proof.
  intros reqs.
  apply (threads_reads_safe reqs _ courses_db 0%nat (GET_course 2));
    [by repeat constructor|done].
Defined.

(** C31: safety - one writer among readers is safe on threads.  When every
    request but one is a GET, then however the threads are switched
    between list operations, once the thread of that one request has
    been given [fuel_for (length db)] steps it has answered as [handle]
    answers and the list is the one [handle] leaves: the reads beside it
    cannot disturb a create, an update or a delete. *)
Theorem threads_writer_safe reqs schedule db w req :
  reqs !! w = Some req →
  (∀ i req', i ≠ w → reqs !! i = Some req' → is_read req') →
  (fuel_for (length db) ≤ turns w schedule)%nat →
  let c := threads schedule (endpoint <$> reqs, db) in
  c.1 !! w = Some (Return (handle req db).1) ∧ c.2 = (handle req db).2.
Proof.
  intros Hw Hreaders Hturns c.
  destruct (threads_one_writer schedule (endpoint <$> reqs) db w (endpoint req))
    as [Ht Hdb].
  - by rewrite list_lookup_fmap, Hw.
  - intros i t' Hi. rewrite list_lookup_fmap.
    destruct (reqs !! i) as [req'|] eqn:Hreq'; [|done]. intros [= <-].
    by eapply endpoint_read_only, Hreaders.
  - unfold c. by rewrite Ht, Hdb, endpoint_exec.
Qed.

Lemma threads_writer_safe_witness :
  let reqs := [GET_course 2; DELETE_course 1; GET_courses_by_rating 5] in
  let c := threads ([0; 1; 1; 2; 0; 1] ++ replicate 42 1 ++ [2; 0])%nat
             (endpoint <$> reqs, courses_db) in
  c.1 !! 1%nat = Some (Return (handle (DELETE_course 1) courses_db).1) ∧
  c.2 = (handle (DELETE_course 1) courses_db).2.
Proof.
  intros reqs.
  apply (threads_writer_safe reqs _ courses_db 1%nat (DELETE_course 1));
    [done| |vm_compute; lia].
  intros [|[|[|i]]] req' Hi [= <-]; done.
Defined.

(** A lookup can miss a record that is there all along.  While a thread
    deletes course 1 the iterator of a GET for course 2, which has seen
    position 0, goes on at position 1 of the shortened list and never sees
    course 2: the GET is answered 404. *)
Example threads_get_misses :
  let c := threads (replicate 6 0 ++ replicate 40 1 ++ replicate 40 0)%nat
             (endpoint <$> [GET_course 2; DELETE_course 1], courses_db) in
  answer <$> c.1 = [Some 404; Some 204] ∧ ids c.2 = [2; 3; 4; 5; 6].
Proof. by vm_compute. Qed.

(** Two deletions can remove a record nobody asked to delete: both are
    answered 204, course 2 is still there and course 3 is gone. *)
Example threads_delete_wrong_record :
  let c := threads (replicate 7 0 ++ replicate 40 1 ++ replicate 40 0)%nat
             (endpoint <$> [DELETE_course 2; DELETE_course 1], courses_db) in
  answer <$> c.1 = [Some 204; Some 204] ∧ ids c.2 = [2; 4; 5; 6].
Proof. by vm_compute. Qed.

(** Two deletions of the same id, the race the specification names.  The
    thread that has computed the range before the other thread deleted
    course 2 runs out of the list and is answered 500, not 404; the thread
    that has also read position 1 before pops what is there afterwards,
    course 3, and both are answered 204. *)
Example threads_double_delete :
  let run n := threads (replicate n 0 ++ replicate 40 1 ++ replicate 40 0)%nat
                 (endpoint <$> [DELETE_course 2; DELETE_course 2], courses_db)
  in
  (answer <$> (run 1%nat).1 = [Some 500; Some 204] ∧
   ids (run 1%nat).2 = [1; 3; 4; 5; 6]) ∧
  (answer <$> (run 6%nat).1 = [Some 204; Some 204] ∧
   ids (run 6%nat).2 = [1; 4; 5; 6]).
Proof. by vm_compute. Qed.

(** Wherever the first thread is switched, once, these are the only ways
    the two deletions can end: in the order of arrival or the other, the
    first answered 500, or both answered 204 with course 3 lost. *)
Lemma threads_double_delete_outcomes n :
  let c := threads (replicate n 0 ++ replicate 42 1 ++ replicate 42 0)%nat
             (endpoint <$> [DELETE_course 2; DELETE_course 2], courses_db) in
  (answer <$> c.1, ids c.2) ∈
    [([Some 404; Some 204], [1; 3; 4; 5; 6]);
     ([Some 500; Some 204], [1; 3; 4; 5; 6]);
     ([Some 204; Some 204], [1; 4; 5; 6]);
     ([Some 204; Some 404], [1; 3; 4; 5; 6])].
Proof.
  destruct (decide (n < 42)%nat) as [Hn|Hn].
  - revert n Hn. apply (Nat_forall_lt 42). apply (bool_decide_unpack _).
    by vm_compute.
  - intros c. subst c.
    rewrite threads_app, (threads_replicate _ _ _ _ (endpoint (DELETE_course 2)))
      by done.
    rewrite endpoint_exec by (cbn; lia). apply (bool_decide_unpack _).
    by vm_compute.
Qed.

End schedulers.
