(* ===== verification/Server.v ===== *)
(** * The server: a loop that never ends

    The process that runs [src/main.py] starts with the seed list and then
    serves requests for as long as it lives: it receives a request, answers
    it, and waits for the next one; the list is never written anywhere
    else, so a new process starts from the seed again.  [server] is that
    loop as an interaction tree over the events [Recv] and [Send]; its
    state, carried from one round to the next, is the list [handle_raw]
    leaves.

    Two views of a run are related to the functions of [Router]: the
    replies to any finite sequence of requests are those of [serve_raw]
    ([feed]), and a property of replies that [handle_raw] guarantees on
    reachable registries holds of every reply the server ever sends
    ([always], a coinductive predicate on the tree).

    The last part opens several connections: each raw request is a
    coroutine of the event loop of [Schedule], and whatever the loop does
    the replies are those of the tree for some order of arrival. *)

From ITree Require Import ITree.
From Paco Require Import paco.
From stdpp Require Import gmap relations.
From S2P Require Import Prelude Python Course Validation.
From S2P Require Import Registry Invariant App Decimal Router.
From S2P Require Import Tasks Coroutines Schedule.

#[local] Set Warnings "-clear-no-such-hyp".

Local Open Scope Z_scope.

(** ** The loop *)

(** What the server does with its connection. *)
Variant netE : Type → Type :=
| Recv : netE RawRequest
| Send (reply : Reply) : netE unit.

(** One round: receive, handle, answer; the registry left is the state of
    the next round. *)
Definition serve_one (db : list Entry) : itree netE (list Entry + Empty_set) :=
  ITree.bind (ITree.trigger Recv) (λ raw,
    ITree.bind (ITree.trigger (Send (handle_raw raw db).1))
      (λ _, Ret (inl (handle_raw raw db).2))).

Definition server_from (db : list Entry) : itree netE Empty_set :=
  ITree.iter serve_one db.

(** The process starts with the seed. *)
Definition server : itree netE Empty_set := server_from courses_db.

(** ** Finite runs *)

(** The replies the tree sends when the requests [raws] arrive one after
    the other, within [fuel] nodes of the tree. *)
Fixpoint feed (fuel : nat) (t : itree netE Empty_set) (raws : list RawRequest)
    : list Reply :=
  match fuel with
  | O => []
  | S fuel' =>
      match observe t with
      | RetF r => []
      | TauF t' => feed fuel' t' raws
      | VisF e k =>
          match e in netE X return (X → itree netE Empty_set) → list Reply with
          | Recv => λ k,
              match raws with
              | [] => []
              | raw :: raws' => feed fuel' (k raw) raws'
              end
          | Send reply => λ k, reply :: feed fuel' (k tt) raws
          end k
      end
  end.

(** ** Infinite runs *)

(** A reply that is not a server error. *)
Definition no_error (reply : Reply) : Prop :=
  match reply with
  | Answer resp => status_code resp ∈ [200; 201; 204; 404; 405; 422]
  | Redirect _ | Page _ => True
  end.

(** One node of a tree all of whose replies satisfy [P], whatever requests
    arrive: [r] holds of the subtrees. *)
Inductive alwaysF (P : Reply → Prop) (r : itree netE Empty_set → Prop)
    : itree' netE Empty_set → Prop :=
| always_tau t : r t → alwaysF P r (TauF t)
| always_recv k : (∀ raw, r (k raw)) → alwaysF P r (VisF Recv k)
| always_send reply k : P reply → r (k tt) → alwaysF P r (VisF (Send reply) k).

Definition always_gen (P : Reply → Prop) (r : itree netE Empty_set → Prop)
    (t : itree netE Empty_set) : Prop :=
  alwaysF P r (observe t).

(** Every reply of every run of [t], finite or not, satisfies [P]. *)
Definition always (P : Reply → Prop) (t : itree netE Empty_set) : Prop :=
  paco1 (always_gen P) bot1 t.

(** ** Several connections

    With several connections open each request is a coroutine of the event
    loop of [Schedule]: the router finds the handler, the handler runs, and
    the reply waits to be written. *)
Definition raw_endpoint (raw : RawRequest) : Task Reply :=
  match routed (dispatch app raw) with
  | inr req => (resp ← endpoint req; Return (Answer resp))%task
  | inl reply => Return reply
  end.

(** * Theorems *)

Section server.
Implicit Types (db : list Entry) (raw : RawRequest) (raws : list RawRequest).

Lemma always_gen_mon P : monotone1 (always_gen P).
Proof.
  intros t r r' Ht Hr. unfold always_gen in *. destruct Ht; constructor; auto.
Qed.

Lemma feed_server_from raws : ∀ db,
  feed (3 * length raws + 1) (server_from db) raws = (serve_raw raws db).1.
Proof.
  induction raws as [|raw raws IH]; intros db; [done|].
  replace (3 * length (raw :: raws) + 1)%nat
    with (S (S (S (3 * length raws + 1)))) by (cbn [length]; lia).
  rewrite serve_raw_cons. cbn [fst]. by rewrite <- IH.
Qed.

(** More fuel than the requests need changes nothing. *)
Lemma feed_server_fuel raws : ∀ db fuel,
  (3 * length raws + 1 ≤ fuel)%nat →
  feed fuel (server_from db) raws = (serve_raw raws db).1.
Proof.
  induction raws as [|raw raws IH]; intros db fuel Hfuel.
  - destruct fuel as [|[|fuel]]; [cbn in Hfuel; lia|done..].
  - destruct fuel as [|[|[|fuel]]]; try (cbn [length] in Hfuel; lia).
    rewrite serve_raw_cons. cbn [fst].
    rewrite <- (IH (handle_raw raw db).2 fuel) by (cbn [length] in Hfuel; lia).
    done.
Qed.

(** A property of the replies that holds on the registries of an invariant
    holds of every reply of the server started in one of them. *)
Lemma always_invariant (P : Reply → Prop) (I : list Entry → Prop) :
  (∀ raw db, I db → P (handle_raw raw db).1 ∧ I (handle_raw raw db).2) →
  ∀ db, I db → always P (server_from db).
Proof.
  intros Hstep. pcofix CIH. intros db Hdb.
  pfold. unfold always_gen. cbn. constructor. intros raw.
  destruct (Hstep raw db Hdb) as [HP HI].
  left. pfold. unfold always_gen. cbn. constructor; [done|].
  left. pfold. unfold always_gen. cbn. constructor. right. by apply CIH.
Qed.

Lemma handle_raw_no_error raw db : wf db → no_error (handle_raw raw db).1.
Proof.
  intros Hwf. unfold handle_raw.
  destruct (dispatch app raw) as [req| | | | |]; cbn; try by repeat constructor.
  pose proof (handle_status_wf req db Hwf) as Hstatus.
  destruct (handle req db) as [resp db']. cbn in *.
  apply list_elem_of_In in Hstatus. apply list_elem_of_In. cbn in *. tauto.
Qed.

End server.



(** * Properties of the server *)

Section properties.
Implicit Types (db : list Entry) (raws : list RawRequest).

(** C25: The server never answers with a server error, however long it runs
    and whatever requests arrive, routed or not, valid or not: every reply
    it ever sends is a redirection, a page of the documentation, or a
    response with status 200, 201, 204, 404, 405 or 422. *)
Theorem server_never_fails : always no_error server.
Proof.
  apply (always_invariant no_error reachable); [|constructor].
  intros raw db Hdb. split.
  - by apply handle_raw_no_error, reachable_is_wf.
  - by apply handle_raw_reachable.
Qed.

(** Fed any finite sequence of requests, the server loop sends exactly
    the replies of [serve_raw] from the seed, in order, once it is given
    three nodes of the tree for each request and one more. *)
Lemma server_replies raws fuel :
  (3 * length raws + 1 ≤ fuel)%nat →
  feed fuel server raws = (serve_raw raws courses_db).1.
Proof. apply feed_server_fuel. Qed.

Lemma server_replies_witness :
  feed 7 server [mkRaw DELETE "/courses/delete/6" ∅ None;
                 mkRaw GET "/courses/6" ∅ None] =
  [Answer (mkResponse 204 JEmpty); Answer not_found_response].
Proof.
  exact (server_replies [mkRaw DELETE "/courses/delete/6" ∅ None;
                         mkRaw GET "/courses/6" ∅ None] 7 ltac:(cbn; lia)).
Defined.

End properties.

(** ** Several connections *)

(** The coroutine of a raw request awaits nothing and does what
    [handle_raw] does: it is what the event loop asks for. *)
#[export] Instance raw_endpoint_sequential : Sequential raw_endpoint handle_raw.
Proof.
  split; intros raw; [|intros db]; unfold raw_endpoint, handle_raw;
    destruct (routed (dispatch app raw)) as [reply|req];
    [done|by split; [apply endpoint_await_free|]| |].
  - exists 0%nat. apply evals_return.
  - eexists. pose proof (endpoint_evals req db) as Hreq.
    destruct (handle req db) as [resp db'].
    eapply evals_bind; [apply Hreq|apply evals_return].
Qed.

(** C26: the server with several connections is the server with one.
    However the event loop interleaves the coroutines of the requests that
    have arrived, when all are answered the replies are those the loop of
    [server] sends when the same requests arrive one after the other in
    some order, the order in which their handlers ran. *)
Theorem connections_serial raws pool' db' :
  rtc loop_step (coroutine raw_endpoint <$> raws, courses_db) (pool', db') →
  Forall (λ t, is_Some (outcome t)) pool' →
  ∃ order served,
    order ≡ₚ seq 0 (length raws) ∧
    Forall2 (λ i raw, raws !! i = Some raw) order served ∧
    Forall2 (λ i reply, pool' !! i = Some (Return reply)) order
      (feed (3 * length served + 1) server served).
Proof.
  intros Hrun Hdone.
  destruct (loop_serial raw_endpoint handle_raw raws courses_db pool' db'
              Hrun Hdone) as (order & served & Hperm & Hserved & _ & Hreplies).
  exists order, served. split_and!; [done..|].
  by rewrite server_replies, serve_raw_serve_by.
Qed.

Lemma connections_serial_witness :
  let raws := [mkRaw GET "/courses/6" ∅ None;
               mkRaw DELETE "/courses/delete/6" ∅ None] in
  ∃ order served,
    order ≡ₚ seq 0 (length raws) ∧
    Forall2 (λ i raw, raws !! i = Some raw) order served ∧
    Forall2 (λ i reply,
      [Return (Answer not_found_response);
       Return (Answer (mkResponse 204 JEmpty))] !! i = Some (Return reply))
      order (feed (3 * length served + 1) server served).
Proof.
  intros raws. apply (connections_serial raws _ (take 5 courses_db)).
  - apply (event_loop_rtc 60 [1; 0; 1; 0]%nat). vm_compute. reflexivity.
  - repeat constructor; by eexists.
Defined.
